(** * GSConnect telephony plugin: a shallow embedding of
      [src/service/plugins/telephony.js]

    The file embeds the two halves of the plugin:
    - the [sms:] URI class [SmsURI] (its two regular expressions, the
      constructor [_init] and [toString]), over JavaScript strings seen as
      sequences of UTF-16 code units, together with the JavaScript built-ins
      the class calls ([split], [unescape], [escape],
      [decodeURIComponent], [RegExp.prototype.exec]);
    - the packet handlers of [Plugin] ([handlePacket], [_parsePacket],
      [_onMissedCall], [_onRinging], [_onSms], [_onTalking], [_hasWindow],
      [_setMediaState]) as state-passing functions over the plugin's
      mutable state, with the calls made on external collaborators recorded
      in an effect trace;
    - the actions of [Plugin] ([muteCall], [openSms], [openUri],
      [replyMissedCall], [replySms], [sendSms], [shareUri]) over the same
      state, with the packets they send and the windows they create and
      present recorded as calls. *)

From Stdlib Require Import ZArith NArith String Ascii List Bool Lia DecimalString.
From stdpp Require Import base option list gmap.

Local Open Scope N_scope.

(** ** JavaScript strings and errors *)

(** A JavaScript string is a sequence of 16-bit code units. *)
Abbreviation jsstring := (list N).

(** ASCII literals. *)
Definition js (s : string) : jsstring :=
  List.map N_of_ascii (list_ascii_of_string s).

Definition chr (a : ascii) : N := N_of_ascii a.

(** The exceptions the embedded code can raise. *)
Inductive JSError :=
| URIError (message : jsstring)
| TypeError.

#[global] Instance JSError_eq_dec : EqDecision JSError.
Proof. solve_decision. Defined.

Inductive Result (A : Type) :=
| Ok (a : A)
| Err (e : JSError).
Arguments Ok {A} a.
Arguments Err {A} e.

#[global] Instance Result_ret : MRet Result := fun _ a => Ok a.
#[global] Instance Result_bind : MBind Result :=
  fun _ _ f r => match r with Ok a => f a | Err e => Err e end.
#[global] Instance Result_fmap : FMap Result :=
  fun _ _ f r => match r with Ok a => Ok (f a) | Err e => Err e end.

(** [throw URIError("malformed sms URI")] and
    [throw URIError('duplicate "body" field')]. *)
Definition MalformedUri : JSError := URIError (js "malformed sms URI").
Definition DuplicateField : JSError :=
  URIError (js "duplicate " ++ [34] ++ js "body" ++ [34] ++ js " field").
(** The [URIError] the engine's [decodeURIComponent] raises by itself. *)
Definition MalformedSequence : JSError := URIError (js "malformed URI sequence").

(** Truthiness of a possibly [undefined] string: [undefined] and the empty
    string are falsy. *)
Definition truthy (v : option jsstring) : bool :=
  match v with
  | Some (_ :: _) => true
  | _ => false
  end.

(** [ToString] of a possibly [undefined] string. *)
Definition ToString (v : option jsstring) : jsstring :=
  match v with
  | Some s => s
  | None => js "undefined"
  end.

(** ** String built-ins *)

(** [s.split(sep)] for a one-character separator. *)
Fixpoint split (sep : N) (s : jsstring) : list jsstring :=
  match s with
  | [] => [[]]
  | c :: s' =>
      if c =? sep then [] :: split sep s'
      else match split sep s' with
           | w :: ws => (c :: w) :: ws
           | [] => [[c]]
           end
  end.

(** [a.join(sep)]. *)
Fixpoint join (sep : jsstring) (a : list jsstring) : jsstring :=
  match a with
  | [] => []
  | [x] => x
  | x :: rest => x ++ sep ++ join sep rest
  end.

(** [s.startsWith(p)]. *)
Fixpoint startsWith (s p : jsstring) : bool :=
  match p, s with
  | [], _ => true
  | _ :: _, [] => false
  | x :: p', y :: s' => (x =? y) && startsWith s' p'
  end.

(** [s.substr(n)]. *)
Definition substr (n : nat) (s : jsstring) : jsstring := drop n s.

Definition between (lo hi c : N) : bool := (lo <=? c) && (c <=? hi).
Definition oneOf (set : jsstring) (c : N) : bool := existsb (N.eqb c) set.

Definition isDigit (c : N) : bool := between 48 57 c.
Definition isUpper (c : N) : bool := between 65 90 c.
Definition isLower (c : N) : bool := between 97 122 c.

(** Value of a hexadecimal digit, either case. *)
Definition hexval (c : N) : option N :=
  if isDigit c then Some (c - 48)
  else if between 65 70 c then Some (c - 55)
  else if between 97 102 c then Some (c - 87)
  else None.

Definition hex2 (a b : N) : option N :=
  match hexval a, hexval b with
  | Some x, Some y => Some (16 * x + y)
  | _, _ => None
  end.

Definition hex4 (a b c d : N) : option N :=
  match hex2 a b, hex2 c d with
  | Some x, Some y => Some (256 * x + y)
  | _, _ => None
  end.

(** Upper-case hexadecimal digit of a value below 16. *)
Definition hexdigit (v : N) : N := if v <? 10 then 48 + v else 55 + v.

(** [unescape(s)] (ECMAScript annex B): [%uXXXX] and [%XX] are replaced by
    the code unit they denote; a [%] followed by anything else is kept. *)
Fixpoint unescape (s : jsstring) : jsstring :=
  match s with
  | [] => []
  | c :: t =>
      let lit := c :: unescape t in
      if negb (c =? 37) then lit
      else match t with
           | h1 :: h2 :: t2 =>
               let two := match hex2 h1 h2 with
                          | Some v => v :: unescape t2
                          | None => lit
                          end in
               match t2 with
               | h3 :: h4 :: h5 :: t5 =>
                   if h1 =? 117
                   then match hex4 h2 h3 h4 h5 with
                        | Some v => v :: unescape t5
                        | None => two
                        end
                   else two
               | _ => two
               end
           | _ => lit
           end
  end.

(** [escape(s)] (ECMAScript annex B): letters, digits and [@*_+-./] are
    kept, other code units below 256 become [%XX], the rest [%uXXXX]. *)
Definition escape_unreserved (c : N) : bool :=
  isUpper c || isLower c || isDigit c || oneOf (js "@*_+-./") c.

Definition escape1 (c : N) : jsstring :=
  if escape_unreserved c then [c]
  else if c <? 256 then [37; hexdigit (c / 16); hexdigit (c mod 16)]
  else [37; 117; hexdigit (c / 4096 mod 16); hexdigit (c / 256 mod 16);
        hexdigit (c / 16 mod 16); hexdigit (c mod 16)].

Definition escape (s : jsstring) : jsstring := List.concat (List.map escape1 s).

(** [decodeURIComponent(s)]: the [Decode] operation of ECMAScript with an
    empty reserved set. A [%XX] below 0x80 is that character; otherwise it
    starts a UTF-8 sequence of [n] octets, each written [%XX], that must
    encode a code point in shortest form; anything else raises [URIError]. *)

(** Number of leading one bits of an octet at or above 0x80. *)
Definition leadingOnes (b : N) : nat :=
  if b <? 192 then 1%nat
  else if b <? 224 then 2%nat
  else if b <? 240 then 3%nat
  else if b <? 248 then 4%nat
  else 5%nat.

(** Reads [n] continuation octets [%XX] with top bits [10]. *)
Fixpoint contOctets (n : nat) (s : jsstring) : option (list N * jsstring) :=
  match n with
  | O => Some ([], s)
  | S n' =>
      match s with
      | p :: h1 :: h2 :: t =>
          if p =? 37
          then match hex2 h1 h2 with
               | Some b =>
                   if between 128 191 b
                   then match contOctets n' t with
                        | Some (bs, rest) => Some (b :: bs, rest)
                        | None => None
                        end
                   else None
               | None => None
               end
          else None
      | _ => None
      end
  end.

(** The code point encoded by a lead octet and its continuation octets,
    when the sequence is well-formed UTF-8. *)
Definition utf8CodePoint (b : N) (cont : list N) : option N :=
  match cont with
  | [c1] =>
      let v := (b - 192) * 64 + (c1 - 128) in
      if 128 <=? v then Some v else None
  | [c1; c2] =>
      let v := (b - 224) * 4096 + (c1 - 128) * 64 + (c2 - 128) in
      if (2048 <=? v) && negb (between 55296 57343 v) then Some v else None
  | [c1; c2; c3] =>
      let v := (b - 240) * 262144 + (c1 - 128) * 4096
               + (c2 - 128) * 64 + (c3 - 128) in
      if between 65536 1114111 v then Some v else None
  | _ => None
  end.

(** UTF-16 code units of a code point. *)
Definition codeUnits (v : N) : jsstring :=
  if v <? 65536 then [v]
  else [55296 + (v - 65536) / 1024; 56320 + (v - 65536) mod 1024].

Fixpoint Decode (fuel : nat) (s : jsstring) : Result jsstring :=
  match fuel with
  | O => Ok []
  | S fuel' =>
      match s with
      | [] => Ok []
      | c :: t =>
          if negb (c =? 37) then cons c <$> Decode fuel' t
          else match t with
               | h1 :: h2 :: t2 =>
                   match hex2 h1 h2 with
                   | None => Err MalformedSequence
                   | Some b =>
                       if b <? 128 then cons b <$> Decode fuel' t2
                       else
                         let n := leadingOnes b in
                         if (n =? 1)%nat || (4 <? n)%nat
                         then Err MalformedSequence
                         else match contOctets (n - 1) t2 with
                              | None => Err MalformedSequence
                              | Some (cont, rest) =>
                                  match utf8CodePoint b cont with
                                  | None => Err MalformedSequence
                                  | Some v =>
                                      app (codeUnits v) <$> Decode fuel' rest
                                  end
                              end
                   end
               | _ => Err MalformedSequence
               end
      end
  end.

Definition decodeURIComponent (s : jsstring) : Result jsstring :=
  Decode (length s) s.

(** ** Regular expressions

    A backtracking matcher in continuation-passing style, after the
    ECMAScript pattern semantics: alternatives are tried left to right,
    quantifiers are greedy, an iteration of [*] that consumes nothing is
    refused. [i] is the index of the next code unit in the subject and [s]
    the code units from there on. *)
Module RegExp.

Inductive RegExp :=
| Empty
| CharSet (p : N -> bool)
| Seq (r1 r2 : RegExp)
| Disj (r1 r2 : RegExp)
| Star (r : RegExp)
| Group (n : nat) (r : RegExp)
| NotAhead (r : RegExp)
| AssertStart
| AssertEnd.

Abbreviation Captures := (list (option jsstring)).

Definition Cont (A : Type) : Type := nat -> jsstring -> Captures -> option A.

(** The iterations of [r*]: [step] matches [r] once; an iteration must
    move forward, so at most [length s] of them can follow one another and
    the fuel [S (length s)] given below is never used up. *)
Fixpoint starLoop {A : Type}
    (step : nat -> jsstring -> Captures -> Cont A -> option A) (k : Cont A)
    (fuel : nat) (i : nat) (s : jsstring) (c : Captures) : option A :=
  match fuel with
  | O => k i s c
  | S fuel' =>
      match step i s c
              (fun i' s' c' =>
                 if (i <? i')%nat then starLoop step k fuel' i' s' c'
                 else None)
      with
      | Some v => Some v
      | None => k i s c
      end
  end.

Fixpoint run {A : Type} (r : RegExp) (i : nat) (s : jsstring) (c : Captures)
    (k : Cont A) {struct r} : option A :=
  match r with
  | Empty => k i s c
  | CharSet p =>
      match s with
      | x :: s' => if p x then k (S i) s' c else None
      | [] => None
      end
  | Seq r1 r2 => run r1 i s c (fun i' s' c' => run r2 i' s' c' k)
  | Disj r1 r2 =>
      match run r1 i s c k with
      | Some v => Some v
      | None => run r2 i s c k
      end
  | Star r1 =>
      starLoop (fun i' s' c' k' => run r1 i' s' c' k') k (S (length s)) i s c
  | Group n r1 =>
      run r1 i s c (fun i' s' c' => k i' s' (<[n := Some (take (i' - i) s)]> c'))
  | NotAhead r1 =>
      match run r1 i s c (fun _ _ _ => Some tt) with
      | Some _ => None
      | None => k i s c
      end
  | AssertStart => if (i =? 0)%nat then k i s c else None
  | AssertEnd =>
      match s with
      | [] => k i s c
      | _ :: _ => None
      end
  end.

(** Derived forms: [r+], [r?], a literal string. *)
Definition Plus (r : RegExp) : RegExp := Seq r (Star r).
Definition Opt (r : RegExp) : RegExp := Disj r Empty.
Definition Chr (a : ascii) : RegExp := CharSet (N.eqb (chr a)).
Fixpoint Lit (s : jsstring) : RegExp :=
  match s with
  | [] => Empty
  | x :: s' => Seq (CharSet (N.eqb x)) (Lit s')
  end.

(** A compiled expression with its number of capture groups. *)
Record t := { pattern : RegExp; ngroups : nat }.

(** [re.exec(s)] for a global expression whose [lastIndex] was just set to
    0: the match is tried at index 0, then at each later index; the result
    is the array of the whole match followed by the groups ([None] is
    [undefined]), or [None] for [null]. *)
Fixpoint execFrom (re : t) (i : nat) (s : jsstring) : option Captures :=
  match run (pattern re) i s (replicate (S (ngroups re)) None)
          (fun i' _ c' => Some (<[0%nat := Some (take (i' - i) s)]> c')) with
  | Some a => Some a
  | None =>
      match s with
      | [] => None
      | _ :: s' => execFrom re (S i) s'
      end
  end.

Definition exec (re : t) (s : jsstring) : option Captures := execFrom re 0 s.

(** Two syntactic checks used to follow the matcher on subjects that are
    only partly known. *)

(** [refuses r h] holds when [r] cannot match at a position whose next
    code unit is [h] ([None] at the end of the subject), whatever follows. *)
Fixpoint refuses (r : RegExp) (h : option N) : bool :=
  match r with
  | CharSet p =>
      match h with
      | Some a => negb (p a)
      | None => true
      end
  | Seq r1 _ => refuses r1 h
  | Disj r1 r2 => refuses r1 h && refuses r2 h
  | Group _ r1 => refuses r1 h
  | AssertEnd => bool_decide (h ≠ None)
  | _ => false
  end.

(** [takes r a] holds when the first alternative of [r] is a character set
    that accepts [a]. *)
Fixpoint takes (r : RegExp) (a : N) : bool :=
  match r with
  | CharSet p => p a
  | Disj r1 _ => takes r1 a
  | _ => false
  end.

(** The strings an expression without groups can consume, leaving out what
    the assertions ask of the position: every match of the expression
    consumes one of them. *)
Fixpoint Lang (r : RegExp) (w : jsstring) : Prop :=
  match r with
  | Empty => w = []
  | CharSet p => exists a, w = [a] /\ p a = true
  | Seq r1 r2 => exists w1 w2, w = w1 ++ w2 /\ Lang r1 w1 /\ Lang r2 w2
  | Disj r1 r2 => Lang r1 w \/ Lang r2 w
  | Star r1 => exists ws, w = List.concat ws /\ Forall (Lang r1) ws
  | Group _ r1 => Lang r1 w
  | NotAhead _ => w = []
  | AssertStart => w = []
  | AssertEnd => w = []
  end.

(** The code units that can occur in a string of [Lang r]. *)
Fixpoint alphabet (r : RegExp) (a : N) : bool :=
  match r with
  | CharSet p => p a
  | Seq r1 r2 => alphabet r1 a || alphabet r2 a
  | Disj r1 r2 => alphabet r1 a || alphabet r2 a
  | Star r1 => alphabet r1 a
  | Group _ r1 => alphabet r1 a
  | _ => false
  end.

Fixpoint nogroups (r : RegExp) : bool :=
  match r with
  | Seq r1 r2 => nogroups r1 && nogroups r2
  | Disj r1 r2 => nogroups r1 && nogroups r2
  | Star r1 => nogroups r1
  | Group _ _ => false
  | _ => true
  end.

End RegExp.
Import RegExp.

(** ** The [sms:] and [tel:] expressions *)

(** [\w] *)
Definition wordChar (c : N) : bool :=
  isUpper c || isLower c || isDigit c || (c =? 95).

(** [[0-9A-F]] *)
Definition upperHex (c : N) : bool := isDigit c || between 65 70 c.

(** [%[0-9A-F]{2}] *)
Definition pctEscape : RegExp :=
  Seq (Chr "%") (Seq (CharSet upperHex) (CharSet upperHex)).

(** [[\w.!~*'()-]] *)
Definition smsChar (c : N) : bool := wordChar c || oneOf (js ".!~*'()-") c.

(** [[\w\[\]/:&+$.!~*'()-]] *)
Definition telChar (c : N) : bool :=
  wordChar c || oneOf (js "[]/:&+$.!~*'()-") c.

(** [[a-zA-Z0-9-]] *)
Definition telKeyChar (c : N) : bool :=
  isLower c || isUpper c || isDigit c || (c =? 45).

(** [[0-9A-F*#().-]] *)
Definition digitChar (c : N) : bool := upperHex c || oneOf (js "*#().-") c.

Definition _smsParam : RegExp :=
  Seq (Plus (CharSet smsChar))
      (Seq (Chr "=") (Star (Disj (CharSet smsChar) pctEscape))).

Definition _telParam : RegExp :=
  Seq (Chr ";")
      (Seq (Plus (CharSet telKeyChar))
           (Seq (Chr "=") (Plus (Disj (CharSet telChar) pctEscape)))).

Definition _lenientDigits : RegExp :=
  Seq (Opt (Chr "+"))
      (Plus (Disj (CharSet digitChar)
                  (Disj (Seq (Chr " ") (NotAhead (Chr " ")))
                        (Seq (Lit (js "%20")) (NotAhead (Lit (js "%20"))))))).

Definition _lenientNumber : RegExp := Seq _lenientDigits (Star _telParam).

Definition _smsRegex : RegExp.t :=
  {| pattern :=
       Seq AssertStart
      (Seq (Lit (js "sms:"))
      (Seq (Opt (Seq (Chr "/") (Seq (Chr "/") (Opt (Chr "/")))))
      (Seq (Group 1
              (Seq _lenientNumber
                   (Star (Seq (Chr ",") _lenientNumber))))
      (Seq (Opt (Seq (Chr "?")
                     (Group 2
                        (Seq _smsParam
                             (Star (Seq (Chr "&") _smsParam))))))
           AssertEnd))));
     ngroups := 2 |}.

(** The part of [_smsRegex] inside its second group. *)
Definition queryRegex : RegExp :=
  Seq _smsParam (Star (Seq (Chr "&") _smsParam)).

Definition _numberRegex : RegExp.t :=
  {| pattern :=
       Seq AssertStart
      (Seq (Group 1 _lenientDigits)
      (Seq (Group 2 (Star _telParam))
           AssertEnd));
     ngroups := 2 |}.

(** ** The class [SmsURI] *)
Module SmsURI.

(** The fields of the object under construction; [None] is a field that
    was never assigned (or holds [undefined]). *)
Record t := {
  recipients : option (list jsstring);
  body : option jsstring
}.

Definition empty : t := {| recipients := None; body := None |}.

(** The array pattern [[a, b] = arr]: element [n] or [undefined]. *)
Definition elem {A} (n : nat) (arr : list (option A)) : option A :=
  mjoin (arr !! n).

(** The loop over the tel parameters of one recipient: the first
    [phone-context] parameter whose value starts with [+] decides. *)
Fixpoint paramsLoop (number : option jsstring) (params : list jsstring)
    : Result jsstring :=
  match params with
  | [] => Ok (unescape (ToString number))
  | param :: rest =>
      let kv := split (chr "=") param in
      let key := kv !! 0%nat in
      let value := kv !! 1%nat in
      if bool_decide (key = Some (js "phone-context"))
      then match value with
           | None => Err TypeError
           | Some v =>
               if startsWith v (js "+")
               then Ok (v ++ unescape (ToString number))
               else paramsLoop number rest
           end
      else paramsLoop number rest
  end.

(** The callback given to [recipients.split(",").map]. *)
Definition mapRecipient (recipient : jsstring) : Result jsstring :=
  match exec _numberRegex recipient with
  | None => Err TypeError
  | Some arr =>
      let number := elem 1 arr in
      let params := elem 2 arr in
      match params with
      | Some (p :: ps) =>
          paramsLoop number (split (chr ";") (substr 1 (p :: ps)))
      | _ => Ok (unescape (ToString number))
      end
  end.

(** The loop over the fields of the query; [this_body] is [this.body]. *)
Fixpoint queryLoop (fields : list jsstring) (this_body : option jsstring)
    : option jsstring * option JSError :=
  match fields with
  | [] => (this_body, None)
  | field :: rest =>
      let kv := split (chr "=") field in
      let key := kv !! 0%nat in
      let value := kv !! 1%nat in
      if bool_decide (key = Some (js "body"))
      then if truthy this_body
           then (this_body, Some DuplicateField)
           else if truthy value
                then match decodeURIComponent (ToString value) with
                     | Ok b => queryLoop rest (Some b)
                     | Err e => (this_body, Some e)
                     end
                else queryLoop rest None
      else queryLoop rest this_body
  end.

(** [_init(uri)] run on [this]: the object as the constructor leaves it and
    the exception it raised, if any. *)
Definition _init (uri : jsstring) (this : t) : t * option JSError :=
  match exec _smsRegex uri with
  | None => (this, Some MalformedUri)
  | Some arr =>
      let recipients_ := elem 1 arr in
      let query := elem 2 arr in
      match recipients_ with
      | None => (this, Some TypeError)
      | Some rs =>
          match mapM mapRecipient (split (chr ",") rs) with
          | Err e => (this, Some e)
          | Ok mapped =>
              let this1 := {| recipients := Some mapped; body := body this |} in
              if truthy query
              then let '(b, e) := queryLoop (split (chr "&") (ToString query))
                                            (body this1) in
                   ({| recipients := recipients this1; body := b |}, e)
              else (this1, None)
          end
      end
  end.

(** The key and the value that [let [key, value] = param.split("=")] binds. *)
Definition paramKey (param : jsstring) : option jsstring :=
  split (chr "=") param !! 0%nat.
Definition paramValue (param : jsstring) : option jsstring :=
  split (chr "=") param !! 1%nat.

(** The tel parameters the callback loops over, given the second group of
    [_numberRegex]: none when the group is empty. *)
Definition telParams (params : option jsstring) : list jsstring :=
  match params with
  | Some (p :: ps) => split (chr ";") (substr 1 (p :: ps))
  | _ => []
  end.

(** The text [key=value] of a parameter or of a query field. *)
Definition pairText (kv : jsstring * jsstring) : jsstring :=
  kv.1 ++ js "=" ++ kv.2.

(** The text [;key=value;key=value...] of a list of tel parameters. *)
Definition telParamsText (kvs : list (jsstring * jsstring)) : jsstring :=
  List.concat (List.map (fun kv => js ";" ++ pairText kv) kvs).

(** The pair is a [phone-context] parameter whose value starts with [+]. *)
Definition promoting (kv : jsstring * jsstring) : bool :=
  bool_decide (kv.1 = js "phone-context") && startsWith kv.2 (js "+").

(** The text [key=value&key=value...] of a query, as the second group of
    [_smsRegex] captures it: [undefined] when there is no query. *)
Definition queryString (fields : list (jsstring * jsstring)) : jsstring :=
  match fields with
  | [] => []
  | kv :: kvs =>
      pairText kv
      ++ List.concat (List.map (fun kv => js "&" ++ pairText kv) kvs)
  end.

Definition queryText (fields : list (jsstring * jsstring)) : option jsstring :=
  match fields with
  | [] => None
  | _ :: _ => Some (queryString fields)
  end.

(** The end of a URI with this query: nothing, or [?] and the fields. *)
Definition queryPart (fields : list (jsstring * jsstring)) : jsstring :=
  match fields with
  | [] => []
  | _ :: _ => js "?" ++ queryString fields
  end.

(** The body a [body] field with the value [v] stands for: none for an
    empty value, else the decoded value. *)
Definition fieldBody (v : jsstring) : option jsstring :=
  match v with
  | [] => None
  | _ :: _ =>
      match decodeURIComponent v with
      | Ok d => Some d
      | Err _ => None
      end
  end.

Definition isBody (kv : jsstring * jsstring) : bool :=
  bool_decide (kv.1 = js "body").

(** The body the fields of a query stand for: that of the last [body]
    field. *)
Definition bodyOf (fields : list (jsstring * jsstring)) : option jsstring :=
  last (List.filter isBody fields) ≫= fun kv => fieldBody kv.2.

(** A pair whose key and value contain neither [sep] nor [=]. *)
Definition plainPair (sep : N) (kv : jsstring * jsstring) : Prop :=
  Forall (fun a => a ≠ sep /\ a ≠ chr "=") kv.1
  /\ Forall (fun a => a ≠ sep /\ a ≠ chr "=") kv.2.

(** [new SmsURI(uri)]. *)
Definition new (uri : jsstring) : Result t :=
  match _init uri empty with
  | (this, None) => Ok this
  | (_, Some e) => Err e
  end.

(** [toString()]. *)
Definition toString (this : t) : Result jsstring :=
  match recipients this with
  | None => Err TypeError
  | Some rs =>
      let uri := js "sms:" ++ join (js ",") rs in
      Ok (if truthy (body this)
          then uri ++ js "?body=" ++ escape (ToString (body this))
          else uri)
  end.

End SmsURI.

(** ** The telephony plugin *)
Module Telephony.

(** JavaScript numbers used as 32-bit integers: [ToInt32] and [&]. *)
Definition ToInt32 (z : Z) : Z := ((z + 2 ^ 31) mod 2 ^ 32 - 2 ^ 31)%Z.
Definition bitand (a b : Z) : Z := Z.land (ToInt32 a) (ToInt32 b).
Definition truthyNum (z : Z) : bool := negb (z =? 0)%Z.

(** [String(n)] for an integer. *)
Definition numToString (z : Z) : jsstring :=
  js (DecimalString.NilZero.string_of_int (Z.to_int z)).

(** Values passed on to the notification actions. *)
Inductive Value :=
| Undefined
| Str (s : jsstring)
| Num (z : Z).

Definition ofOption (v : option jsstring) : Value :=
  match v with
  | Some s => Str s
  | None => Undefined
  end.

(** [v || ""] *)
Definition orEmpty (v : option jsstring) : jsstring :=
  if truthy v then ToString v else [].

(** A contact of the contact store. *)
Record Contact := {
  name : jsstring;
  avatar : option jsstring
}.

Inductive Icon :=
| Pixbuf (path : jsstring)
| ThemedIcon (icon_name : jsstring).

(** The body of a [kdeconnect.telephony] packet. *)
Record PacketBody := {
  p_event : jsstring;
  p_contactName : option jsstring;
  p_phoneNumber : option jsstring;
  p_messageBody : option jsstring;
  p_phoneThumbnail : option jsstring;
  p_isCancel : option bool
}.

(** The event object [_parsePacket] returns: the packet body with [time],
    [contact] and [gicon] added and [phoneThumbnail] deleted. *)
Record Event := {
  event : jsstring;
  contactName : option jsstring;
  phoneNumber : option jsstring;
  messageBody : option jsstring;
  phoneThumbnail : option jsstring;
  isCancel : option bool;
  time : Z;
  contact : Contact;
  gicon : option Icon
}.

Inductive Priority := NORMAL | HIGH | URGENT.

(** A button or default action attached to a notification. *)
Record DeviceAction := {
  label : option jsstring;
  object_path : jsstring;
  action : jsstring;
  parameters : list Value
}.

(** What the handlers put into a [Gio.Notification]. *)
Record Notification := {
  title : jsstring;
  text : jsstring;
  icon : option Icon;
  priority : Priority;
  device_button : option DeviceAction;
  device_action : option DeviceAction
}.

(** An entry of the notification plugin's table of duplicates. *)
Record NotificationRecord := {
  ticker : jsstring;
  cancelled : bool
}.

(** An open window of the daemon, as far as telephony.js reads and writes
    it (the window classes are defined elsewhere). [win_device] is
    [win.device.id], absent for a window without a device; [number] is the
    window's number property; [urgency_hint] and [_notifications] are
    written by the handlers; [messages] is the log [receiveMessage]
    appends to. *)
Record Window := {
  win_device : option jsstring;
  number : jsstring;
  messages : list (Contact * option jsstring * jsstring);
  urgency_hint : bool;
  _notifications : list jsstring
}.

(** Calls on the collaborators, in the order they are made. *)
Inductive Effect :=
| Emit (signal : jsstring) (detail : jsstring) (packed : list jsstring)
| WithdrawNotification (id : jsstring)
| SendNotification (id : jsstring) (notif : Notification)
| FileSetContents (path : jsstring) (contents : list N)
| WriteCache
| Log (message : jsstring).

(** The state the handlers read and write: fields of the plugin, of its
    device and daemon, and the trace of calls made so far. *)
Record Plugin := {
  allow : Z;
  _state : option Z;
  device_id : jsstring;
  device_name : jsstring;
  dbus_object_path : jsstring;
  notification : option (gmap jsstring NotificationRecord);
  windows : list Window;
  trace : list Effect
}.

Definition set_state (v : Z) (this : Plugin) : Plugin :=
  {| allow := allow this; _state := Some v; device_id := device_id this;
     device_name := device_name this;
     dbus_object_path := dbus_object_path this;
     notification := notification this; windows := windows this;
     trace := trace this |}.

Definition set_notification (n : option (gmap jsstring NotificationRecord))
    (this : Plugin) : Plugin :=
  {| allow := allow this; _state := _state this; device_id := device_id this;
     device_name := device_name this;
     dbus_object_path := dbus_object_path this;
     notification := n; windows := windows this; trace := trace this |}.

Definition set_windows (ws : list Window) (this : Plugin) : Plugin :=
  {| allow := allow this; _state := _state this; device_id := device_id this;
     device_name := device_name this;
     dbus_object_path := dbus_object_path this;
     notification := notification this; windows := ws; trace := trace this |}.

Definition record (e : Effect) (this : Plugin) : Plugin :=
  {| allow := allow this; _state := _state this; device_id := device_id this;
     device_name := device_name this;
     dbus_object_path := dbus_object_path this;
     notification := notification this; windows := windows this;
     trace := trace this ++ [e] |}.

(** Computations over the plugin state that may raise; the state reached
    when an exception is raised is kept. *)
Definition M (A : Type) : Type := Plugin -> (JSError + A) * Plugin.

#[global] Instance M_ret : MRet M := fun _ a this => (inr a, this).
#[global] Instance M_bind : MBind M :=
  fun _ _ f m this =>
    match m this with
    | (inr a, this') => f a this'
    | (inl e, this') => (inl e, this')
    end.

Definition get : M Plugin := fun this => (inr this, this).
Definition modify (f : Plugin -> Plugin) : M unit := fun this => (inr tt, f this).
Definition throw {A} (e : JSError) : M A := fun this => (inl e, this).
Definition perform (e : Effect) : M unit := modify (record e).

(** What [handlePacket] returns: [undefined] on a cancel, otherwise a
    promise that is already settled when it is returned. *)
Inductive Reason := RejectedFalse | Thrown (e : JSError).
Inductive Outcome :=
| ReturnsUndefined
| Resolved (v : bool)
| Rejected (r : Reason).

(** Modelled from the spec: [markDuplicate] of the notification plugin,
    which telephony.js only calls. Without [isCancel] the record for
    [localId] is inserted or overwritten; with it the existing record, if
    any, is marked cancelled. *)
Definition markDuplicate (localId tick : jsstring) (cancel : bool)
    (table : gmap jsstring NotificationRecord)
    : gmap jsstring NotificationRecord :=
  if cancel
  then alter (fun r => {| ticker := ticker r; cancelled := true |}) localId table
  else <[localId := {| ticker := tick; cancelled := false |}]> table.

(** Modelled from the spec: [receiveMessage] of a conversation window,
    which telephony.js only calls, appends to the window's log. *)
Definition receiveMessage (c : Contact) (num : option jsstring)
    (msg : jsstring) (w : Window) : Window :=
  {| win_device := win_device w; number := number w;
     messages := messages w ++ [(c, num, msg)];
     urgency_hint := urgency_hint w; _notifications := _notifications w |}.

Definition set_urgency_hint (b : bool) (w : Window) : Window :=
  {| win_device := win_device w; number := number w; messages := messages w;
     urgency_hint := b; _notifications := _notifications w |}.

Definition push_notification (id : jsstring) (w : Window) : Window :=
  {| win_device := win_device w; number := number w; messages := messages w;
     urgency_hint := urgency_hint w;
     _notifications := _notifications w ++ [id] |}.

(** [s.replace(/\D/g, "")] *)
Definition stripNonDigits (s : jsstring) : jsstring := List.filter isDigit s.

(** The loop of [_hasWindow] over the open windows, from [index] on. *)
Fixpoint windowLoop (id num : jsstring) (wins : list Window) (index : nat)
    : option nat :=
  match wins with
  | [] => None
  | win :: rest =>
      match win_device win with
      | None => windowLoop id num rest (S index)
      | Some d =>
          if negb (bool_decide (d = id)) then windowLoop id num rest (S index)
          else if bool_decide (num = stripNonDigits (number win))
               then Some index
               else windowLoop id num rest (S index)
      end
  end.

(** [_hasWindow(number)]: the index of the window found, [None] for
    [false]. An [undefined] number has no [replace] method. *)
Definition _hasWindow (num : option jsstring) : M (option nat) :=
  match num with
  | None => throw TypeError
  | Some n =>
      this ← get;
      mret (windowLoop (device_id this) (stripNonDigits n) (windows this) 0)
  end.

(** [_setMediaState(state)] *)
Definition _setMediaState (state : Z) : M unit :=
  if (state =? 1)%Z then modify (set_state 1)
  else
    modify (set_state 2);;
    this ← get;
    let cur := default 0%Z (_state this) in
    if truthyNum (bitand state 2) then modify (set_state (bitand cur state))
    else if truthyNum (bitand state 4) then modify (set_state (bitand cur state))
    else mret tt.

Section Handlers.

(** The constants [Allow.SMS] and [Allow.CALLS], defined outside
    telephony.js. *)
Variables Allow_SMS Allow_CALLS : Z.
(** The translation catalogue [_()] and [String.prototype.format]; calls of
    [debug] are left out. *)
Variable gettext : jsstring -> jsstring.
Variable format : jsstring -> list Value -> jsstring.
(** The contact store: [getContact] and [_cacheDir]; [getContactPixbuf] is
    the constructor [Pixbuf]. *)
Variable getContact : option jsstring -> option jsstring -> Contact.
Variable cacheDir : jsstring.
Variable base64_decode : jsstring -> list N.

(** A call of [markDuplicate] on the notification plugin, if loaded. *)
Definition notifyDuplicate (localId tick : jsstring) (cancel : bool) : M unit :=
  modify (fun this =>
    set_notification (markDuplicate localId tick cancel <$> notification this)
                     this).

(** [_parsePacket(packet)], at local time [now] and with [uuid] the
    random name drawn for a new avatar file. *)
Definition _parsePacket (now : Z) (uuid : jsstring) (packet : PacketBody)
    : M Event :=
  let contact0 := getContact (p_contactName packet) (p_phoneNumber packet) in
  contact1 ←
    (if truthy (p_phoneThumbnail packet)
     then if negb (truthy (avatar contact0))
          then let path := cacheDir ++ js "/" ++ uuid ++ js ".jpeg" in
               perform (FileSetContents path
                          (base64_decode (ToString (p_phoneThumbnail packet))));;
               perform WriteCache;;
               mret {| name := name contact0; avatar := Some path |}
          else mret contact0
     else mret contact0);
  let icon_ :=
    if truthy (avatar contact1) then Some (Pixbuf (ToString (avatar contact1)))
    else if bool_decide (p_event packet = js "missedCall")
         then Some (ThemedIcon (js "call-missed-symbolic"))
    else if bool_decide (p_event packet ∈ [js "ringing"; js "talking"])
         then Some (ThemedIcon (js "call-start-symbolic"))
    else if bool_decide (p_event packet = js "sms")
         then Some (ThemedIcon (js "sms-symbolic"))
    else None in
  mret {| event := p_event packet;
          contactName := p_contactName packet;
          phoneNumber := p_phoneNumber packet;
          messageBody := p_messageBody packet;
          phoneThumbnail :=
            if truthy (p_phoneThumbnail packet) then None
            else p_phoneThumbnail packet;
          isCancel := p_isCancel packet;
          time := now;
          contact := contact1;
          gicon := icon_ |}.

(** The window part shared by [_onMissedCall] and [_onSms]: log the
    message, raise the urgency hint, remember the notification. *)
Definition logInWindow (index : nat) (ev : Event) (msg : jsstring) : M unit :=
  modify (fun this =>
    set_windows
      (alter (fun w =>
                push_notification
                  (join (js "|")
                     [event ev;
                      name (contact ev) ++ js ": " ++ ToString (messageBody ev)])
                  (set_urgency_hint true
                     (receiveMessage (contact ev) (phoneNumber ev) msg w)))
             index (windows this))
      this).

Definition _onMissedCall (ev : Event) : M bool :=
  notifyDuplicate (js "missedCall|" ++ numToString (time ev))
                  (gettext (js "Missed call") ++ js ": " ++ name (contact ev))
                  false;;
  window ← _hasWindow (phoneNumber ev);
  match window with
  | Some index =>
      logInWindow index ev
        (js "<i>" ++ format (gettext (js "Missed call at %s")) [Num (time ev)]
                  ++ js "</i>");;
      notifyDuplicate (js "missedCall|" ++ numToString (time ev))
                      (name (contact ev) ++ js ": " ++ ToString (messageBody ev))
                      true
  | None => mret tt
  end;;
  this ← get;
  perform
    (SendNotification
       (event ev ++ js "|" ++ numToString (time ev))
       {| title := gettext (js "Missed Call");
          text := format (gettext (js "Missed call from %s on %s"))
                    [Str (name (contact ev)); Str (device_name this)];
          icon := gicon ev;
          priority := NORMAL;
          device_button :=
            Some {| label := Some (gettext (js "Message"));
                    object_path := dbus_object_path this;
                    action := js "replyMissedCall";
                    parameters := [ofOption (phoneNumber ev);
                                   Str (name (contact ev)); Num (time ev)] |};
          device_action := None |});;
  mret true.

Definition _onRinging (ev : Event) : M bool :=
  this ← get;
  perform
    (SendNotification
       (event ev ++ js "|" ++ numToString (time ev))
       {| title := gettext (js "Incoming Call");
          text := format (gettext (js "Incoming call from %s on %s"))
                    [Str (name (contact ev)); Str (device_name this)];
          icon := gicon ev;
          priority := URGENT;
          device_button :=
            Some {| label := Some (gettext (js "Mute"));
                    object_path := dbus_object_path this;
                    action := js "muteCall";
                    parameters := [] |};
          device_action := None |});;
  _setMediaState 2;;
  mret true.

Definition _onSms (ev : Event) : M bool :=
  notifyDuplicate (js "sms|" ++ numToString (time ev))
                  (name (contact ev) ++ js ": " ++ ToString (messageBody ev))
                  false;;
  window ← _hasWindow (phoneNumber ev);
  match window with
  | Some index =>
      logInWindow index ev (ToString (messageBody ev));;
      notifyDuplicate (js "sms|" ++ numToString (time ev))
                      (name (contact ev) ++ js ": " ++ ToString (messageBody ev))
                      true
  | None => mret tt
  end;;
  this ← get;
  perform
    (SendNotification
       (event ev ++ js "|" ++ numToString (time ev))
       {| title := name (contact ev);
          text := ToString (messageBody ev);
          icon := gicon ev;
          priority := HIGH;
          device_button := None;
          device_action :=
            Some {| label := None;
                    object_path := dbus_object_path this;
                    action := js "replySms";
                    parameters := [ofOption (phoneNumber ev);
                                   Str (name (contact ev));
                                   ofOption (messageBody ev);
                                   Num (time ev)] |} |});;
  mret true.

Definition _onTalking (ev : Event) : M bool :=
  perform (WithdrawNotification (js "ringing|" ++ name (contact ev)));;
  this ← get;
  perform
    (SendNotification
       (event ev ++ js "|" ++ numToString (time ev))
       {| title := gettext (js "Call In Progress");
          text := format (gettext (js "Call in progress with %s on %s"))
                    [Str (name (contact ev)); Str (device_name this)];
          icon := gicon ev;
          priority := NORMAL;
          device_button := None;
          device_action := None |});;
  _setMediaState 2;;
  mret true.

(** [new Promise(executor)]: the executor runs at once; what it resolves
    or rejects with, or the exception it raises, settles the promise. *)
Definition promise (executor : M (bool + unit)) : M Outcome :=
  fun this =>
    match executor this with
    | (inr (inl v), this') => (inr (Resolved v), this')
    | (inr (inr _), this') => (inr (Rejected RejectedFalse), this')
    | (inl e, this') => (inr (Rejected (Thrown e)), this')
    end.

Definition resolve (m : M bool) : M (bool + unit) := v ← m; mret (inl v).
Definition reject : M (bool + unit) := mret (inr tt).

(** [handlePacket(packet)] *)
Definition handlePacket (now : Z) (uuid : jsstring) (packet : PacketBody)
    : M Outcome :=
  ev ← _parsePacket now uuid packet;
  if default false (isCancel ev)
  then
    _setMediaState 1;;
    perform (WithdrawNotification (event ev ++ js "|" ++ name (contact ev)));;
    mret ReturnsUndefined
  else
    perform (Emit (js "event") (event ev)
               [orEmpty (Some (name (contact ev)));
                orEmpty (phoneNumber ev);
                orEmpty (avatar (contact ev));
                orEmpty (messageBody ev)]);;
    promise
      (this ← get;
       if bool_decide (event ev = js "sms")
          && truthyNum (bitand (allow this) Allow_SMS)
       then resolve (_onSms ev)
       else if truthyNum (bitand (allow this) Allow_CALLS)
       then if bool_decide (event ev = js "missedCall")
            then resolve (_onMissedCall ev)
            else if bool_decide (event ev = js "ringing")
            then resolve (_onRinging ev)
            else if bool_decide (event ev = js "talking")
            then resolve (_onTalking ev)
            else perform (Log (js "Unknown telephony event"));; reject
       else reject).

End Handlers.

(** *** Reading the state and the trace *)

(** The windows [_hasWindow] may return for [num]: those of this device
    whose number has the same digits. *)
Definition eligible (this : Plugin) (num : jsstring) (w : Window) : Prop :=
  win_device w = Some (device_id this)
  /\ stripNonDigits (number w) = stripNonDigits num.

(** [d] is what is left of [s] once every code unit other than the ten
    digits [0] to [9] (48 to 57) is taken out, the digits staying in
    their order: what [s.replace(/\D/g, "")] is to give, said on its own
    and not by way of [stripNonDigits]. *)
Inductive DigitsOf : jsstring -> jsstring -> Prop :=
| digits_nil : DigitsOf [] []
| digits_keep (c : N) (s d : jsstring) :
    48 <= c <= 57 -> DigitsOf s d -> DigitsOf (c :: s) (c :: d)
| digits_drop (c : N) (s d : jsstring) :
    ~ 48 <= c <= 57 -> DigitsOf s d -> DigitsOf (c :: s) d.

(** The window belongs to this device and its number has the digits of
    [num], the same ones in the same order. *)
Definition matching (this : Plugin) (num : jsstring) (w : Window) : Prop :=
  win_device w = Some (device_id this)
  /\ exists d, DigitsOf num d /\ DigitsOf (number w) d.

Definition isEmit (e : Effect) : bool :=
  match e with
  | Emit _ _ _ => true
  | _ => false
  end.

(** The signals emitted so far. *)
Definition emitted (this : Plugin) : list Effect :=
  List.filter isEmit (trace this).

(** The notification ids withdrawn so far. *)
Definition withdrawn (this : Plugin) : list jsstring :=
  omap (fun e => match e with
                 | WithdrawNotification id => Some id
                 | _ => None
                 end) (trace this).

(** The notifications sent so far. *)
Definition sent (this : Plugin) : list (jsstring * Notification) :=
  omap (fun e => match e with
                 | SendNotification id n => Some (id, n)
                 | _ => None
                 end) (trace this).

(** What the window part of [_onMissedCall] and [_onSms] leaves behind,
    from [this] to [this'], for an event from the number [num]: [kind] is
    the literal the handler puts in front of the time in the key of the
    duplicate, [tick] the ticker it registers and [msg] the text it logs. *)
Definition windowOutcome (kind tick msg : jsstring) (ev : Event)
    (num : jsstring) (this this' : Plugin) : Prop :=
  let localId := kind ++ numToString (time ev) in
  match windowLoop (device_id this) (stripNonDigits num) (windows this) 0 with
  | Some index =>
      (exists w w',
          windows this !! index = Some w
          /\ eligible this num w
          /\ windows this' = <[index := w']> (windows this)
          /\ messages w' = messages w ++ [(contact ev, phoneNumber ev, msg)]
          /\ urgency_hint w' = true)
      /\ (forall table,
             notification this = Some table ->
             exists table' r,
               notification this' = Some table'
               /\ table' !! localId = Some r
               /\ cancelled r = true)
  | None =>
      (forall w, w ∈ windows this -> ~ eligible this num w)
      /\ windows this' = windows this
      /\ (forall table,
             notification this = Some table ->
             exists table',
               notification this' = Some table'
               /\ table' !! localId
                  = Some {| ticker := tick; cancelled := false |})
  end.

(** *** Relations between the state before and after a computation *)

(** [m] takes every state to one that [R] relates to it, whether it
    returns or raises. *)
Definition keeps {A} (R : relation Plugin) (m : M A) : Prop :=
  forall this, R this (m this).2.

(** No signal was emitted in between. *)
Definition sameEmitted : relation Plugin :=
  fun a b => emitted b = emitted a.

(** The media state is what it was. *)
Definition sameState : relation Plugin :=
  fun a b => _state b = _state a.

(** *** A sample device

    A plugin with the notification plugin loaded and one conversation
    window of its device open, an incoming message from the number of
    that window, and stand-ins for the catalogue, [format] and the contact
    store. *)
Module Sample.

Definition gettext (msgid : jsstring) : jsstring := msgid.
Definition format (fmt : jsstring) (args : list Value) : jsstring := fmt.
Definition getContact (contactName phoneNumber : option jsstring) : Contact :=
  {| name := if truthy contactName then ToString contactName
             else ToString phoneNumber;
     avatar := None |}.

Definition window : Window :=
  {| win_device := Some (js "phone");
     number := js "+1 (555) 123-4567";
     messages := [];
     urgency_hint := false;
     _notifications := [] |}.

Definition plugin : Plugin :=
  {| allow := 6;
     _state := None;
     device_id := js "phone";
     device_name := js "Pixel";
     dbus_object_path := js "/org/gnome/Shell/Extensions/GSConnect/Device/phone";
     notification := Some ∅;
     windows := [window];
     trace := [] |}.

Definition sms : PacketBody :=
  {| p_event := js "sms";
     p_contactName := Some (js "Ann");
     p_phoneNumber := Some (js "15551234567");
     p_messageBody := Some (js "hi");
     p_phoneThumbnail := None;
     p_isCancel := None |}.

Definition cancel : PacketBody :=
  {| p_event := js "ringing";
     p_contactName := Some (js "Ann");
     p_phoneNumber := Some (js "15551234567");
     p_messageBody := None;
     p_phoneThumbnail := None;
     p_isCancel := Some true |}.

Definition smsEvent : Event :=
  {| event := js "sms";
     contactName := Some (js "Ann");
     phoneNumber := Some (js "15551234567");
     messageBody := Some (js "hi");
     phoneThumbnail := None;
     isCancel := None;
     time := 1500000000;
     contact := {| name := js "Ann"; avatar := None |};
     gicon := Some (ThemedIcon (js "sms-symbolic")) |}.

End Sample.

End Telephony.


(** ** Values, strings and expressions the properties of [SmsURI] speak of *)

(** *** Values that survive serialization *)

(** The code units of a body that [escape] writes in a form the [sms:]
    expression accepts and [decodeURIComponent] reads back: those below 128
    other than [@], [+] and [/], which [escape] leaves as they are while
    the expression has no place for them. *)
Definition safeUnit (c : N) : bool := (c <? 128) && negb (oneOf (js "@+/") c).

(** The code units [escape] writes in a form the expression accepts at
    all: those below 256 other than [@], [+] and [/]. *)
Definition acceptedUnit (c : N) : bool := (c <? 256) && negb (oneOf (js "@+/") c).

(** A recipient made of an optional [+] and one or more of the characters
    [[0-9A-F*#().-]]: a number with no space, escape or tel parameter. *)
Definition plainNumber (d : jsstring) : bool :=
  match d with
  | [] => false
  | a :: t =>
      if a =? 43 then negb (bool_decide (t = [])) && forallb digitChar t
      else forallb digitChar (a :: t)
  end.

(** The query [toString] writes for a body. *)
Definition bodyQuery (b : option jsstring) : jsstring :=
  if truthy b then js "?body=" ++ escape (ToString b) else [].

(** The characters [(?:[0-9A-F*#().-]| (?! )|%20(?!%20))] of a number. *)
Definition digitUnit : RegExp :=
  Disj (CharSet digitChar)
       (Disj (Seq (Chr " ") (NotAhead (Chr " ")))
             (Seq (Lit (js "%20")) (NotAhead (Lit (js "%20"))))).

(** A position where a plain number ends: neither another digit nor a tel
    parameter follows. *)
Definition numberEnds (h : option N) : bool :=
  refuses digitUnit h && refuses _telParam h.


(** A value whose recipients are plain numbers, at least one, and whose
    body, if any, is not empty and made of safe code units. *)
Definition plainValue (x : SmsURI.t) : bool :=
  match SmsURI.recipients x with
  | Some (d :: ds) => forallb plainNumber (d :: ds)
  | _ => false
  end
  && match SmsURI.body x with
     | None => true
     | Some [] => false
     | Some (c :: b) => forallb safeUnit (c :: b)
     end.

(** *** Parts and shapes of the expressions *)

(** The expression does not ask for the start of the subject: where in
    the subject it is run then makes no difference to what it matches. *)
Fixpoint anywhere (r : RegExp) : bool :=
  match r with
  | AssertStart => false
  | Seq r1 r2 => anywhere r1 && anywhere r2
  | Disj r1 r2 => anywhere r1 && anywhere r2
  | Star r1 => anywhere r1
  | Group _ r1 => anywhere r1
  | NotAhead r1 => anywhere r1
  | _ => true
  end.

(** The part of [_smsRegex] after the scheme and the slashes. *)
Definition afterSlashes : RegExp :=
  Seq (Group 1 (Seq _lenientNumber (Star (Seq (Chr ",") _lenientNumber))))
      (Seq (Opt (Seq (Chr "?") (Group 2 queryRegex))) AssertEnd).

(** Two arrays of captures with the same groups, whatever the whole
    match is. *)
Definition sameGroups (a b : Captures) : Prop := tail a = tail b.

(** Every space of [w] is followed by something else than a space in
    [w ++ rest]. *)
Definition spaced (w rest : jsstring) : Prop :=
  forall l r, w = l ++ chr " " :: r -> head (r ++ rest) ≠ Some (chr " ").

(** Wherever the expression takes a space, it is by a character set
    followed by a look-ahead that refuses a second space. *)
Fixpoint guarded (r : RegExp) : bool :=
  match r with
  | CharSet p => negb (p (chr " "))
  | Seq (CharSet p) (NotAhead (CharSet q)) => negb (p (chr " ")) || q (chr " ")
  | Seq r1 r2 => guarded r1 && guarded r2
  | Disj r1 r2 => guarded r1 && guarded r2
  | Star r1 => guarded r1
  | Group _ r1 => guarded r1
  | _ => true
  end.

(** [_smsRegex] up to the end of the subject. *)
Definition beforeEnd : RegExp :=
  Seq AssertStart
      (Seq (Lit (js "sms:"))
           (Seq (Opt (Seq (Chr "/") (Seq (Chr "/") (Opt (Chr "/")))))
                (Seq (Group 1
                        (Seq _lenientNumber
                             (Star (Seq (Chr ",") _lenientNumber))))
                     (Opt (Seq (Chr "?") (Group 2 queryRegex)))))).

(** *** The fields of a query *)

(** A query in which a [body] field with a value is followed by another
    [body] field. *)
Definition Duplicate (fields : list (jsstring * jsstring)) : Prop :=
  exists before kv after,
    fields = before ++ kv :: after
    /\ SmsURI.isBody kv = true /\ kv.2 ≠ []
    /\ Exists (fun kv' => SmsURI.isBody kv' = true) after.

(** The values of the [body] fields are empty or can be decoded. *)
Definition Decodable (fields : list (jsstring * jsstring)) : Prop :=
  Forall (fun kv => SmsURI.isBody kv = true ->
                    kv.2 = [] \/ exists d, decodeURIComponent kv.2 = Ok d)
         fields.

(** ** Packets handled one after the other *)
Module History.
Import Telephony.

(** What [_hasWindow] reads of a window. *)
Definition identity (w : Window) : option jsstring * jsstring :=
  (win_device w, number w).

(** From [a] to [b] the device is the same, the same windows are open for
    the same numbers, the notification plugin is loaded or not as before,
    and the calls made so far have only been added to. *)
Definition sameDevice : relation Plugin :=
  fun a b =>
    allow b = allow a
    /\ device_id b = device_id a
    /\ device_name b = device_name a
    /\ dbus_object_path b = dbus_object_path a
    /\ (is_Some (notification b) <-> is_Some (notification a))
    /\ identity <$> windows b = identity <$> windows a
    /\ trace a `prefix_of` trace b.

(** The messages logged so far. *)
Definition logged (this : Plugin) : list jsstring :=
  omap (fun e => match e with
                 | Log message => Some message
                 | _ => None
                 end) (trace this).

(** From [a] to [b] nothing the handlers write has changed but the trace,
    and no notification was sent or withdrawn. *)
Definition untouched : relation Plugin :=
  fun a b =>
    _state b = _state a
    /\ windows b = windows a
    /\ notification b = notification a
    /\ sent b = sent a
    /\ withdrawn b = withdrawn a.

(** The handlers an event can be given to. *)
Inductive Handler := OnSms | OnMissedCall | OnRinging | OnTalking.

(** A packet with what the environment gives while it is handled: the
    local time and the name drawn for an avatar file. *)
Record Arrival := {
  now : Z;
  uuid : jsstring;
  packet : PacketBody
}.

Section Packets.

Variables Allow_SMS Allow_CALLS : Z.
Variable gettext : jsstring -> jsstring.
Variable format : jsstring -> list Value -> jsstring.
Variable getContact : option jsstring -> option jsstring -> Contact.
Variable cacheDir : jsstring.
Variable base64_decode : jsstring -> list N.

(** The state after [handlePacket] has been called on each packet in
    turn. *)
Definition handleAll (arrivals : list Arrival) (this : Plugin) : Plugin :=
  foldl (fun this a =>
           (handlePacket Allow_SMS Allow_CALLS gettext format getContact
              cacheDir base64_decode (now a) (uuid a) (packet a) this).2)
        this arrivals.

(** The handler an event of the kind [kind] goes to under the permissions
    [allow], if any: the branches of the executor in [handlePacket]. *)
Definition route (allow : Z) (kind : jsstring) : option Handler :=
  if bool_decide (kind = js "sms") && truthyNum (bitand allow Allow_SMS)
  then Some OnSms
  else if truthyNum (bitand allow Allow_CALLS)
  then if bool_decide (kind = js "missedCall") then Some OnMissedCall
       else if bool_decide (kind = js "ringing") then Some OnRinging
       else if bool_decide (kind = js "talking") then Some OnTalking
       else None
  else None.

(** How the promise is settled for an event given to [handler]:
    [_onSms] and [_onMissedCall] need the phone number. *)
Definition settled (handler : option Handler) (phoneNumber : option jsstring)
    : Outcome :=
  match handler with
  | None => Rejected RejectedFalse
  | Some OnSms | Some OnMissedCall =>
      if phoneNumber is Some _ then Resolved true
      else Rejected (Thrown TypeError)
  | Some _ => Resolved true
  end.

(** The media state a packet leaves, given the permissions and the media
    state before it: 1 after a cancel, 2 after a ringing or talking event
    that the permission for calls lets through, and else what it was. *)
Definition mediaState (allow : Z) (state : option Z) (a : Arrival)
    : option Z :=
  if default false (p_isCancel (packet a)) then Some 1%Z
  else if truthyNum (bitand allow Allow_CALLS)
          && (bool_decide (p_event (packet a) = js "ringing")
              || bool_decide (p_event (packet a) = js "talking"))
  then Some 2%Z
  else state.

End Packets.

End History.

(** ** The actions of the plugin

    [muteCall], [openSms], [openUri], [replyMissedCall], [replySms],
    [sendSms] and [shareUri]. They work on the plugin state of the
    handlers and, beyond it, send packets and create and present windows
    whose classes are defined elsewhere: those calls are recorded in the
    order they are made. *)
Module Actions.
Import Telephony.

(** The values [openUri] can be called with and comes across. *)
Inductive JSValue :=
| VUndefined
| VBoolean (b : bool)
| VString (s : jsstring)
| VArray (a : list jsstring)
| VSmsURI (o : SmsURI.t).

Definition ToBoolean (v : JSValue) : bool :=
  match v with
  | VUndefined => false
  | VBoolean b => b
  | VString s => truthy (Some s)
  | VArray _ => true
  | VSmsURI _ => true
  end.

(** [v instanceof SmsURI] *)
Definition instanceofSmsURI (v : JSValue) : bool :=
  match v with
  | VSmsURI _ => true
  | _ => false
  end.

(** [ToString] of a value; that of an [SmsURI] is its own [toString]. *)
Definition ToStringValue (v : JSValue) : Result jsstring :=
  match v with
  | VUndefined => Ok (js "undefined")
  | VBoolean b => Ok (if b then js "true" else js "false")
  | VString s => Ok s
  | VArray a => Ok (join (js ",") a)
  | VSmsURI o => SmsURI.toString o
  end.

(** What the actions can raise: the exceptions of the handlers and the
    [ReferenceError] of a name that is bound nowhere. *)
Inductive Exn :=
| Raised (e : JSError)
| ReferenceError (name : jsstring).

(** A window an action works on: the open window [_hasWindow] found, or
    the window the action created, by its rank among the windows created
    so far. *)
Inductive WindowRef :=
| Found (index : nat)
| Created (rank : nat).

(** A packet given to [sendPacket]. *)
Record Packet := {
  id : Z;
  type : jsstring;
  body : list (jsstring * JSValue)
}.

(** Calls on the device and on the windows of the [Sms] module, in the
    order they are made. The calls of [receiveMessage] and the writes of
    [urgency_hint] listed here are those on created windows; on an open
    window they change the window in the plugin state, as in the
    handlers. *)
Inductive Call :=
| SendPacket (p : Packet)
| NewConversationWindow
| NewShareWindow (url : jsstring)
| Present (w : WindowRef)
| SetMessage (w : WindowRef) (text : jsstring)
| AddRecipient (w : WindowRef) (recipient : jsstring) (found : list Contact)
| ReceiveMessage (rank : nat) (c : Contact) (num : option jsstring)
    (msg : option jsstring)
| SetUrgencyHint (rank : nat) (b : bool).

(** The state the actions run in. *)
Record Desk := {
  plugin : Plugin;
  created : nat;
  calls : list Call
}.

Definition Act (A : Type) : Type := Desk -> (Exn + A) * Desk.

#[global] Instance Act_ret : MRet Act := fun _ a d => (inr a, d).
#[global] Instance Act_bind : MBind Act :=
  fun _ _ f m d =>
    match m d with
    | (inr a, d') => f a d'
    | (inl e, d') => (inl e, d')
    end.

(** A computation of the handlers run on the plugin of the desk. *)
Definition lift {A} (m : M A) : Act A :=
  fun d =>
    match m (plugin d) with
    | (r, this') =>
        (match r with
         | inr a => inr a
         | inl e => inl (Raised e)
         end,
         {| plugin := this'; created := created d; calls := calls d |})
    end.

Definition call (c : Call) : Act unit :=
  fun d =>
    (inr tt,
     {| plugin := plugin d; created := created d; calls := calls d ++ [c] |}).

(** [new Sms.ConversationWindow(this.device)] and
    [new Sms.ShareWindow(this.device, url)]. *)
Definition newWindow (c : Call) : Act WindowRef :=
  fun d =>
    (inr (Created (created d)),
     {| plugin := plugin d; created := S (created d);
        calls := calls d ++ [c] |}).

(** [window.receiveMessage(contact, phoneNumber, message)] *)
Definition receive (w : WindowRef) (c : Contact) (num : option jsstring)
    (msg : option jsstring) : Act unit :=
  match w with
  | Found index =>
      lift (modify (fun this =>
              set_windows (alter (receiveMessage c num (ToString msg)) index
                                 (windows this)) this))
  | Created rank => call (ReceiveMessage rank c num msg)
  end.

(** [window.urgency_hint = b] *)
Definition setUrgencyHint (w : WindowRef) (b : bool) : Act unit :=
  match w with
  | Found index =>
      lift (modify (fun this =>
              set_windows (alter (set_urgency_hint b) index (windows this))
                          this))
  | Created rank => call (SetUrgencyHint rank b)
  end.

(** [uri.recipients] and [uri.body]: reading a property of [undefined]
    raises; strings, booleans and arrays have no such properties. *)
Definition getRecipients (uri : JSValue) : Act (option (list jsstring)) :=
  match uri with
  | VUndefined => fun d => (inl (Raised TypeError), d)
  | VSmsURI o => mret (SmsURI.recipients o)
  | _ => mret None
  end.

Definition getBody (uri : JSValue) : Act (option jsstring) :=
  match uri with
  | VUndefined => fun d => (inl (Raised TypeError), d)
  | VSmsURI o => mret (SmsURI.body o)
  | _ => mret None
  end.

(** [_hasWindow] called with what [uri.recipients] gave: [undefined] or an
    array, which has no [replace] method either. *)
Definition _hasWindowOf (recipients : option (list jsstring))
    : M (option nat) :=
  match recipients with
  | None => _hasWindow None
  | Some _ => throw TypeError
  end.

(** The loop of [shareUri] over the open windows. *)
Fixpoint conversationLoop (id : jsstring) (wins : list Window) : bool :=
  match wins with
  | [] => false
  | window :: rest =>
      match win_device window with
      | Some d =>
          if bool_decide (d = id)
          then if truthy (Some (number window)) then true
               else conversationLoop id rest
          else conversationLoop id rest
      | None => conversationLoop id rest
      end
  end.

Section Environment.

(** The translation catalogue, [String.prototype.format] and the contact
    store, with its [query] for all the contacts of a number. *)
Variable gettext : jsstring -> jsstring.
Variable format : jsstring -> list Value -> jsstring.
Variable getContact : option jsstring -> option jsstring -> Contact.
Variable query : jsstring -> list Contact.
(** The names bound in the global scope, which telephony.js does not
    define. *)
Variable global : jsstring -> bool.

(** Reading the variable [name], which no enclosing function binds. *)
Definition readGlobal (name : jsstring) : Act unit :=
  fun d => if global name then (inr tt, d) else (inl (ReferenceError name), d).

Definition muteCall : Act unit :=
  call (SendPacket {| id := 0;
                      type := js "kdeconnect.telephony.request";
                      body := [(js "action", VString (js "mute"))] |}).

Definition openSms : Act unit :=
  window ← newWindow NewConversationWindow;
  call (Present window).

Definition openUri (uri : JSValue) : Act unit :=
  (* [!uri instanceof SmsURI] is [(!uri) instanceof SmsURI] *)
  parsed ←
    (if instanceofSmsURI (VBoolean (negb (ToBoolean uri)))
     then match ToStringValue uri ≫= SmsURI.new with
          | Ok o => mret (Some (VSmsURI o))
          | Err _ => mret None
          end
     else mret (Some uri));
  match parsed with
  | None => mret tt
  | Some uri =>
      recipients ← getRecipients uri;
      found ← lift (_hasWindowOf recipients);
      window ←
        match found with
        | Some index => mret (Found index)
        | None =>
            window ← newWindow NewConversationWindow;
            match recipients with
            | None => fun d => (inl (Raised TypeError), d)
            | Some rs =>
                mapM (fun recipient =>
                        call (AddRecipient window recipient (query recipient)))
                     rs;;
                setUrgencyHint window true;;
                mret window
            end
        end;
      body ← getBody uri;
      (if truthy body then call (SetMessage window (ToString body))
       else mret tt);;
      call (Present window)
  end.

Definition replyMissedCall (phoneNumber contactName : option jsstring)
    (time : Z) : Act unit :=
  (* [debug(event)] *)
  readGlobal (js "event");;
  let contact := getContact phoneNumber contactName in
  found ← lift (_hasWindow phoneNumber);
  window ←
    match found with
    | Some index => mret (Found index)
    | None =>
        window ← newWindow NewConversationWindow;
        lift (notifyDuplicate (js "missedCall|" ++ numToString time)
                (gettext (js "Missed call") ++ js ": " ++ name contact) true);;
        mret window
    end;
  receive window contact phoneNumber
    (Some (js "<i>" ++ format (gettext (js "Missed call at %s")) [Num time]
                    ++ js "</i>"));;
  call (Present window).

Definition replySms (phoneNumber contactName messageBody : option jsstring)
    (time : Z) : Act unit :=
  found ← lift (_hasWindow phoneNumber);
  window ←
    match found with
    | Some index => mret (Found index)
    | None =>
        window ← newWindow NewConversationWindow;
        let contact := getContact contactName phoneNumber in
        receive window contact phoneNumber messageBody;;
        setUrgencyHint window true;;
        lift (notifyDuplicate (js "sms|" ++ numToString time)
                (name contact ++ js ": " ++ ToString messageBody) true);;
        mret window
    end;
  call (Present window).

Definition sendSms (phoneNumber messageBody : JSValue) : Act unit :=
  call (SendPacket {| id := 0;
                      type := js "kdeconnect.sms.request";
                      body := [(js "sendSms", VBoolean true);
                               (js "phoneNumber", phoneNumber);
                               (js "messageBody", messageBody)] |}).

Definition shareUri (url : jsstring) : Act unit :=
  this ← lift get;
  let hasConversations := conversationLoop (device_id this) (windows this) in
  window ←
    (if hasConversations then newWindow (NewShareWindow url)
     else window ← newWindow NewConversationWindow;
          call (SetMessage window url);;
          mret window);
  call (Present window).

End Environment.

(** No window has been created and no call made yet. *)
Definition desk (this : Plugin) : Desk :=
  {| plugin := this; created := 0; calls := [] |}.

End Actions.

(** *** Reading the desk *)
Module Reading.
Import Telephony Actions.

(** An open window of this device with a number: what [shareUri] looks
    for. *)
Definition conversation (this : Plugin) (w : Window) : Prop :=
  win_device w = Some (device_id this) /\ number w ≠ [].

(** The desk [d] with [k] more windows created and the calls [cs] added. *)
Definition after (this : Plugin) (k : nat) (cs : list Call) (d : Desk) : Desk :=
  {| plugin := this; created := created d + k; calls := calls d ++ cs |}.

End Reading.

(** *** Packets, events and values to try the properties on *)
Module Cases.
Import Telephony History.

(** Two plain recipients and a body with spaces and punctuation. *)
Definition message : SmsURI.t :=
  {| SmsURI.recipients := Some [js "+15551234567"; js "555-0100"];
     SmsURI.body := Some (js "Running late, back at 5?") |}.

(** A query with an empty [body] field, another field and two more [body]
    fields. *)
Definition fields : list (jsstring * jsstring) :=
  [(js "body", []); (js "x", js "1"); (js "body", js "a");
   (js "body", js "b")].

Definition ringing : PacketBody :=
  {| p_event := js "ringing";
     p_contactName := Some (js "Ann");
     p_phoneNumber := Some (js "15551234567");
     p_messageBody := None;
     p_phoneThumbnail := None;
     p_isCancel := None |}.

(** A message whose packet has no phone number. *)
Definition anonymous : PacketBody :=
  {| p_event := js "sms";
     p_contactName := Some (js "Ann");
     p_phoneNumber := None;
     p_messageBody := Some (js "hi");
     p_phoneThumbnail := None;
     p_isCancel := None |}.

Definition missedCallEvent : Event :=
  {| event := js "missedCall";
     contactName := Some (js "Ann");
     phoneNumber := Some (js "15551234567");
     messageBody := None;
     phoneThumbnail := None;
     isCancel := None;
     time := 1500000000;
     contact := {| name := js "Ann"; avatar := None |};
     gicon := Some (ThemedIcon (js "call-missed-symbolic")) |}.

(** A call that rings and is cancelled half a minute later. *)
Definition ringThenCancel : list Arrival :=
  [{| now := 1500000000; uuid := js "u1"; packet := ringing |};
   {| now := 1500000030; uuid := js "u2"; packet := Sample.cancel |}].

End Cases.


(** * Properties *)

(** ** The matcher *)
Lemma refuses_sound {A} (r : RegExp) :
  forall i s c (k : Cont A), refuses r (head s) = true -> run r i s c k = None.
Proof.
  induction r; intros i s c k H; simpl in *; try discriminate.
  - destruct s as [|a s]; [done|]. simpl in H. by destruct (p a).
  - by apply IHr1.
  - destruct (andb_prop _ _ H) as [H1 H2]. rewrite IHr1 by done. by apply IHr2.
  - by apply IHr.
  - destruct s; [|done]. apply bool_decide_eq_true in H. by destruct H.
Qed.

Lemma starLoop_stop {A} (r : RegExp) (k : Cont A) fuel i s c :
  refuses r (head s) = true ->
  starLoop (fun i' s' c' k' => run r i' s' c' k') k fuel i s c = k i s c.
Proof.
  intros H. destruct fuel; [done|]. simpl. by rewrite refuses_sound.
Qed.


Lemma takes_ok {A} (r : RegExp) :
  forall a i s c (k : Cont A) x,
    takes r a = true -> k (S i) s c = Some x -> run r i (a :: s) c k = Some x.
Proof.
  induction r; intros a i s c k x H Hk; simpl in *; try discriminate.
  - by rewrite H.
  - by rewrite (IHr1 _ _ _ _ _ _ H Hk).
Qed.

(** [r*] over a run [v] of code units that [r] takes one at a time, up to
    a position where [r] refuses to go on. *)
Lemma starLoop_run {A} (r : RegExp) (k : Cont A) x :
  forall v fuel i s c,
    Forall (fun a => takes r a = true) v ->
    (length v < fuel)%nat ->
    refuses r (head s) = true ->
    k (i + length v)%nat s c = Some x ->
    starLoop (fun i' s' c' k' => run r i' s' c' k') k fuel i (v ++ s) c = Some x.
Proof.
  induction v as [|a v IH]; intros fuel i s c Hv Hfuel Hs Hk.
  - simpl. rewrite starLoop_stop by done. by rewrite Nat.add_0_r in Hk.
  - destruct fuel as [|fuel]; [simpl in Hfuel; lia|].
    inversion Hv as [|? ? Ha Hv']; subst. simpl.
    rewrite (takes_ok r a i (v ++ s) c _ x); [done|done|].
    rewrite (proj2 (Nat.ltb_lt i (S i))) by lia.
    apply IH; [done|simpl in Hfuel; lia|done|].
    by replace (S i + length v)%nat with (i + length (a :: v))%nat
      by (simpl; lia).
Qed.

Lemma run_Star {A} (r : RegExp) (k : Cont A) i s c :
  run (Star r) i s c k
  = starLoop (fun i' s' c' k' => run r i' s' c' k') k (S (length s)) i s c.
Proof. reflexivity. Qed.

Lemma run_Star_run {A} (r : RegExp) (k : Cont A) x v i s c :
  Forall (fun a => takes r a = true) v ->
  refuses r (head s) = true ->
  k (i + length v)%nat s c = Some x ->
  run (Star r) i (v ++ s) c k = Some x.
Proof.
  intros. rewrite run_Star. apply starLoop_run; try done.
  rewrite length_app. lia.
Qed.

Lemma run_Star_stop {A} (r : RegExp) (k : Cont A) i s c :
  refuses r (head s) = true -> run (Star r) i s c k = k i s c.
Proof. intros. rewrite run_Star. by apply starLoop_stop. Qed.

Lemma run_Plus_run {A} (r : RegExp) (k : Cont A) x a v i s c :
  Forall (fun a => takes r a = true) (a :: v) ->
  refuses r (head s) = true ->
  k (i + length (a :: v))%nat s c = Some x ->
  run (Plus r) i ((a :: v) ++ s) c k = Some x.
Proof.
  intros Hv Hs Hk. inversion Hv; subst. unfold Plus.
  change (run (Seq r (Star r)) i ((a :: v) ++ s) c k)
    with (run r i (a :: (v ++ s)) c (fun i' s' c' => run (Star r) i' s' c' k)).
  apply takes_ok; [done|]. apply run_Star_run; try done.
  by replace (S i + length v)%nat with (i + length (a :: v))%nat
    by (simpl; lia).
Qed.

Lemma run_Opt_skip {A} (r : RegExp) (k : Cont A) i s c :
  refuses r (head s) = true -> run (Opt r) i s c k = k i s c.
Proof. intros. simpl. by rewrite refuses_sound. Qed.

Lemma run_Lit_ok {A} (k : Cont A) x :
  forall l i s c,
    k (i + length l)%nat s c = Some x -> run (Lit l) i (l ++ s) c k = Some x.
Proof.
  induction l as [|a l IH]; intros i s c Hk; simpl.
  - by rewrite Nat.add_0_r in Hk.
  - rewrite N.eqb_refl. apply IH.
    by replace (S i + length l)%nat with (i + length (a :: l))%nat
      by (simpl; lia).
Qed.

(** An anchored expression matches at index 0 or nowhere. *)
Lemma execFrom_anchored (r : RegExp) (n : nat) :
  forall s i, i ≠ 0%nat ->
    execFrom {| pattern := Seq AssertStart r; ngroups := n |} i s = None.
Proof.
  induction s as [|a s IH]; intros i Hi; simpl;
    destruct (Nat.eqb_spec i 0); try done.
  by apply IH.
Qed.

Lemma exec_anchored (r : RegExp) (n : nat) (s : jsstring) :
  exec {| pattern := Seq AssertStart r; ngroups := n |} s
  = run r 0 s (replicate (S n) None)
      (fun i' _ c' => Some (<[0%nat := Some (take (i' - 0) s)]> c')).
Proof.
  unfold exec. destruct s as [|a s]; simpl.
  - by destruct (run r 0 [] _ _).
  - destruct (run r 0 (a :: s) _ _); [done|]. by apply execFrom_anchored.
Qed.


Lemma run_Seq {A} (r1 r2 : RegExp) (k : Cont A) i s c :
  run (Seq r1 r2) i s c k = run r1 i s c (fun i' s' c' => run r2 i' s' c' k).
Proof. reflexivity. Qed.

Lemma run_Disj {A} (r1 r2 : RegExp) (k : Cont A) i s c :
  run (Disj r1 r2) i s c k
  = match run r1 i s c k with
    | Some v => Some v
    | None => run r2 i s c k
    end.
Proof. reflexivity. Qed.

Lemma run_Group {A} (n : nat) (r : RegExp) (k : Cont A) i s c :
  run (Group n r) i s c k
  = run r i s c (fun i' s' c' => k i' s' (<[n := Some (take (i' - i) s)]> c')).
Proof. reflexivity. Qed.

Lemma run_Opt_take {A} (r : RegExp) (k : Cont A) i s c x :
  run r i s c k = Some x -> run (Opt r) i s c k = Some x.
Proof. intros H. simpl. by rewrite H. Qed.

Lemma run_Lit_miss {A} (k : Cont A) :
  forall l s i c, startsWith s l = false -> run (Lit l) i s c k = None.
Proof.
  induction l as [|x l IH]; intros s i c H.
  - by destruct s.
  - destruct s as [|y s]; [done|]. simpl in *.
    destruct (x =? y); [by apply IH|done].
Qed.

(** A subject that does not start with [sms:] is not matched. *)
Lemma exec_smsRegex_scheme (uri : jsstring) :
  startsWith uri (js "sms:") = false -> exec _smsRegex uri = None.
Proof.
  intros H. unfold _smsRegex. rewrite exec_anchored, run_Seq.
  by apply run_Lit_miss.
Qed.

Lemma set_not (p : N -> bool) (a b : N) :
  p a = true -> p b = false -> N.eqb b a = false.
Proof. intros Ha Hb. destruct (N.eqb_spec b a); congruence. Qed.

Lemma refuses_Chr (p : N -> bool) (ch : ascii) (a : N) :
  p a = true -> p (chr ch) = false -> refuses (Chr ch) (Some a) = true.
Proof. intros. unfold Chr. simpl. by rewrite (set_not p a (chr ch)). Qed.

Ltac closed := vm_compute; reflexivity.

(** One step along the path the matcher takes first. *)
Ltac along :=
  cbv beta;
  lazymatch goal with
  | |- run (Seq _ _) _ _ _ _ = Some _ => rewrite run_Seq
  | |- run (Group _ _) _ _ _ _ = Some _ => rewrite run_Group
  | |- run (Star _) _ (_ :: _) _ _ = Some _ => rewrite run_Star_stop by closed
  | |- run (Star _) _ [] _ _ = Some _ => rewrite run_Star_stop by closed
  | |- run (Opt _) _ _ _ _ = Some _ =>
      rewrite run_Opt_skip by closed
  | |- run (CharSet _) _ (_ :: _) _ _ = Some _ => apply takes_ok; [closed|]
  | |- run (Chr _) _ (_ :: _) _ _ = Some _ => apply takes_ok; [closed|]
  | |- run AssertEnd _ [] _ _ = Some _ => cbn [run]
  | |- run _smsParam _ _ _ _ = Some _ => unfold _smsParam at 1
  | |- run _lenientNumber _ _ _ _ = Some _ => unfold _lenientNumber at 1
  | |- run _lenientDigits _ _ _ _ = Some _ => unfold _lenientDigits at 1
  end.

Lemma take_sub_app (s t : jsstring) (i j : nat) :
  (j = i + length s)%nat -> take (j - i) (s ++ t) = s.
Proof.
  intros ->. replace (i + length s - i)%nat with (length s) by lia.
  by rewrite take_app_length.
Qed.

Lemma captures3 {A} (x y z : option A) :
  <[0%nat := x]> (<[2%nat := y]> (<[1%nat := z]> (replicate 3 None)))
  = [x; z; y].
Proof. reflexivity. Qed.

(** The match of a URI with one plain number and a [body] field without
    percent escapes. *)
Lemma exec_smsRegex_body (a : N) (d v : jsstring) :
  Forall (fun x => digitChar x = true) (a :: d) ->
  Forall (fun x => smsChar x = true) v ->
  exec _smsRegex (js "sms:" ++ (a :: d) ++ js "?body=" ++ v)
  = Some [Some (js "sms:" ++ (a :: d) ++ js "?body=" ++ v);
          Some (a :: d); Some (js "body=" ++ v)].
Proof.
  intros Hd Hv. unfold _smsRegex. rewrite exec_anchored.
  set (uri := js "sms:" ++ (a :: d) ++ js "?body=" ++ v).
  unfold uri at 1.
  assert (Ha : digitChar a = true) by (by inversion Hd).
  along. apply run_Lit_ok. along.
  rewrite run_Opt_skip by (by apply (refuses_Chr digitChar "/")).
  repeat along.
  rewrite run_Opt_skip by (by apply (refuses_Chr digitChar "+")).
  cbv beta.
  change (js "?body=" ++ v) with (63 :: js "body=" ++ v).
  apply run_Plus_run; [done|closed|].
  repeat along. apply run_Opt_take. repeat along.
  change (js "body=" ++ v) with ((98 :: js "ody") ++ 61 :: v).
  apply run_Plus_run; [by repeat constructor|closed|].
  repeat along.
  rewrite <- (app_nil_r v) at 1.
  apply run_Star_run; [done|closed|].
  repeat along.
  rewrite captures3. f_equal.
  assert (Hlen : length uri = (10 + length (a :: d) + length v)%nat).
  { unfold uri. rewrite !length_app. change (length (js "sms:")) with 4%nat.
    change (length (js "?body=")) with 6%nat. lia. }
  change (length (js "sms:")) with 4%nat.
  change (length (98 :: js "ody")) with 4%nat.
  f_equal; [|f_equal; [|f_equal]]; f_equal.
  - apply take_ge. lia.
  - apply take_sub_app. lia.
  - apply take_ge. rewrite length_app. simpl. lia.
Qed.

Lemma exec_numberRegex_digits (a : N) (d : jsstring) :
  Forall (fun x => digitChar x = true) (a :: d) ->
  exec _numberRegex (a :: d) = Some [Some (a :: d); Some (a :: d); Some []].
Proof.
  intros Hd. unfold _numberRegex. rewrite exec_anchored.
  assert (Ha : digitChar a = true) by (by inversion Hd).
  repeat along.
  rewrite run_Opt_skip by (by apply (refuses_Chr digitChar "+")).
  cbv beta. rewrite <- (app_nil_r (a :: d)) at 1.
  apply run_Plus_run; [done|closed|].
  repeat along.
  rewrite captures3.
  f_equal. f_equal; [|f_equal; [|f_equal]]; f_equal.
  - apply take_ge. lia.
  - apply take_ge. lia.
  - by rewrite Nat.sub_diag.
Qed.

Lemma split_absent (sep : N) (s : jsstring) :
  Forall (fun x => x ≠ sep) s -> split sep s = [s].
Proof.
  induction 1 as [|x s Hx _ IH]; [done|]. simpl.
  destruct (N.eqb_spec x sep); [done|]. by rewrite IH.
Qed.

Lemma unescape_plain (s : jsstring) :
  Forall (fun x => x ≠ 37) s -> unescape s = s.
Proof.
  induction 1 as [|x s Hx _ IH]; [done|]. simpl.
  destruct (N.eqb_spec x 37); [done|]. simpl. by rewrite IH.
Qed.

Lemma Decode_plain (s : jsstring) :
  Forall (fun x => x ≠ 37) s ->
  forall fuel, (length s <= fuel)%nat -> Decode fuel s = Ok s.
Proof.
  induction 1 as [|x s Hx _ IH]; intros fuel Hfuel.
  - by destruct fuel.
  - destruct fuel as [|fuel]; [simpl in Hfuel; lia|]. simpl.
    destruct (N.eqb_spec x 37); [done|]. simpl.
    rewrite IH by (simpl in Hfuel; lia). done.
Qed.

Lemma decodeURIComponent_plain (s : jsstring) :
  Forall (fun x => x ≠ 37) s -> decodeURIComponent s = Ok s.
Proof. intros. by apply Decode_plain. Qed.

Lemma Forall_set_not (p : N -> bool) (b : N) (s : jsstring) :
  p b = false -> Forall (fun x => p x = true) s -> Forall (fun x => x ≠ b) s.
Proof.
  intros Hb Hs. eapply Forall_impl; [exact Hs|]. intros x Hx ->. congruence.
Qed.

Lemma split_app (sep : N) (l s : jsstring) :
  Forall (fun x => x ≠ sep) l -> split sep (l ++ sep :: s) = l :: split sep s.
Proof.
  induction 1 as [|x l Hx _ IH]; simpl.
  - by rewrite N.eqb_refl.
  - destruct (N.eqb_spec x sep); [done|]. by rewrite IH.
Qed.

Lemma mapRecipient_digits (a : N) (d : jsstring) :
  Forall (fun x => digitChar x = true) (a :: d) ->
  SmsURI.mapRecipient (a :: d) = Ok (a :: d).
Proof.
  intros Hd. unfold SmsURI.mapRecipient. rewrite exec_numberRegex_digits by done.
  cbn [SmsURI.elem lookup list_lookup mjoin option_join ToString].
  by rewrite unescape_plain by (by apply (Forall_set_not digitChar)).
Qed.

Lemma queryLoop_body (v : jsstring) (this_body : option jsstring) :
  truthy this_body = false ->
  Forall (fun x => x ≠ chr "=") v ->
  SmsURI.queryLoop [js "body=" ++ v] this_body
  = if truthy (Some v)
    then match decodeURIComponent v with
         | Ok b => (Some b, None)
         | Err e => (this_body, Some e)
         end
    else (None, None).
Proof.
  intros Hb Hv. unfold SmsURI.queryLoop.
  change (js "body=" ++ v) with (js "body" ++ chr "=" :: v).
  rewrite split_app by (by repeat constructor).
  rewrite split_absent by done.
  cbn [lookup list_lookup ToString].
  rewrite bool_decide_eq_true_2 by done. rewrite Hb.
  destruct (truthy (Some v)); [|done]. by destruct (decodeURIComponent v).
Qed.

Lemma new_body (a : N) (d v : jsstring) :
  Forall (fun x => digitChar x = true) (a :: d) ->
  Forall (fun x => smsChar x = true) v ->
  SmsURI.new (js "sms:" ++ (a :: d) ++ js "?body=" ++ v)
  = Ok {| SmsURI.recipients := Some [a :: d];
          SmsURI.body := if v is [] then None else Some v |}.
Proof.
  intros Hd Hv. unfold SmsURI.new, SmsURI._init.
  rewrite exec_smsRegex_body by done.
  cbn [SmsURI.elem lookup list_lookup mjoin option_join].
  rewrite split_absent by (by apply (Forall_set_not digitChar)).
  cbn [mapM]. rewrite mapRecipient_digits by done.
  cbn [mbind Result_bind mret Result_ret].
  change (truthy (Some (js "body=" ++ v))) with true. cbv iota.
  cbn [ToString].
  rewrite split_absent.
  2:{ apply Forall_app; split; [by repeat constructor|].
      by apply (Forall_set_not smsChar). }
  rewrite queryLoop_body;
    [|done|by apply (Forall_set_not smsChar)].
  destruct v as [|x v]; [done|]. cbn [truthy].
  by rewrite decodeURIComponent_plain by (by apply (Forall_set_not smsChar)).
Qed.

(** ** Fuel

    The fuel of [starLoop] and of [Decode] only makes the recursion
    structural: more of it changes nothing. *)

(** [run] calls its continuation only at positions further on in the same
    subject. *)
Lemma run_positions (r : RegExp) :
  forall A i s c (k k' : Cont A),
    (forall n c', (n <= length s)%nat ->
                  k (i + n)%nat (drop n s) c' = k' (i + n)%nat (drop n s) c') ->
    run r i s c k = run r i s c k'.
Proof.
  induction r as [|p|r1 IHr1 r2 IHr2|r1 IHr1 r2 IHr2|r IHr|g r IHr|r IHr| |];
    intros A i s c k k' Hk; cbn [run].
  - specialize (Hk 0%nat c). rewrite Nat.add_0_r in Hk. by apply Hk, Nat.le_0_l.
  - destruct s as [|x s]; [done|]. destruct (p x); [|done].
    specialize (Hk 1%nat c). rewrite Nat.add_1_r in Hk.
    apply Hk. simpl. lia.
  - apply IHr1. intros n c' Hn. apply IHr2. intros m c'' Hm.
    rewrite length_drop in Hm. rewrite drop_drop, <- Nat.add_assoc.
    apply Hk. lia.
  - rewrite (IHr1 _ _ _ _ k k' Hk). by rewrite (IHr2 _ _ _ _ k k' Hk).
  - generalize (S (length s)). intros fuel. revert i s c Hk.
    induction fuel as [|fuel IH]; intros i s c Hk; simpl.
    + specialize (Hk 0%nat c). rewrite Nat.add_0_r in Hk.
      by apply Hk, Nat.le_0_l.
    + assert (Hend : k i s c = k' i s c).
      { specialize (Hk 0%nat c). rewrite Nat.add_0_r in Hk.
        by apply Hk, Nat.le_0_l. }
      rewrite Hend.
      match goal with
      | |- match ?x with _ => _ end = match ?y with _ => _ end =>
          replace x with y; [done|]
      end.
      apply IHr. intros n c' Hn.
      destruct (i <? i + n)%nat; [|done]. symmetry. apply IH.
      intros m c'' Hm. rewrite length_drop in Hm.
      rewrite drop_drop, <- Nat.add_assoc. apply Hk. lia.
  - apply IHr. intros n c' Hn.
    specialize (Hk n (<[g:=Some (take (i + n - i) s)]> c')). by apply Hk.
  - destruct (run r i s c _); [done|].
    specialize (Hk 0%nat c). rewrite Nat.add_0_r in Hk. by apply Hk, Nat.le_0_l.
  - destruct (i =? 0)%nat; [|done].
    specialize (Hk 0%nat c). rewrite Nat.add_0_r in Hk. by apply Hk, Nat.le_0_l.
  - destruct s; [|done].
    specialize (Hk 0%nat c). rewrite Nat.add_0_r in Hk. by apply Hk.
Qed.

(** With more fuel than the subject has code units left, one more unit of
    fuel changes nothing: the fuel [run] gives is never used up. *)
Lemma starLoop_fuel {A} (r : RegExp) (k : Cont A) :
  forall fuel i s c,
    (length s < fuel)%nat ->
    starLoop (fun i' s' c' k' => run r i' s' c' k') k (S fuel) i s c
    = starLoop (fun i' s' c' k' => run r i' s' c' k') k fuel i s c.
Proof.
  induction fuel as [|fuel IH]; intros i s c Hfuel; [lia|].
  cbn [starLoop].
  match goal with
  | |- match ?x with _ => _ end = match ?y with _ => _ end =>
      replace x with y; [done|]
  end.
  apply run_positions. intros n c' Hn.
  destruct (Nat.ltb_spec i (i + n)); [|done].
  symmetry. apply IH. rewrite length_drop. lia.
Qed.

Lemma contOctets_length (n : nat) :
  forall s cont rest,
    contOctets n s = Some (cont, rest) -> (length rest <= length s)%nat.
Proof.
  induction n as [|n IH]; intros s cont rest H; simpl in H.
  - by injection H as _ <-.
  - destruct s as [|p [|h1 [|h2 t]]]; try done.
    destruct (p =? 37); [|done]. destruct (hex2 h1 h2) as [b|]; [|done].
    destruct (between 128 191 b); [|done].
    destruct (contOctets n t) as [[bs rest']|] eqn:Ht; [|done].
    injection H as _ <-. apply IH in Ht. simpl. lia.
Qed.

Lemma Decode_cons (fuel : nat) (c : N) (t : jsstring) :
  Decode (S fuel) (c :: t)
  = if negb (c =? 37) then cons c <$> Decode fuel t
    else match t with
         | h1 :: h2 :: t2 =>
             match hex2 h1 h2 with
             | None => Err MalformedSequence
             | Some b =>
                 if b <? 128 then cons b <$> Decode fuel t2
                 else
                   let n := leadingOnes b in
                   if (n =? 1)%nat || (4 <? n)%nat
                   then Err MalformedSequence
                   else match contOctets (n - 1) t2 with
                        | None => Err MalformedSequence
                        | Some (cont, rest) =>
                            match utf8CodePoint b cont with
                            | None => Err MalformedSequence
                            | Some v => app (codeUnits v) <$> Decode fuel rest
                            end
                        end
             end
         | _ => Err MalformedSequence
         end.
Proof. reflexivity. Qed.

(** [Decode] gives the same result with any fuel that covers the string. *)
Lemma Decode_fuel :
  forall fuel s, (length s <= fuel)%nat -> Decode (S fuel) s = Decode fuel s.
Proof.
  induction fuel as [|fuel IH]; intros s Hs.
  - by destruct s; [|simpl in Hs; lia].
  - destruct s as [|c t]; [done|]. simpl in Hs.
    rewrite (Decode_cons (S fuel)), (Decode_cons fuel).
    destruct (negb (c =? 37)); [by rewrite IH by lia|].
    destruct t as [|h1 [|h2 t2]]; try done. simpl in Hs.
    destruct (hex2 h1 h2) as [b|]; [|done].
    destruct (b <? 128); [by rewrite IH by lia|]. cbv zeta.
    destruct (_ || _); [done|].
    destruct (contOctets _ t2) as [[cont rest]|] eqn:Hc; [|done].
    destruct (utf8CodePoint b cont); [|done].
    apply contOctets_length in Hc. by rewrite IH by lia.
Qed.

(** ** What a match consumes *)

Lemma starLoop_sound {A} (r : RegExp) (k : Cont A) (x : A) :
  (forall i s c (k' : Cont A),
      run r i s c k' = Some x ->
      exists w s', s = w ++ s' /\ Lang r w
                   /\ k' (i + length w)%nat s' c = Some x) ->
  forall fuel i s c,
    starLoop (fun i' s' c' k' => run r i' s' c' k') k fuel i s c = Some x ->
    exists ws s', s = List.concat ws ++ s' /\ Forall (Lang r) ws
                  /\ k (i + length (List.concat ws))%nat s' c = Some x.
Proof.
  intros Hr. induction fuel as [|fuel IH]; intros i s c H; simpl in H.
  - exists [], s. simpl. by rewrite Nat.add_0_r.
  - destruct (run r i s c _) as [v|] eqn:Hstep.
    + injection H as ->. apply Hr in Hstep as (w & s1 & -> & Hw & Hk).
      destruct (i <? i + length w)%nat; [|done].
      apply IH in Hk as (ws & s' & -> & Hws & Hk).
      exists (w :: ws), s'. simpl. rewrite <- app_assoc.
      split; [done|]. split; [by constructor|].
      by rewrite length_app, Nat.add_assoc.
    + exists [], s. simpl. by rewrite Nat.add_0_r.
Qed.

(** A successful run of an expression without groups consumed a string of
    its language and went on with the captures it was given. *)
Lemma run_sound {A} (r : RegExp) :
  nogroups r = true ->
  forall i s c (k : Cont A) x,
    run r i s c k = Some x ->
    exists w s', s = w ++ s' /\ Lang r w /\ k (i + length w)%nat s' c = Some x.
Proof.
  induction r; intros Hng i s c k x H; simpl in Hng; try discriminate;
    cbn [run] in H.
  - exists [], s. by rewrite Nat.add_0_r.
  - destruct s as [|a s]; [done|]. destruct (p a) eqn:Hp; [|done].
    exists [a], s. split; [done|]. split; [by exists a|].
    by rewrite Nat.add_1_r.
  - apply andb_prop in Hng as [Hng1 Hng2].
    apply (IHr1 Hng1) in H as (w1 & s1 & -> & Hw1 & H).
    apply (IHr2 Hng2) in H as (w2 & s2 & -> & Hw2 & H).
    exists (w1 ++ w2), s2. rewrite <- app_assoc. split; [done|].
    split; [by exists w1, w2|]. by rewrite length_app, Nat.add_assoc.
  - apply andb_prop in Hng as [Hng1 Hng2].
    destruct (run r1 i s c k) as [v|] eqn:H1.
    + injection H as ->. apply (IHr1 Hng1) in H1 as (w & s' & -> & Hw & H).
      exists w, s'. by repeat split; [left|].
    + apply (IHr2 Hng2) in H as (w & s' & -> & Hw & H).
      exists w, s'. by repeat split; [right|].
  - apply (starLoop_sound r k x) in H as (ws & s' & -> & Hws & H).
    + exists (List.concat ws), s'. by repeat split; [exists ws|].
    + intros. by apply IHr.
  - destruct (run r i s c _); [done|]. exists [], s. by rewrite Nat.add_0_r.
  - destruct (i =? 0)%nat; [|done]. exists [], s. by rewrite Nat.add_0_r.
  - destruct s; [|done]. exists [], []. by rewrite Nat.add_0_r.
Qed.

Lemma run_Group_sound {A} (n : nat) (r : RegExp) :
  nogroups r = true ->
  forall i s c (k : Cont A) x,
    run (Group n r) i s c k = Some x ->
    exists w s', s = w ++ s' /\ Lang r w
                 /\ k (i + length w)%nat s' (<[n := Some w]> c) = Some x.
Proof.
  intros Hng i s c k x H. rewrite run_Group in H.
  apply (run_sound r Hng) in H as (w & s' & -> & Hw & H).
  exists w, s'. split; [done|]. split; [done|].
  by rewrite (take_sub_app w s' i) in H.
Qed.

(** What [_numberRegex] captures: the digits and the tel parameters that
    make up the subject. *)
Lemma exec_numberRegex_sound (s : jsstring) (arr : Captures) :
  exec _numberRegex s = Some arr ->
  exists number params,
    s = number ++ params
    /\ arr = [Some s; Some number; Some params]
    /\ Lang _lenientDigits number
    /\ Lang (Star _telParam) params.
Proof.
  unfold _numberRegex. rewrite exec_anchored, run_Seq. intros H.
  apply run_Group_sound in H as (number & s1 & -> & Hnum & H); [|done].
  rewrite run_Seq in H.
  apply run_Group_sound in H as (params & s2 & -> & Hpar & H); [|done].
  cbn [run] in H. destruct s2; [|done]. injection H as <-.
  rewrite app_nil_r. exists number, params.
  split; [done|]. split; [|done].
  by rewrite take_ge by (rewrite length_app; lia).
Qed.

(** ** The shape of what the groups capture *)

Lemma Lang_alphabet (r : RegExp) :
  forall w, Lang r w -> Forall (fun a => alphabet r a = true) w.
Proof.
  induction r; intros w H; simpl in *; subst; try done.
  - destruct H as (a & -> & Hp). by repeat constructor.
  - destruct H as (w1 & w2 & -> & H1 & H2). apply Forall_app. split.
    + eapply Forall_impl; [by apply IHr1|]. intros a ->. done.
    + eapply Forall_impl; [by apply IHr2|]. intros a ->. by rewrite orb_true_r.
  - destruct H as [H|H].
    + eapply Forall_impl; [by apply IHr1|]. intros a ->. done.
    + eapply Forall_impl; [by apply IHr2|]. intros a ->. by rewrite orb_true_r.
  - destruct H as (ws & -> & Hws). induction Hws as [|w ws Hw _ IH]; [done|].
    simpl. apply Forall_app. split; [by apply IHr|done].
  - by apply IHr.
Qed.

Lemma Lang_avoids (r : RegExp) (b : N) (w : jsstring) :
  alphabet r b = false -> Lang r w -> Forall (fun a => a ≠ b) w.
Proof.
  intros Hb Hw. eapply Forall_impl; [by apply Lang_alphabet|].
  intros a Ha ->. congruence.
Qed.

Lemma split_cons (sep : N) (s : jsstring) :
  exists w ws, split sep s = w :: ws.
Proof.
  induction s as [|a s (w & ws & IH)]; simpl; [by eexists _, _|].
  rewrite IH. destruct (a =? sep); by eexists _, _.
Qed.

Lemma split_prefix (sep : N) (p rest : jsstring) :
  Forall (fun a => a ≠ sep) p ->
  split sep (p ++ rest)
  = match split sep rest with
    | w :: ws => (p ++ w) :: ws
    | [] => [p]
    end.
Proof.
  destruct (split_cons sep rest) as (w & ws & Hrest).
  induction 1 as [|a p Ha _ IH]; simpl.
  - by rewrite Hrest.
  - destruct (N.eqb_spec a sep); [done|]. rewrite IH. by rewrite Hrest.
Qed.

(** Splitting a text made of pieces that each follow a separator. *)
Lemma split_led (sep : N) (ps : list jsstring) :
  Forall (Forall (fun a => a ≠ sep)) ps ->
  split sep (List.concat (List.map (cons sep) ps)) = [] :: ps.
Proof.
  induction 1 as [|p ps Hp _ IH]; [done|]. simpl.
  rewrite N.eqb_refl, split_prefix, IH by done. by rewrite app_nil_r.
Qed.

Lemma pair_key_value (k v : jsstring) :
  Forall (fun a => a ≠ chr "=") k ->
  Forall (fun a => a ≠ chr "=") v ->
  SmsURI.paramKey (SmsURI.pairText (k, v)) = Some k
  /\ SmsURI.paramValue (SmsURI.pairText (k, v)) = Some v.
Proof.
  intros Hk Hv. unfold SmsURI.paramKey, SmsURI.paramValue, SmsURI.pairText.
  cbn [fst snd]. change (js "=" ++ v) with (chr "=" :: v).
  by rewrite split_app, split_absent.
Qed.

Lemma plainPair_text (sep : N) (kv : jsstring * jsstring) :
  sep ≠ chr "=" -> SmsURI.plainPair sep kv ->
  Forall (fun a => a ≠ sep) (SmsURI.pairText kv).
Proof.
  intros Hsep [Hk Hv]. unfold SmsURI.pairText.
  apply Forall_app. split; [|apply Forall_app; split].
  - eapply Forall_impl; [exact Hk|]. by intros a [? ?].
  - by repeat constructor.
  - eapply Forall_impl; [exact Hv|]. by intros a [? ?].
Qed.

Lemma Lang_telParam (q : jsstring) :
  Lang _telParam q ->
  exists kv, q = js ";" ++ SmsURI.pairText kv /\ SmsURI.plainPair (chr ";") kv.
Proof.
  intros (w1 & w2 & -> & (a & -> & Ha) & (k & w3 & -> & Hk & H)).
  destruct H as (w4 & v & -> & (b & -> & Hb) & Hv).
  apply N.eqb_eq in Ha as <-, Hb as <-.
  exists (k, v). split; [done|]. split; simpl; apply Forall_and; split.
  - by apply (Lang_avoids (Plus (CharSet telKeyChar)) (chr ";")).
  - by apply (Lang_avoids (Plus (CharSet telKeyChar)) (chr "=")).
  - by apply (Lang_avoids (Plus (Disj (CharSet telChar) pctEscape)) (chr ";")).
  - by apply (Lang_avoids (Plus (Disj (CharSet telChar) pctEscape)) (chr "=")).
Qed.

Lemma Lang_telParams (params : jsstring) :
  Lang (Star _telParam) params ->
  exists kvs, params = SmsURI.telParamsText kvs
              /\ Forall (SmsURI.plainPair (chr ";")) kvs.
Proof.
  intros (ws & -> & Hws). induction Hws as [|w ws Hw _ (kvs & IH & Hkvs)].
  - by exists [].
  - apply Lang_telParam in Hw as (kv & -> & Hkv).
    exists (kv :: kvs). split; [|by constructor].
    unfold SmsURI.telParamsText in *. simpl. by rewrite IH.
Qed.

Lemma telParams_text (kvs : list (jsstring * jsstring)) :
  Forall (SmsURI.plainPair (chr ";")) kvs ->
  SmsURI.telParams (Some (SmsURI.telParamsText kvs))
  = List.map SmsURI.pairText kvs.
Proof.
  intros Hkvs.
  assert (Hsplit : split (chr ";") (SmsURI.telParamsText kvs)
                   = [] :: List.map SmsURI.pairText kvs).
  { unfold SmsURI.telParamsText.
    rewrite <- (split_led (chr ";") (List.map SmsURI.pairText kvs)).
    - by rewrite List.map_map.
    - apply Forall_map. eapply Forall_impl; [exact Hkvs|].
      intros kv. by apply plainPair_text. }
  destruct kvs as [|kv kvs]; [done|].
  unfold SmsURI.telParamsText in *. simpl in *. by injection Hsplit.
Qed.

Lemma paramsLoop_cons (number : option jsstring) (param : jsstring)
    (rest : list jsstring) :
  SmsURI.paramsLoop number (param :: rest)
  = if bool_decide (SmsURI.paramKey param = Some (js "phone-context"))
    then match SmsURI.paramValue param with
         | None => Err TypeError
         | Some v =>
             if startsWith v (js "+")
             then Ok (v ++ unescape (ToString number))
             else SmsURI.paramsLoop number rest
         end
    else SmsURI.paramsLoop number rest.
Proof. reflexivity. Qed.

Lemma paramsLoop_pairs (number : option jsstring)
    (kvs : list (jsstring * jsstring)) :
  Forall (SmsURI.plainPair (chr ";")) kvs ->
  SmsURI.paramsLoop number (List.map SmsURI.pairText kvs)
  = Ok match List.find SmsURI.promoting kvs with
       | Some kv => kv.2 ++ unescape (ToString number)
       | None => unescape (ToString number)
       end.
Proof.
  induction 1 as [|[k v] kvs [Hk Hv] _ IH]; [done|].
  simpl List.map. rewrite paramsLoop_cons.
  destruct (pair_key_value k v) as [-> ->].
  { eapply Forall_impl; [exact Hk|]. by intros a [? ?]. }
  { eapply Forall_impl; [exact Hv|]. by intros a [? ?]. }
  simpl List.find. unfold SmsURI.promoting at 1. cbn [fst snd].
  case_bool_decide as Hkey.
  - rewrite bool_decide_eq_true_2 by congruence. simpl.
    by destruct (startsWith v (js "+")).
  - rewrite bool_decide_eq_false_2 by congruence. done.
Qed.

(** *** The query *)

Lemma Lang_smsParam (f : jsstring) :
  Lang _smsParam f ->
  exists kv, f = SmsURI.pairText kv /\ SmsURI.plainPair (chr "&") kv.
Proof.
  intros (k & w & -> & Hk & (w1 & v & -> & (a & -> & Ha) & Hv)).
  apply N.eqb_eq in Ha as <-.
  exists (k, v). split; [done|]. split; simpl; apply Forall_and; split.
  - by apply (Lang_avoids (Plus (CharSet smsChar)) (chr "&")).
  - by apply (Lang_avoids (Plus (CharSet smsChar)) (chr "=")).
  - by apply (Lang_avoids (Star (Disj (CharSet smsChar) pctEscape)) (chr "&")).
  - by apply (Lang_avoids (Star (Disj (CharSet smsChar) pctEscape)) (chr "=")).
Qed.

Lemma Lang_query (qs : jsstring) :
  Lang queryRegex qs ->
  exists kv kvs,
    qs = SmsURI.queryString (kv :: kvs)
    /\ Forall (SmsURI.plainPair (chr "&")) (kv :: kvs).
Proof.
  intros (f & w & -> & Hf & (ws & -> & Hws)).
  apply Lang_smsParam in Hf as (kv & -> & Hkv).
  assert (exists kvs,
             List.concat ws
             = List.concat
                 (List.map (fun kv => js "&" ++ SmsURI.pairText kv) kvs)
             /\ Forall (SmsURI.plainPair (chr "&")) kvs) as (kvs & -> & Hkvs).
  { induction Hws as [|w ws Hw _ (kvs & IH & Hkvs)]; [by exists []|].
    destruct Hw as (w1 & f & -> & (a & -> & Ha) & Hf).
    apply N.eqb_eq in Ha as <-.
    apply Lang_smsParam in Hf as (kv' & -> & Hkv').
    exists (kv' :: kvs). split; [|by constructor]. simpl. by rewrite IH. }
  exists kv, kvs. split; [done|by constructor].
Qed.

Lemma split_queryString (kv : jsstring * jsstring)
    (kvs : list (jsstring * jsstring)) :
  Forall (SmsURI.plainPair (chr "&")) (kv :: kvs) ->
  split (chr "&") (SmsURI.queryString (kv :: kvs))
  = List.map SmsURI.pairText (kv :: kvs)
  /\ truthy (Some (SmsURI.queryString (kv :: kvs))) = true.
Proof.
  intros Hf. inversion Hf as [|? ? Hkv Hkvs]; subst. split.
  - unfold SmsURI.queryString.
    rewrite split_prefix by (by apply plainPair_text).
    replace (List.concat
               (List.map (fun kv0 => js "&" ++ SmsURI.pairText kv0) kvs))
      with (List.concat
              (List.map (cons (chr "&")) (List.map SmsURI.pairText kvs)))
      by (by rewrite List.map_map).
    rewrite split_led.
    + by rewrite app_nil_r.
    + apply Forall_map. eapply Forall_impl; [exact Hkvs|].
      intros kv'. by apply plainPair_text.
  - by destruct kv as [[|a k] v].
Qed.

Lemma Lang_Lit (l w : jsstring) : Lang (Lit l) w -> w = l.
Proof.
  revert w. induction l as [|x l IH]; intros w H; simpl in H; [done|].
  destruct H as (w1 & w2 & -> & (a & -> & Ha) & H2).
  apply N.eqb_eq in Ha as <-. simpl. f_equal. by apply IH.
Qed.

(** What [_smsRegex] matches and captures: the subject is [sms:], two or
    three slashes or none, the recipients, and a query made of fields
    [key=value] if any; the groups are the recipients and the query. *)
Lemma exec_smsRegex_sound (uri : jsstring) (arr : Captures) :
  exec _smsRegex uri = Some arr ->
  exists slashes rs fields,
    uri = js "sms:" ++ slashes ++ rs ++ SmsURI.queryPart fields
    /\ (slashes = [] \/ slashes = js "//" \/ slashes = js "///")
    /\ arr = [Some uri; Some rs; SmsURI.queryText fields]
    /\ Forall (SmsURI.plainPair (chr "&")) fields.
Proof.
  unfold _smsRegex. rewrite exec_anchored, run_Seq. intros H.
  apply run_sound in H as (w0 & s0 & -> & Hw0 & H); [|done].
  apply Lang_Lit in Hw0 as ->.
  rewrite run_Seq in H.
  apply run_sound in H as (w1 & s1 & -> & Hw1 & H); [|done].
  assert (Hslashes : w1 = [] \/ w1 = js "//" \/ w1 = js "///").
  { destruct Hw1
      as [(x & y & -> & (a & -> & Ha) & (z & t & -> & (b & -> & Hb) & Ht))| ->];
      [|by left].
    apply N.eqb_eq in Ha as <-, Hb as <-.
    destruct Ht as [(c & -> & Hc)| ->]; [|by right; left].
    apply N.eqb_eq in Hc as <-. by right; right. }
  rewrite run_Seq in H.
  apply run_Group_sound in H as (rs & s2 & -> & _ & H); [|done].
  rewrite run_Seq in H. unfold Opt at 1 in H. rewrite run_Disj in H.
  fold queryRegex in H.
  match type of H with
  | match ?t with _ => _ end = _ => destruct t as [v|] eqn:Hq
  end.
  - injection H as ->. rewrite run_Seq in Hq.
    apply run_sound in Hq as (w3 & s3 & -> & (a & -> & Ha) & Hq); [|done].
    apply N.eqb_eq in Ha as <-.
    apply run_Group_sound in Hq as (qs & s4 & -> & Hqs & Hq); [|done].
    destruct s4; [|done]. injection Hq as <-.
    apply Lang_query in Hqs as (kv & kvs & -> & Hf).
    exists w1, rs, (kv :: kvs). rewrite app_nil_r.
    split; [done|]. split; [done|]. split; [|done].
    rewrite take_ge; [done|]. rewrite !length_app. cbn [length]. lia.
  - cbn [run] in H. destruct s2; [|done]. injection H as <-.
    exists w1, rs, []. split; [done|]. split; [done|]. split; [|done]. simpl.
    rewrite take_ge; [done|]. rewrite !length_app. cbn [length]. lia.
Qed.

Lemma Decode_nonempty (fuel : nat) (a : N) (s d : jsstring) :
  Decode (S fuel) (a :: s) = Ok d -> d ≠ [].
Proof.
  simpl. destruct (a =? 37); simpl.
  - destruct s as [|h1 [|h2 t2]]; try done.
    destruct (hex2 h1 h2) as [b|]; [|done].
    destruct (b <? 128).
    + destruct (Decode fuel t2); [|done]. by intros [= <-].
    + destruct (_ || _); [done|].
      destruct (contOctets _ t2) as [[cont rest]|]; [|done].
      destruct (utf8CodePoint b cont) as [v|]; [|done].
      destruct (Decode fuel rest) as [d'|]; [|done]. intros [= <-].
      unfold codeUnits. by destruct (v <? 65536).
  - destruct (Decode fuel s); [|done]. by intros [= <-].
Qed.

Lemma fieldBody_nonempty (v : jsstring) : SmsURI.fieldBody v ≠ Some [].
Proof.
  destruct v as [|a v]; [done|]. unfold SmsURI.fieldBody.
  destruct (decodeURIComponent (a :: v)) as [d|] eqn:Hd; [|done].
  apply Decode_nonempty in Hd. congruence.
Qed.

Lemma queryLoop_pair (k v : jsstring) (rest : list jsstring)
    (b : option jsstring) :
  Forall (fun a => a ≠ chr "=") k ->
  Forall (fun a => a ≠ chr "=") v ->
  SmsURI.queryLoop (SmsURI.pairText (k, v) :: rest) b
  = if bool_decide (k = js "body")
    then if truthy b then (b, Some DuplicateField)
         else match v with
              | [] => SmsURI.queryLoop rest None
              | _ :: _ =>
                  match decodeURIComponent v with
                  | Ok d => SmsURI.queryLoop rest (Some d)
                  | Err e => (b, Some e)
                  end
              end
    else SmsURI.queryLoop rest b.
Proof.
  intros Hk Hv. destruct (pair_key_value k v Hk Hv) as [Hkey Hval].
  unfold SmsURI.paramKey, SmsURI.paramValue in *.
  cbn [SmsURI.queryLoop]. rewrite Hkey, Hval.
  case_bool_decide as H1.
  - rewrite bool_decide_eq_true_2 by congruence. by destruct v.
  - rewrite bool_decide_eq_false_2 by congruence. done.
Qed.

(** When the loop over the fields ends without raising, the body it leaves
    is that of the last [body] field, or the one it started with when
    there is no [body] field. *)
Lemma queryLoop_last (fields : list (jsstring * jsstring)) :
  Forall (SmsURI.plainPair (chr "&")) fields ->
  forall b b',
    SmsURI.queryLoop (List.map SmsURI.pairText fields) b = (b', None) ->
    b' = match last (List.filter SmsURI.isBody fields) with
         | Some kv => SmsURI.fieldBody kv.2
         | None => b
         end.
Proof.
  induction 1 as [|[k v] fields [Hk Hv] _ IH]; intros b b' H.
  - by injection H as <-.
  - simpl List.map in H. rewrite queryLoop_pair in H.
    2:{ eapply Forall_impl; [exact Hk|]. by intros a [? ?]. }
    2:{ eapply Forall_impl; [exact Hv|]. by intros a [? ?]. }
    simpl List.filter. unfold SmsURI.isBody at 1. cbn [fst].
    destruct (bool_decide (k = js "body")); [|by apply IH].
    destruct (truthy b); [done|].
    rewrite last_cons.
    destruct v as [|a v].
    + apply IH in H. by destruct (last _).
    + destruct (decodeURIComponent (a :: v)) as [d|] eqn:Hd; [|done].
      apply IH in H. destruct (last _); [done|]. subst b'.
      unfold SmsURI.fieldBody. cbn [snd]. by rewrite Hd.
Qed.

(** Once a non-empty body is stored, any later [body] field is refused. *)
Lemma queryLoop_duplicate (fields : list jsstring) (b : option jsstring) :
  truthy b = true ->
  Exists (fun f => SmsURI.paramKey f = Some (js "body")) fields ->
  SmsURI.queryLoop fields b = (b, Some DuplicateField).
Proof.
  intros Hb. induction 1 as [f fields Hf|f fields _ IH]; simpl.
  - unfold SmsURI.paramKey in Hf. by rewrite bool_decide_eq_true_2, Hb.
  - case_bool_decide; [by rewrite Hb|done].
Qed.

Lemma mapRecipient_paramsLoop (recipient : jsstring) (arr : Captures) :
  exec _numberRegex recipient = Some arr ->
  SmsURI.mapRecipient recipient
  = SmsURI.paramsLoop (SmsURI.elem 1 arr) (SmsURI.telParams (SmsURI.elem 2 arr)).
Proof.
  intros H. unfold SmsURI.mapRecipient. rewrite H.
  by destruct (SmsURI.elem 2 arr) as [[|p ps]|].
Qed.

(** Serializing and parsing a value with one plain recipient and a body of
    letters and digits gives the value back. *)
Lemma roundtrip_plain (a b0 : N) (d b : jsstring) :
  Forall (fun x => digitChar x = true) (a :: d) ->
  Forall (fun x => (isUpper x || isLower x || isDigit x) = true) (b0 :: b) ->
  let x := {| SmsURI.recipients := Some [a :: d];
              SmsURI.body := Some (b0 :: b) |} in
  SmsURI.toString x = Ok (js "sms:" ++ (a :: d) ++ js "?body=" ++ b0 :: b)
  /\ SmsURI.new (js "sms:" ++ (a :: d) ++ js "?body=" ++ b0 :: b) = Ok x.
Proof.
  intros Hd Hb x. split.
  - unfold SmsURI.toString, x. cbn [SmsURI.recipients SmsURI.body truthy join ToString].
    rewrite <- app_assoc. do 4 f_equal.
    unfold escape. clear x. induction Hb as [|c b' Hc _ IH]; [done|].
    cbn [List.map List.concat]. rewrite IH. unfold escape1, escape_unreserved.
    by rewrite Hc.
  - rewrite new_body; [done|done|].
    eapply Forall_impl; [exact Hb|]. intros c Hc. unfold smsChar, wordChar.
    apply orb_true_iff in Hc as [Hc|Hc]; [|by rewrite Hc, !orb_true_r].
    by rewrite Hc.
Qed.

(** ** The claims on [SmsURI] *)

(** C2, as the code has it: a second [body] field is refused with the
    duplicate-field [URIError] when the first one had a non-empty value,
    as in [sms:111?body=a&body=b]; after a first [body] field with an
    empty value the second one is accepted and its value becomes the body,
    as in [sms:111?body=&body=b]. *)
Theorem duplicate_body_after_empty_value :
  SmsURI.new (js "sms:111?body=a&body=b") = Err DuplicateField
  /\ SmsURI.new (js "sms:111?body=&body=b")
     = Ok {| SmsURI.recipients := Some [js "111"];
             SmsURI.body := Some (js "b") |}.
Proof. split; vm_compute; reflexivity. Qed.

(** C4, as stated, fails: [body=] with an empty value leaves the body
    absent rather than an explicit empty string, and a [body] field
    without [=] makes the whole URI malformed. *)
Lemma empty_body_value_is_absent :
  SmsURI.new (js "sms:111?body=")
  = Ok {| SmsURI.recipients := Some [js "111"]; SmsURI.body := None |}
  /\ SmsURI.new (js "sms:111?body=")
     <> Ok {| SmsURI.recipients := Some [js "111"]; SmsURI.body := Some [] |}
  /\ SmsURI.new (js "sms:111?body") = Err MalformedUri.
Proof. split; [|split]; vm_compute; [reflexivity|discriminate|reflexivity]. Qed.

(** C4, amended: whenever the constructor returns, every field of the
    query has the form [key=value] (a [body] field without [=] makes the
    URI malformed), and the body is that of the last [body] field: absent
    when its value is empty, as with [body=], and the URL-decoded value
    otherwise; it is absent when there is no [body] field and is never
    the empty string. *)
Theorem body_field_value (uri : jsstring) (o : SmsURI.t) :
  SmsURI.new uri = Ok o ->
  (exists slashes rs fields,
      uri = js "sms:" ++ slashes ++ rs ++ SmsURI.queryPart fields
      /\ exec _smsRegex uri
         = Some [Some uri; Some rs; SmsURI.queryText fields]
      /\ Forall (SmsURI.plainPair (chr "&")) fields
      /\ SmsURI.body o = SmsURI.bodyOf fields)
  /\ SmsURI.body o ≠ Some []
  /\ SmsURI.new (js "sms:111?body=")
     = Ok {| SmsURI.recipients := Some [js "111"]; SmsURI.body := None |}
  /\ SmsURI.new (js "sms:111?body") = Err MalformedUri
  /\ SmsURI.new (js "sms:111?body=h%C3%A9%20llo")
     = Ok {| SmsURI.recipients := Some [js "111"];
             SmsURI.body := Some [104; 233; 32; 108; 108; 111] |}.
Proof.
  intros H.
  assert (exists slashes rs fields,
             uri = js "sms:" ++ slashes ++ rs ++ SmsURI.queryPart fields
             /\ exec _smsRegex uri
                = Some [Some uri; Some rs; SmsURI.queryText fields]
             /\ Forall (SmsURI.plainPair (chr "&")) fields
             /\ SmsURI.body o = SmsURI.bodyOf fields) as Hshape.
  { unfold SmsURI.new, SmsURI._init in H.
    destruct (exec _smsRegex uri) as [arr|] eqn:Hexec; [|done].
    destruct (exec_smsRegex_sound _ _ Hexec)
      as (slashes & rs & fields & Huri & _ & -> & Hf).
    exists slashes, rs, fields. split; [done|]. split; [done|]. split; [done|].
    change (SmsURI.elem 1 [_; ?x; _]) with x in H.
    change (SmsURI.elem 2 [_; _; ?x]) with x in H.
    cbv beta iota in H.
    match type of H with
    | context [match ?m with Ok _ => _ | Err _ => _ end] =>
        destruct m as [mapped|]; [|done]
    end.
    destruct fields as [|kv kvs].
    - simpl in H. by injection H as <-.
    - destruct (split_queryString kv kvs Hf) as [Hsplit Htruthy].
      unfold SmsURI.queryText in H. rewrite Htruthy in H.
      cbn [ToString] in H. rewrite Hsplit in H.
      destruct (SmsURI.queryLoop _ _) as [b' [e|]] eqn:Hloop; [done|].
      injection H as <-. apply (queryLoop_last _ Hf) in Hloop.
      cbn [SmsURI.body]. unfold SmsURI.bodyOf. rewrite Hloop.
      by destruct (last _). }
  split; [exact Hshape|]. split; [|repeat split; vm_compute; reflexivity].
  destruct Hshape as (_ & _ & fields & _ & _ & _ & ->). unfold SmsURI.bodyOf.
  destruct (last _) as [kv|]; [|done]. apply fieldBody_nonempty.
Qed.

(** The theorem at [sms:15551234567?body=]. *)
Lemma body_field_value_witness :
  SmsURI.new (js "sms:15551234567?body=")
  = Ok {| SmsURI.recipients := Some [js "15551234567"]; SmsURI.body := None |}
  /\ (exists slashes rs fields,
         js "sms:15551234567?body="
         = js "sms:" ++ slashes ++ rs ++ SmsURI.queryPart fields
         /\ exec _smsRegex (js "sms:15551234567?body=")
            = Some [Some (js "sms:15551234567?body="); Some rs;
                    SmsURI.queryText fields]
         /\ Forall (SmsURI.plainPair (chr "&")) fields
         /\ None = SmsURI.bodyOf fields).
Proof.
  assert (H : SmsURI.new (js "sms:15551234567?body=")
              = Ok {| SmsURI.recipients := Some [js "15551234567"];
                      SmsURI.body := None |})
    by (vm_compute; reflexivity).
  split; [exact H|]. exact (proj1 (body_field_value _ _ H)).
Defined.

(** C5: a string that [_smsRegex] does not match, in particular one that
    does not start with [sms:], makes the constructor raise the
    malformed-URI [URIError] and leaves the object as it was: neither
    [recipients] nor [body] is assigned. *)
Theorem malformed_uri_rejected (uri : jsstring) (this : SmsURI.t) :
  exec _smsRegex uri = None \/ startsWith uri (js "sms:") = false ->
  SmsURI._init uri this = (this, Some MalformedUri)
  /\ SmsURI.new uri = Err MalformedUri.
Proof.
  intros H.
  assert (Hexec : exec _smsRegex uri = None).
  { destruct H as [H|H]; [done|by apply exec_smsRegex_scheme]. }
  unfold SmsURI.new, SmsURI._init. by rewrite Hexec.
Qed.

(** The theorem at [tel:111]. *)
Lemma malformed_uri_rejected_witness :
  SmsURI._init (js "tel:111") SmsURI.empty = (SmsURI.empty, Some MalformedUri)
  /\ SmsURI.new (js "tel:111") = Err MalformedUri.
Proof.
  apply (malformed_uri_rejected (js "tel:111") SmsURI.empty).
  right. reflexivity.
Defined.

(** C6: for every recipient that [_numberRegex] matches, the subject is
    the captured digits followed by tel parameters [;key=value] (keys
    and values without [;] or [=]), and the callback returns the value of the first [phone-context] parameter
    whose value starts with [+], followed by the unescaped digits,
    whatever the other parameters are, and the unescaped digits alone
    when there is no such parameter; [sms:5551234;phone-context=+1] has
    the recipients [["+15551234"]]. *)
Theorem phone_context_promotion (recipient : jsstring) (arr : Captures) :
  exec _numberRegex recipient = Some arr ->
  (exists number kvs,
      recipient = number ++ SmsURI.telParamsText kvs
      /\ Forall (SmsURI.plainPair (chr ";")) kvs
      /\ arr = [Some recipient; Some number; Some (SmsURI.telParamsText kvs)]
      /\ SmsURI.mapRecipient recipient
         = Ok match List.find SmsURI.promoting kvs with
              | Some kv => kv.2 ++ unescape number
              | None => unescape number
              end)
  /\ SmsURI.new (js "sms:5551234;phone-context=+1")
     = Ok {| SmsURI.recipients := Some [js "+15551234"];
             SmsURI.body := None |}
  /\ SmsURI.new (js "sms:555%201234;ext=9;phone-context=+1;isub=3,222")
     = Ok {| SmsURI.recipients := Some [js "+1555 1234"; js "222"];
             SmsURI.body := None |}.
Proof.
  intros Hexec. split; [|split; vm_compute; reflexivity].
  rewrite (mapRecipient_paramsLoop _ _ Hexec).
  apply exec_numberRegex_sound in Hexec
    as (number & params & -> & -> & _ & Hpar).
  apply Lang_telParams in Hpar as (kvs & -> & Hkvs).
  exists number, kvs. split; [done|]. split; [done|]. split; [done|].
  change (SmsURI.elem 2 [_; _; ?p]) with p.
  change (SmsURI.elem 1 [_; ?n; _]) with n.
  by rewrite telParams_text, paramsLoop_pairs.
Qed.

(** The theorem at a recipient with three tel parameters. *)
Lemma phone_context_promotion_witness :
  exec _numberRegex (js "5551234;ext=9;phone-context=+1;isub=3")
  = Some [Some (js "5551234;ext=9;phone-context=+1;isub=3");
          Some (js "5551234"); Some (js ";ext=9;phone-context=+1;isub=3")]
  /\ exists number kvs,
       js "5551234;ext=9;phone-context=+1;isub=3"
       = number ++ SmsURI.telParamsText kvs
       /\ Forall (SmsURI.plainPair (chr ";")) kvs
       /\ SmsURI.mapRecipient (js "5551234;ext=9;phone-context=+1;isub=3")
          = Ok match List.find SmsURI.promoting kvs with
               | Some kv => kv.2 ++ unescape number
               | None => unescape number
               end.
Proof.
  assert (H : exec _numberRegex (js "5551234;ext=9;phone-context=+1;isub=3")
              = Some [Some (js "5551234;ext=9;phone-context=+1;isub=3");
                      Some (js "5551234");
                      Some (js ";ext=9;phone-context=+1;isub=3")])
    by (vm_compute; reflexivity).
  split; [exact H|].
  destruct (proj1 (phone_context_promotion _ _ H))
    as (number & kvs & H1 & H2 & _ & H3).
  by exists number, kvs.
Defined.

(** C9: serializing the value with recipients [["15551234567"]] and body
    ["hello"], parsing the result and serializing again gives the same
    string. *)
Theorem roundtrip_example :
  let x := {| SmsURI.recipients := Some [js "15551234567"];
              SmsURI.body := Some (js "hello") |} in
  SmsURI.toString x = Ok (js "sms:15551234567?body=hello")
  /\ SmsURI.new (js "sms:15551234567?body=hello") = Ok x
  /\ (s ← SmsURI.toString x; y ← SmsURI.new s; SmsURI.toString y)
     = SmsURI.toString x.
Proof. repeat split; vm_compute; reflexivity. Qed.

(** ** The plugin *)
Import Telephony.

(** *** Computations that keep a relation between the states *)

Section Keeps.

Context (R : relation Plugin) `{!PreOrder R}.

Lemma keeps_ret {A} (a : A) : keeps R (mret a).
Proof. intros this. reflexivity. Qed.

Lemma keeps_get : keeps R get.
Proof. intros this. reflexivity. Qed.

Lemma keeps_throw {A} (e : JSError) : keeps R (@throw A e).
Proof. intros this. reflexivity. Qed.

Lemma keeps_modify (f : Plugin -> Plugin) :
  (forall this, R this (f this)) -> keeps R (modify f).
Proof. intros H this. apply H. Qed.

Lemma keeps_bind {A B} (m : M A) (f : A -> M B) :
  keeps R m -> (forall a, keeps R (f a)) -> keeps R (m ≫= f).
Proof.
  intros Hm Hf this. unfold mbind, M_bind.
  specialize (Hm this). destruct (m this) as [[e|a] this']; simpl in *; [done|].
  etransitivity; [exact Hm|apply Hf].
Qed.

Lemma keeps_promise (m : M (bool + unit)) : keeps R m -> keeps R (promise m).
Proof.
  intros Hm this. unfold promise. specialize (Hm this).
  by destruct (m this) as [[e|[v|[]]] this'].
Qed.

End Keeps.

(** *** [_hasWindow] *)

Lemma windowLoop_spec (this : Plugin) (num : jsstring) :
  forall wins k,
    match windowLoop (device_id this) (stripNonDigits num) wins k with
    | Some i =>
        exists j w, i = (k + j)%nat /\ wins !! j = Some w /\ eligible this num w
          /\ forall j' w', (j' < j)%nat -> wins !! j' = Some w' ->
                           ~ eligible this num w'
    | None => forall w, w ∈ wins -> ~ eligible this num w
    end.
Proof.
  induction wins as [|win wins IH]; intros k; simpl.
  - intros w Hw. by apply elem_of_nil in Hw.
  - assert (Hskip : ~ eligible this num win ->
      match windowLoop (device_id this) (stripNonDigits num) wins (S k) with
      | Some i =>
          exists j w, i = (k + j)%nat /\ (win :: wins) !! j = Some w
            /\ eligible this num w
            /\ forall j' w', (j' < j)%nat -> (win :: wins) !! j' = Some w' ->
                             ~ eligible this num w'
      | None => forall w, w ∈ win :: wins -> ~ eligible this num w
      end).
    { intros Hwin. specialize (IH (S k)).
      destruct (windowLoop _ _ wins (S k)) as [i|].
      - destruct IH as (j & w & -> & Hj & Hw & Hfirst).
        exists (S j), w. split; [lia|]. split; [done|]. split; [done|].
        intros [|j'] w' Hlt Hw'; simpl in Hw'.
        + by injection Hw' as <-.
        + apply (Hfirst j'); [lia|done].
      - intros w Hin. apply elem_of_cons in Hin as [->|Hin]; [done|by apply IH]. }
    destruct (win_device win) as [d|] eqn:Hdev.
    + case_bool_decide as Hid; simpl.
      * case_bool_decide as Hnum.
        -- exists 0%nat, win. split; [lia|]. split; [done|].
           split; [by split; subst|]. intros j' w' Hlt. lia.
        -- apply Hskip. intros [_ Hn]. congruence.
      * apply Hskip. intros [Hd _]. congruence.
    + apply Hskip. intros [Hd _]. congruence.
Qed.

(** [stripNonDigits] takes out every code unit that is not one of the ten
    digits and nothing else. *)
Lemma DigitsOf_stripNonDigits (s d : jsstring) :
  DigitsOf s d <-> stripNonDigits s = d.
Proof.
  unfold stripNonDigits. split.
  - induction 1 as [|c s d [Hlo Hhi] _ IH|c s d Hc _ IH]; [done| |];
      cbn [List.filter]; change (isDigit c) with ((48 <=? c) && (c <=? 57)).
    + rewrite (proj2 (N.leb_le 48 c) Hlo), (proj2 (N.leb_le c 57) Hhi).
      cbn [andb]. by rewrite IH.
    + destruct (N.leb_spec 48 c) as [Hlo|Hlo]; [|done].
      destruct (N.leb_spec c 57) as [Hhi|Hhi]; [|done].
      by destruct Hc.
  - intros <-. induction s as [|c s IH]; [constructor|].
    cbn [List.filter]. change (isDigit c) with ((48 <=? c) && (c <=? 57)).
    destruct (N.leb_spec 48 c) as [Hlo|Hlo];
      [destruct (N.leb_spec c 57) as [Hhi|Hhi]|]; cbn [andb].
    + by apply digits_keep.
    + apply digits_drop; [|done]. intros [_ H]. lia.
    + apply digits_drop; [|done]. intros [H _]. lia.
Qed.

Lemma eligible_matching (this : Plugin) (num : jsstring) (w : Window) :
  eligible this num w <-> matching this num w.
Proof.
  unfold eligible, matching. split.
  - intros [Hd Hn]. split; [done|]. exists (stripNonDigits num).
    split; apply DigitsOf_stripNonDigits; done.
  - intros [Hd (d & Hnum & Hw)]. split; [done|].
    apply DigitsOf_stripNonDigits in Hnum, Hw. congruence.
Qed.

(** What [_hasWindow] returns for a string number, by the windows
    [windowLoop] passes over. *)
Lemma hasWindow_eligible (this : Plugin) (num : jsstring) :
  (forall i,
      _hasWindow (Some num) this = (inr (Some i), this)
      <-> exists w, windows this !! i = Some w /\ eligible this num w
            /\ forall j w', (j < i)%nat -> windows this !! j = Some w' ->
                            ~ eligible this num w')
  /\ (_hasWindow (Some num) this = (inr None, this)
      <-> forall w, w ∈ windows this -> ~ eligible this num w)
  /\ (exists r, _hasWindow (Some num) this = (inr r, this)).
Proof.
  pose proof (windowLoop_spec this num (windows this) 0) as Hspec.
  unfold _hasWindow, get, mbind, M_bind, mret, M_ret.
  destruct (windowLoop _ _ (windows this) 0) as [i0|] eqn:Hloop.
  - destruct Hspec as (j & w & -> & Hj & Hw & Hfirst). simpl.
    split; [|split; [|by eexists]].
    + intros i. split.
      * intros [= <-]. by exists w.
      * intros (w1 & Hi & Hw1 & Hfirst1).
        destruct (Nat.lt_trichotomy i j) as [Hlt|[->|Hgt]]; [|done|].
        -- by destruct (Hfirst i w1).
        -- by destruct (Hfirst1 j w).
    + split; [done|]. intros Hnone. destruct (Hnone w); [|done].
      by apply list_elem_of_lookup_2 in Hj.
  - split; [|split; [|by eexists]].
    + intros i. split; [done|]. intros (w & Hi & Hw & _).
      destruct (Hspec w); [|done]. by apply list_elem_of_lookup_2 in Hi.
    + done.
Qed.

(** C7: for a string number, [_hasWindow] returns the window at index [i]
    exactly when that window matches (it belongs to this device and what
    is left of its number, once everything but the digits [0] to [9] is
    taken out, is what is left of the query) and is the first such
    window; it returns [false] exactly when no open window matches; it
    neither raises nor changes anything. The stripping in the code takes
    out the non-digits and nothing else: ["+1 (555) 123-4567"] becomes
    ["15551234567"]. On the sample device, whose window has that number,
    the window is found for ["15551234567"] and for ["1-555-123-4567"],
    and none is found for ["999"], for ["15551234568"], nor for the
    number without its country code, ["5551234567"]. *)
Theorem hasWindow_finds_matching_window (this : Plugin) (num : jsstring) :
  (forall i,
      _hasWindow (Some num) this = (inr (Some i), this)
      <-> exists w, windows this !! i = Some w /\ matching this num w
            /\ forall j w', (j < i)%nat -> windows this !! j = Some w' ->
                            ~ matching this num w')
  /\ (_hasWindow (Some num) this = (inr None, this)
      <-> forall w, w ∈ windows this -> ~ matching this num w)
  /\ (exists r, _hasWindow (Some num) this = (inr r, this))
  /\ (forall s d, DigitsOf s d <-> stripNonDigits s = d)
  /\ stripNonDigits (js "+1 (555) 123-4567") = js "15551234567"
  /\ stripNonDigits (js "15551234567") = js "15551234567"
  /\ _hasWindow (Some (js "15551234567")) Sample.plugin
     = (inr (Some 0%nat), Sample.plugin)
  /\ _hasWindow (Some (js "1-555-123-4567")) Sample.plugin
     = (inr (Some 0%nat), Sample.plugin)
  /\ _hasWindow (Some (js "999")) Sample.plugin = (inr None, Sample.plugin)
  /\ _hasWindow (Some (js "15551234568")) Sample.plugin
     = (inr None, Sample.plugin)
  /\ _hasWindow (Some (js "5551234567")) Sample.plugin
     = (inr None, Sample.plugin).
Proof.
  destruct (hasWindow_eligible this num) as (Hsome & Hnone & Hruns).
  split; [|split; [|split; [exact Hruns|]]].
  - intros i. rewrite Hsome. split; intros (w & Hi & Hw & Hfirst); exists w;
      (split; [done|]); (split; [by apply eligible_matching|]);
      intros j w' Hj Hw' Hm; apply (Hfirst j w' Hj Hw');
      by apply eligible_matching.
  - rewrite Hnone. split; intros H w Hin Hw; apply (H w Hin);
      by apply eligible_matching.
  - split; [apply DigitsOf_stripNonDigits|].
    repeat split; vm_compute; reflexivity.
Qed.

(** The theorem on the sample device, whose window has the number
    ["+1 (555) 123-4567"]: the window matches the query ["15551234567"],
    both having the digits ["15551234567"], and is the one returned. *)
Lemma hasWindow_finds_matching_window_witness :
  matching Sample.plugin (js "15551234567") Sample.window
  /\ _hasWindow (Some (js "15551234567")) Sample.plugin
     = (inr (Some 0%nat), Sample.plugin).
Proof.
  assert (Hm : matching Sample.plugin (js "15551234567") Sample.window).
  { split; [reflexivity|]. exists (js "15551234567").
    split; apply DigitsOf_stripNonDigits; vm_compute; reflexivity. }
  split; [exact Hm|].
  apply (proj1 (hasWindow_finds_matching_window Sample.plugin
                  (js "15551234567"))).
  exists Sample.window. split; [reflexivity|]. split; [exact Hm|].
  intros j w' Hj. lia.
Defined.

Lemma list_alter_lookup {A} (f : A -> A) (l : list A) (i : nat) (x : A) :
  l !! i = Some x -> alter f i l = <[i := f x]> l.
Proof.
  revert i. induction l as [|y l IH]; intros [|i] H; simpl in *; try done.
  - by injection H as ->.
  - f_equal. by apply IH.
Qed.

(** *** The relations the handlers keep *)

#[local] Instance sameEmitted_preorder : PreOrder sameEmitted.
Proof.
  split; [by intros a|]. intros a b c Hab Hbc. unfold sameEmitted in *.
  congruence.
Qed.

#[local] Instance sameState_preorder : PreOrder sameState.
Proof.
  split; [by intros a|]. intros a b c Hab Hbc. unfold sameState in *.
  congruence.
Qed.

Lemma emitted_record (e : Effect) (this : Plugin) :
  emitted (record e this) = emitted this ++ (if isEmit e then [e] else []).
Proof. unfold emitted. simpl. by rewrite List.filter_app. Qed.

Lemma withdrawn_record (e : Effect) (this : Plugin) :
  withdrawn (record e this)
  = withdrawn this ++ match e with
                      | WithdrawNotification id => [id]
                      | _ => []
                      end.
Proof. unfold withdrawn. simpl. rewrite omap_app. by destruct e. Qed.

Lemma sent_record (e : Effect) (this : Plugin) :
  sent (record e this)
  = sent this ++ match e with
                 | SendNotification id n => [(id, n)]
                 | _ => []
                 end.
Proof. unfold sent. simpl. rewrite omap_app. by destruct e. Qed.


Lemma keeps_perform_state (e : Effect) : keeps sameState (perform e).
Proof. apply keeps_modify. by intros this. Qed.



Lemma keeps_hasWindow (R : relation Plugin) `{!PreOrder R}
    (num : option jsstring) :
  keeps R (_hasWindow num).
Proof.
  destruct num; simpl; [|by apply keeps_throw].
  apply keeps_bind; [done|by apply keeps_get|intros; by apply keeps_ret].
Qed.

(** Follows a handler through its binds and branches; [leaf] settles the
    writes and the calls of other handlers. *)
Ltac keeps_walk leaf :=
  repeat lazymatch goal with
  | |- keeps _ (mret _) => apply keeps_ret; typeclasses eauto
  | |- keeps _ get => apply keeps_get; typeclasses eauto
  | |- keeps _ (throw _) => apply keeps_throw; typeclasses eauto
  | |- keeps _ (_hasWindow _) => apply keeps_hasWindow; typeclasses eauto
  | |- keeps _ (promise _) => apply keeps_promise
  | |- keeps _ (_ ≫= _) => apply keeps_bind; [typeclasses eauto| |intros ?]
  | |- keeps _ (match ?x with _ => _ end) => destruct x
  | |- _ => leaf
  end.


Ltac state_leaf :=
  idtac; lazymatch goal with
  | |- keeps _ (perform _) => apply keeps_perform_state
  | |- keeps _ (modify _) => apply keeps_modify; intros ?; reflexivity
  end.

Section Dispatch.

Variables Allow_SMS Allow_CALLS : Z.
Variable gettext : jsstring -> jsstring.
Variable format : jsstring -> list Value -> jsstring.
Variable getContact : option jsstring -> option jsstring -> Contact.
Variable cacheDir : jsstring.
Variable base64_decode : jsstring -> list N.

Local Abbreviation handlePacket :=
  (handlePacket Allow_SMS Allow_CALLS gettext format getContact cacheDir
                base64_decode).
Local Abbreviation _parsePacket := (_parsePacket getContact cacheDir base64_decode).
Local Abbreviation _onMissedCall := (_onMissedCall gettext format).
Local Abbreviation _onRinging := (_onRinging gettext format).
Local Abbreviation _onTalking := (_onTalking gettext format).





Lemma onSms_state ev : keeps sameState (_onSms ev).
Proof. unfold _onSms, notifyDuplicate, logInWindow. keeps_walk state_leaf. Qed.

Lemma onMissedCall_state ev : keeps sameState (_onMissedCall ev).
Proof.
  unfold Telephony._onMissedCall, notifyDuplicate, logInWindow.
  keeps_walk state_leaf.
Qed.

Lemma onRinging_state ev this : _state (_onRinging ev this).2 = Some 2%Z.
Proof. reflexivity. Qed.

Lemma onTalking_state ev this : _state (_onTalking ev this).2 = Some 2%Z.
Proof. reflexivity. Qed.

Lemma bind_inr {A B} (m : M A) (f : A -> M B) (this this' : Plugin) (a : A) :
  m this = (inr a, this') -> (m ≫= f) this = f a this'.
Proof. intros H. unfold mbind, M_bind. by rewrite H. Qed.


(** [_parsePacket] never raises; it copies the fields of the packet, takes
    the time and the contact, and touches only the contact store. *)
Lemma parsePacket_spec now uuid packet this :
  exists ev this1,
    _parsePacket now uuid packet this = (inr ev, this1)
    /\ event ev = p_event packet
    /\ phoneNumber ev = p_phoneNumber packet
    /\ messageBody ev = p_messageBody packet
    /\ isCancel ev = p_isCancel packet
    /\ time ev = now
    /\ name (contact ev)
       = name (getContact (p_contactName packet) (p_phoneNumber packet))
    /\ _state this1 = _state this
    /\ emitted this1 = emitted this
    /\ withdrawn this1 = withdrawn this
    /\ sent this1 = sent this
    /\ allow this1 = allow this.
Proof.
  unfold Telephony._parsePacket.
  destruct (truthy (p_phoneThumbnail packet));
    [destruct (truthy (avatar (getContact _ _)))|];
    [eexists _, this|
     eexists _, (record WriteCache (record (FileSetContents _ _) this))|
     eexists _, this];
    (split; [reflexivity|]);
    rewrite ?emitted_record, ?withdrawn_record, ?sent_record, ?app_nil_r;
    repeat split; reflexivity.
Qed.


Lemma promise_snd (m : M (bool + unit)) (this : Plugin) :
  (promise m this).2 = (m this).2.
Proof. unfold promise. by destruct (m this) as [[e|[v|[]]] this']. Qed.

Lemma resolve_snd (m : M bool) (this : Plugin) :
  (resolve m this).2 = (m this).2.
Proof.
  unfold resolve, mbind, M_bind. by destruct (m this) as [[e|v] this'].
Qed.

Lemma get_bind {A} (f : Plugin -> M A) (this : Plugin) :
  (get ≫= f) this = f this this.
Proof. reflexivity. Qed.

(** The media state after the dispatch: 2 when the event goes to
    [_onRinging] or [_onTalking], unchanged otherwise. *)
Lemma dispatch_state ev this :
  _state
    (promise
       (this ← get;
        if bool_decide (event ev = js "sms")
           && truthyNum (bitand (allow this) Allow_SMS)
        then resolve (_onSms ev)
        else if truthyNum (bitand (allow this) Allow_CALLS)
        then if bool_decide (event ev = js "missedCall")
             then resolve (_onMissedCall ev)
             else if bool_decide (event ev = js "ringing")
             then resolve (_onRinging ev)
             else if bool_decide (event ev = js "talking")
             then resolve (_onTalking ev)
             else perform (Log (js "Unknown telephony event"));; reject
        else reject) this).2
  = if truthyNum (bitand (allow this) Allow_CALLS)
       && (bool_decide (event ev = js "ringing")
           || bool_decide (event ev = js "talking"))
    then Some 2%Z
    else _state this.
Proof.
  assert (Hstring : js "ringing" ≠ js "sms" /\ js "talking" ≠ js "sms"
                    /\ js "ringing" ≠ js "missedCall"
                    /\ js "talking" ≠ js "missedCall"
                    /\ js "talking" ≠ js "ringing")
    by (repeat split; vm_compute; discriminate).
  destruct Hstring as (H1 & H2 & H3 & H4 & H5).
  pose proof (onSms_state ev this) as Hsms.
  pose proof (onMissedCall_state ev this) as Hmissed.
  unfold sameState in Hsms, Hmissed.
  rewrite promise_snd, get_bind.
  destruct (truthyNum (bitand (allow this) Allow_CALLS));
    destruct (truthyNum (bitand (allow this) Allow_SMS));
    rewrite ?andb_true_r, ?andb_false_r, ?andb_true_l, ?andb_false_l;
    repeat case_bool_decide; try congruence;
    rewrite ?resolve_snd, ?onRinging_state, ?onTalking_state; cbn [orb];
    first [ exact Hsms | exact Hmissed | reflexivity ].
Qed.

(** C3: a packet with [isCancel] set makes [handlePacket] return without
    a promise, leave the media state at 1, withdraw exactly one
    notification, the one named by the event kind and the contact's name,
    and emit no signal (nor send any notification). *)
Theorem cancel_withdraws_without_event now uuid packet this :
  p_isCancel packet = Some true ->
  exists this',
    handlePacket now uuid packet this = (inr ReturnsUndefined, this')
    /\ _state this' = Some 1%Z
    /\ withdrawn this'
       = withdrawn this
         ++ [p_event packet ++ js "|"
             ++ name (getContact (p_contactName packet) (p_phoneNumber packet))]
    /\ emitted this' = emitted this
    /\ sent this' = sent this.
Proof.
  intros Hcancel.
  destruct (parsePacket_spec now uuid packet this)
    as (ev & this1 & Hparse & Hev & _ & _ & Hc & _ & Hname & _ & Hem & Hwd & Hs
        & _).
  unfold Telephony.handlePacket. rewrite (bind_inr _ _ _ _ _ Hparse).
  rewrite Hc, Hcancel. simpl.
  eexists. split; [reflexivity|]. split; [reflexivity|].
  rewrite withdrawn_record, emitted_record, sent_record. simpl.
  rewrite app_nil_r, Hev, Hname. unfold withdrawn, emitted, sent in *.
  simpl. by rewrite Hwd, Hem, Hs, app_nil_r.
Qed.


(** C10: [_setMediaState(1)] stores 1 and [_setMediaState(2)] stores 2, the
    mask [2 & 2] leaving the 2 just stored as it is; [_onRinging] and
    [_onTalking] both end with 2 stored; after [handlePacket] the state
    is 1 on a cancel, 2 when a ringing or talking event is let through, and
    what it was before in every other case. *)
Theorem media_state_one_or_two now uuid packet ev this :
  (_setMediaState 1 this).2 = set_state 1 this
  /\ (_setMediaState 2 this).2 = set_state 2 this
  /\ bitand 2 2 = 2%Z
  /\ _state (_onRinging ev this).2 = Some 2%Z
  /\ _state (_onTalking ev this).2 = Some 2%Z
  /\ _state (handlePacket now uuid packet this).2
     = if default false (p_isCancel packet) then Some 1%Z
       else if truthyNum (bitand (allow this) Allow_CALLS)
               && (bool_decide (p_event packet = js "ringing")
                   || bool_decide (p_event packet = js "talking"))
       then Some 2%Z
       else _state this.
Proof.
  do 5 (split; [reflexivity|]).
  destruct (parsePacket_spec now uuid packet this)
    as (ev' & this1 & Hparse & Hev & _ & _ & Hc & _ & _ & Hst & _ & _ & _
        & Hallow).
  unfold Telephony.handlePacket. rewrite (bind_inr _ _ _ _ _ Hparse).
  rewrite Hc. destruct (default false (p_isCancel packet)); [reflexivity|].
  match goal with
  | |- context [perform ?e ≫= fun _ => promise ?m] =>
      change ((perform e ≫= fun _ => promise m) this1)
        with (promise m (record e this1));
      pose proof (dispatch_state ev' (record e this1)) as Hkeep
  end.
  rewrite Hkeep. cbn [allow record _state]. by rewrite Hev, Hallow, Hst.
Qed.

End Dispatch.

(** *** The window part of [_onSms] and [_onMissedCall] *)

Lemma markDuplicate_cancel (localId t1 t2 : jsstring)
    (table : gmap jsstring NotificationRecord) :
  markDuplicate localId t2 true (markDuplicate localId t1 false table) !! localId
  = Some {| ticker := t1; cancelled := true |}.
Proof.
  unfold markDuplicate. by rewrite lookup_alter_eq, lookup_insert_eq.
Qed.

Lemma markDuplicate_register (localId t1 : jsstring)
    (table : gmap jsstring NotificationRecord) :
  markDuplicate localId t1 false table !! localId
  = Some {| ticker := t1; cancelled := false |}.
Proof. unfold markDuplicate. by rewrite lookup_insert_eq. Qed.

Ltac run_handler :=
  cbv beta iota zeta delta
    [_onSms _onMissedCall _hasWindow notifyDuplicate logInWindow mbind M_bind
     get modify mret M_ret perform throw set_notification set_windows record
     device_id windows notification trace allow _state device_name
     dbus_object_path].

(** Runs [_onSms] or [_onMissedCall] on a state given field by field and
    settles [windowOutcome] from what [windowLoop] found. *)
Ltac window_outcome Hspec :=
  run_handler; cbn [device_id windows] in Hspec;
  let Hloop := fresh "Hloop" in
  destruct (windowLoop _ _ _ 0) as [index|] eqn:Hloop;
  eexists _, _; (split; [reflexivity|]); (split; [reflexivity|]);
  unfold windowOutcome; cbn [device_id windows notification];
  rewrite Hloop;
  [ destruct Hspec as (j & w & -> & Hj & Hw & _); simpl in Hj;
    split;
    [ eexists w, _; split; [exact Hj|]; split; [exact Hw|];
      split; [by apply list_alter_lookup|]; split; reflexivity
    | intros table ->; eexists _, _;
      split; [reflexivity|]; split; [apply markDuplicate_cancel|reflexivity] ]
  | split; [exact Hspec|]; split; [reflexivity|];
    intros table ->; eexists;
    split; [reflexivity|apply markDuplicate_register] ].

Section WindowPart.

Variable gettext : jsstring -> jsstring.
Variable format : jsstring -> list Value -> jsstring.

Lemma onSms_outcome ev num this :
  phoneNumber ev = Some num ->
  exists this' notif,
    _onSms ev this = (inr true, this')
    /\ trace this'
       = trace this
         ++ [SendNotification (event ev ++ js "|" ++ numToString (time ev)) notif]
    /\ windowOutcome (js "sms|")
         (name (contact ev) ++ js ": " ++ ToString (messageBody ev))
         (ToString (messageBody ev)) ev num this this'.
Proof.
  intros Hnum.
  pose proof (windowLoop_spec this num (windows this) 0) as Hspec.
  unfold _onSms. rewrite Hnum. destruct this. window_outcome Hspec.
Qed.

Lemma onMissedCall_outcome ev num this :
  phoneNumber ev = Some num ->
  exists this' notif,
    _onMissedCall gettext format ev this = (inr true, this')
    /\ trace this'
       = trace this
         ++ [SendNotification (event ev ++ js "|" ++ numToString (time ev)) notif]
    /\ windowOutcome (js "missedCall|")
         (gettext (js "Missed call") ++ js ": " ++ name (contact ev))
         (js "<i>" ++ format (gettext (js "Missed call at %s")) [Num (time ev)]
                   ++ js "</i>")
         ev num this this'.
Proof.
  intros Hnum.
  pose proof (windowLoop_spec this num (windows this) 0) as Hspec.
  unfold _onMissedCall. rewrite Hnum. destruct this. window_outcome Hspec.
Qed.

(** C1, amended: for an event with a phone number, [_onSms] and
    [_onMissedCall] each return [true] after sending exactly one
    notification, named by the event kind and the time, whether or not a
    window is found; when [_hasWindow] finds a window the event is also
    appended to that window's log, its urgency hint is raised and, if the
    notification plugin is loaded, the duplicate registered beforehand
    under the kind and the time is marked cancelled; when it finds none
    the windows are untouched and the registered duplicate stays pending. *)
Theorem window_logged_and_notification_sent ev num this :
  phoneNumber ev = Some num ->
  (exists this' notif,
      _onSms ev this = (inr true, this')
      /\ trace this'
         = trace this
           ++ [SendNotification (event ev ++ js "|" ++ numToString (time ev))
                 notif]
      /\ windowOutcome (js "sms|")
           (name (contact ev) ++ js ": " ++ ToString (messageBody ev))
           (ToString (messageBody ev)) ev num this this')
  /\ (exists this' notif,
         _onMissedCall gettext format ev this = (inr true, this')
         /\ trace this'
            = trace this
              ++ [SendNotification
                    (event ev ++ js "|" ++ numToString (time ev)) notif]
         /\ windowOutcome (js "missedCall|")
              (gettext (js "Missed call") ++ js ": " ++ name (contact ev))
              (js "<i>"
               ++ format (gettext (js "Missed call at %s")) [Num (time ev)]
               ++ js "</i>")
              ev num this this').
Proof.
  intros Hnum. split; [by apply onSms_outcome|by apply onMissedCall_outcome].
Qed.

End WindowPart.

(** C1, as stated, fails: with a conversation window open for the number of
    an incoming message, [_hasWindow] finds the window and [_onSms] still
    sends the notification. *)
Lemma notification_sent_despite_window :
  _hasWindow (phoneNumber Sample.smsEvent) Sample.plugin
  = (inr (Some 0%nat), Sample.plugin)
  /\ exists this' notif,
       _onSms Sample.smsEvent Sample.plugin = (inr true, this')
       /\ sent this' = [(js "sms|1500000000", notif)]
       /\ title notif = js "Ann" /\ text notif = js "hi".
Proof.
  split; [vm_compute; reflexivity|].
  eexists _, _. split; [vm_compute; reflexivity|].
  split; [vm_compute; reflexivity|]. split; reflexivity.
Qed.

(** The theorem on the sample device and message. *)
Lemma window_logged_and_notification_sent_witness :
  phoneNumber Sample.smsEvent = Some (js "15551234567")
  /\ exists this' notif,
    _onSms Sample.smsEvent Sample.plugin = (inr true, this')
    /\ trace this' = [SendNotification (js "sms|1500000000") notif]
    /\ windowOutcome (js "sms|") (js "Ann: hi") (js "hi") Sample.smsEvent
         (js "15551234567") Sample.plugin this'.
Proof.
  split; [reflexivity|].
  exact (proj1 (window_logged_and_notification_sent Sample.gettext
                  Sample.format Sample.smsEvent (js "15551234567")
                  Sample.plugin eq_refl)).
Defined.

(** The theorem at a cancelled ringing event. *)
Lemma cancel_withdraws_without_event_witness :
  p_isCancel Sample.cancel = Some true
  /\ exists this',
    handlePacket 4 2 Sample.gettext Sample.format Sample.getContact
      (js "/cache") (fun b64 => b64) 1500000000 (js "uuid") Sample.cancel
      Sample.plugin
    = (inr ReturnsUndefined, this')
    /\ _state this' = Some 1%Z
    /\ withdrawn this' = [js "ringing|Ann"]
    /\ emitted this' = []
    /\ sent this' = [].
Proof.
  split; [reflexivity|].
  exact (cancel_withdraws_without_event 4 2 Sample.gettext Sample.format
           Sample.getContact (js "/cache") (fun b64 => b64) 1500000000
           (js "uuid") Sample.cancel Sample.plugin eq_refl).
Defined.


(** * Further properties *)

(** ** Plain recipients and escaped bodies *)

Lemma below_forallb (P : N -> bool) (n : nat) :
  forallb P (List.map N.of_nat (seq 0 n)) = true ->
  forall c, c < N.of_nat n -> P c = true.
Proof.
  intros H c Hc. rewrite forallb_forall in H. apply H.
  apply in_map_iff. exists (N.to_nat c). split; [lia|].
  apply in_seq. lia.
Qed.

(** What [escape] writes for a code unit the expression accepts. *)
Lemma escape1_accepted (c : N) :
  acceptedUnit c = true ->
  (escape1 c = [c] /\ smsChar c = true /\ c ≠ 37)
  \/ (exists h1 h2, escape1 c = [37; h1; h2]
                    /\ upperHex h1 = true /\ upperHex h2 = true
                    /\ hex2 h1 h2 = Some c).
Proof.
  intros H.
  assert (Hc : c < N.of_nat 256).
  { unfold acceptedUnit in H. apply andb_prop in H as [H _].
    apply N.ltb_lt in H. lia. }
  pose (P := fun c =>
    negb (acceptedUnit c)
    || (if escape_unreserved c then smsChar c && negb (c =? 37)
        else upperHex (hexdigit (c / 16)) && upperHex (hexdigit (c mod 16))
             && bool_decide (hex2 (hexdigit (c / 16)) (hexdigit (c mod 16))
                             = Some c))).
  assert (HP : P c = true).
  { apply (below_forallb P 256); [vm_compute; reflexivity|done]. }
  unfold P in HP. rewrite H in HP. simpl in HP. unfold escape1.
  apply N.ltb_lt in Hc. change (N.of_nat 256) with 256 in Hc.
  destruct (escape_unreserved c).
  - left. apply andb_prop in HP as [H1 H2]. split; [done|]. split; [done|].
    apply negb_true_iff, N.eqb_neq in H2. done.
  - right. rewrite Hc. apply andb_prop in HP as [HP H3].
    apply andb_prop in HP as [H1 H2]. apply bool_decide_eq_true in H3.
    by eexists _, _.
Qed.

(** The value part of a query field: [(?:[\w.!~*'()-]|%[0-9A-F]{2})]. *)
Lemma run_value_escape1 {A} (k : Cont A) x c0 i s c :
  acceptedUnit c0 = true ->
  k (i + length (escape1 c0))%nat s c = Some x ->
  run (Disj (CharSet smsChar) pctEscape) i (escape1 c0 ++ s) c k = Some x.
Proof.
  intros Hc Hk.
  destruct (escape1_accepted c0 Hc)
    as [(He & Hs & _)|(h1 & h2 & He & H1 & H2 & _)]; rewrite He in *.
  - apply takes_ok; [done|]. by rewrite Nat.add_1_r in Hk.
  - rewrite run_Disj, (refuses_sound (CharSet smsChar)) by closed.
    unfold pctEscape. rewrite !run_Seq. simpl.
    rewrite H1, H2. simpl in Hk.
    by replace (S (S (S i))) with (i + 3)%nat by lia.
Qed.

Lemma escape1_length (c : N) : (0 < length (escape1 c))%nat.
Proof.
  unfold escape1. destruct (escape_unreserved c); [simpl; lia|].
  destruct (c <? 256); simpl; lia.
Qed.

Lemma escape_cons (c : N) (b : jsstring) :
  escape (c :: b) = escape1 c ++ escape b.
Proof. reflexivity. Qed.

Lemma starLoop_escape {A} (k : Cont A) x :
  forall b fuel i s c,
    Forall (fun a => acceptedUnit a = true) b ->
    (length (escape b) < fuel)%nat ->
    refuses (Disj (CharSet smsChar) pctEscape) (head s) = true ->
    k (i + length (escape b))%nat s c = Some x ->
    starLoop (fun i' s' c' k' =>
                run (Disj (CharSet smsChar) pctEscape) i' s' c' k')
             k fuel i (escape b ++ s) c = Some x.
Proof.
  induction b as [|c0 b IH]; intros fuel i s c Hb Hfuel Hs Hk.
  - change (escape [] ++ s) with s. rewrite starLoop_stop by done.
    by rewrite Nat.add_0_r in Hk.
  - inversion Hb as [|? ? Hc0 Hb']; subst.
    rewrite escape_cons, length_app in *. pose proof (escape1_length c0).
    destruct fuel as [|fuel]; [lia|]. cbn [starLoop].
    rewrite <- app_assoc.
    rewrite (run_value_escape1 _ x c0); [done|done|].
    rewrite (proj2 (Nat.ltb_lt i (i + length (escape1 c0)))) by lia.
    apply IH; [done|lia|done|]. by rewrite <- Nat.add_assoc.
Qed.

Lemma run_Star_escape {A} (k : Cont A) x b i s c :
  Forall (fun a => acceptedUnit a = true) b ->
  refuses (Disj (CharSet smsChar) pctEscape) (head s) = true ->
  k (i + length (escape b))%nat s c = Some x ->
  run (Star (Disj (CharSet smsChar) pctEscape)) i (escape b ++ s) c k = Some x.
Proof.
  intros. rewrite run_Star. apply starLoop_escape; try done.
  rewrite length_app. lia.
Qed.

Lemma plainNumber_cases (d : jsstring) :
  plainNumber d = true ->
  exists a t, Forall (fun x => digitChar x = true) (a :: t)
              /\ (d = a :: t \/ d = 43 :: a :: t).
Proof.
  destruct d as [|a t]; [done|]. simpl.
  destruct (N.eqb_spec a 43) as [->|Ha].
  - intros H. apply andb_prop in H as [H1 H2].
    destruct t as [|b t]; [done|]. exists b, t. split; [|by right].
    apply Forall_forall. intros y Hy. rewrite forallb_forall in H2.
    apply H2. by apply list_elem_of_In.
  - intros H. exists a, t. split; [|by left].
    apply Forall_forall. intros y Hy.
    change (forallb digitChar (a :: t) = true) in H.
    rewrite forallb_forall in H. apply H. by apply list_elem_of_In.
Qed.

Lemma run_lenientDigits_plain {A} (k : Cont A) x d i s c :
  plainNumber d = true ->
  refuses digitUnit (head s) = true ->
  k (i + length d)%nat s c = Some x ->
  run _lenientDigits i (d ++ s) c k = Some x.
Proof.
  intros Hd Hs Hk.
  destruct (plainNumber_cases d Hd) as (a & t & Hat & [->| ->]);
    assert (Ha : digitChar a = true) by (by inversion Hat);
    unfold _lenientDigits; rewrite !run_Seq.
  - rewrite run_Opt_skip by (by apply (refuses_Chr digitChar "+")).
    by apply run_Plus_run.
  - apply run_Opt_take. change ((43 :: a :: t) ++ s) with (43 :: (a :: t) ++ s).
    apply takes_ok; [closed|].
    apply run_Plus_run; [done|done|].
    by replace (S i + length (a :: t))%nat with (i + length (43%N :: a :: t))%nat
      by (simpl; lia).
Qed.

Lemma run_lenientNumber_plain {A} (k : Cont A) x d i s c :
  plainNumber d = true ->
  numberEnds (head s) = true ->
  k (i + length d)%nat s c = Some x ->
  run _lenientNumber i (d ++ s) c k = Some x.
Proof.
  intros Hd Hs Hk. apply andb_prop in Hs as [Hs1 Hs2].
  unfold _lenientNumber. rewrite run_Seq.
  apply run_lenientDigits_plain; [done|done|]. by rewrite run_Star_stop.
Qed.

Lemma numberEnds_more (ds : list jsstring) (s : jsstring) :
  numberEnds (head s) = true ->
  numberEnds (head (List.concat (List.map (cons (chr ",")) ds) ++ s)) = true.
Proof. by destruct ds. Qed.

(** [(?:,number)*] over the recipients after the first. *)
Lemma starLoop_numbers {A} (k : Cont A) x :
  forall ds fuel i s c,
    Forall (fun d => plainNumber d = true) ds ->
    (length (List.concat (List.map (cons (chr ",")) ds)) < fuel)%nat ->
    numberEnds (head s) = true ->
    refuses (Chr ",") (head s) = true ->
    k (i + length (List.concat (List.map (cons (chr ",")) ds)))%nat s c = Some x ->
    starLoop (fun i' s' c' k' =>
                run (Seq (Chr ",") _lenientNumber) i' s' c' k')
             k fuel i (List.concat (List.map (cons (chr ",")) ds) ++ s) c
    = Some x.
Proof.
  induction ds as [|d ds IH]; intros fuel i s c Hds Hfuel Hs Hcomma Hk.
  - cbn [List.map List.concat app] in *. rewrite starLoop_stop by done.
    by rewrite Nat.add_0_r in Hk.
  - inversion Hds as [|? ? Hd Hds']; subst.
    cbn [List.map List.concat] in *. rewrite length_app in *.
    cbn [length] in *.
    destruct fuel as [|fuel]; [lia|]. cbn [starLoop].
    match goal with
    | |- match ?R with _ => _ end = _ => assert (Hrun : R = Some x)
    end; [|by rewrite Hrun].
    rewrite run_Seq. rewrite <- app_assoc.
    change ((chr "," :: d) ++ ?r) with (chr "," :: d ++ r).
    apply takes_ok; [closed|].
    apply run_lenientNumber_plain; [done|by apply numberEnds_more|].
    rewrite (proj2 (Nat.ltb_lt i (S i + length d))) by lia.
    apply IH; [done|lia|done|done|].
    by replace (S i + length d + length (List.concat (List.map (cons (chr ",")) ds)))%nat
      with (i + (S (length d) + length (List.concat (List.map (cons (chr ",")) ds))))%nat
      by lia.
Qed.

Lemma join_concat (d : jsstring) (ds : list jsstring) :
  join (js ",") (d :: ds) = d ++ List.concat (List.map (cons (chr ",")) ds).
Proof.
  revert d. induction ds as [|d' ds IH]; intros d.
  - simpl. by rewrite app_nil_r.
  - change (join (js ",") (d :: d' :: ds))
      with (d ++ js "," ++ join (js ",") (d' :: ds)).
    rewrite IH. done.
Qed.

Lemma plainNumber_avoids (b : N) (d : jsstring) :
  digitChar b = false -> b ≠ 43 -> plainNumber d = true ->
  Forall (fun x => x ≠ b) d.
Proof.
  intros Hb Hplus Hd.
  destruct (plainNumber_cases d Hd) as (a & t & Hat & [->| ->]).
  - by apply (Forall_set_not digitChar).
  - constructor; [done|]. by apply (Forall_set_not digitChar).
Qed.

Lemma split_join (ds : list jsstring) (d : jsstring) :
  Forall (Forall (fun x => x ≠ chr ",")) (d :: ds) ->
  split (chr ",") (join (js ",") (d :: ds)) = d :: ds.
Proof.
  intros H. inversion H as [|? ? Hd Hds]; subst.
  rewrite join_concat, split_prefix by done.
  rewrite split_led by done. by rewrite app_nil_r.
Qed.

(** The first group of [_smsRegex] over plain recipients. *)
Lemma run_recipients {A} (k : Cont A) x d ds i s c :
  Forall (fun d => plainNumber d = true) (d :: ds) ->
  numberEnds (head s) = true ->
  refuses (Chr ",") (head s) = true ->
  k (i + length (join (js ",") (d :: ds)))%nat s
    (<[1%nat := Some (join (js ",") (d :: ds))]> c) = Some x ->
  run (Group 1 (Seq _lenientNumber (Star (Seq (Chr ",") _lenientNumber))))
      i (join (js ",") (d :: ds) ++ s) c k = Some x.
Proof.
  intros Hds Hs Hcomma Hk. inversion Hds as [|? ? Hd Hds']; subst.
  rewrite run_Group, run_Seq.
  rewrite join_concat in *. rewrite <- app_assoc.
  apply run_lenientNumber_plain; [done|by apply numberEnds_more|].
  rewrite run_Star. apply starLoop_numbers; [done| |done|done|].
  { rewrite length_app. lia. }
  rewrite length_app, Nat.add_assoc in Hk.
  rewrite app_assoc, take_sub_app; [done|]. rewrite length_app. lia.
Qed.

Lemma plainNumber_head (d : jsstring) (s : jsstring) :
  plainNumber d = true ->
  refuses (Chr "/") (head (d ++ s)) = true.
Proof.
  intros Hd. destruct (plainNumber_cases d Hd) as (a & t & Hat & [->| ->]).
  - apply (refuses_Chr digitChar "/"); [by inversion Hat|done].
  - done.
Qed.

(** The match of a URI made of plain recipients and the query [toString]
    writes for a body of accepted code units. *)
Lemma exec_smsRegex_plain (d : jsstring) (ds : list jsstring) (b : jsstring) :
  Forall (fun d => plainNumber d = true) (d :: ds) ->
  Forall (fun a => acceptedUnit a = true) b ->
  let rs := join (js ",") (d :: ds) in
  exec _smsRegex (js "sms:" ++ rs ++ bodyQuery (Some b))
  = Some [Some (js "sms:" ++ rs ++ bodyQuery (Some b)); Some rs;
          if b is [] then None else Some (js "body=" ++ escape b)].
Proof.
  intros Hds Hb rs. unfold _smsRegex. rewrite exec_anchored.
  set (uri := js "sms:" ++ rs ++ bodyQuery (Some b)). unfold uri at 1.
  assert (Hhead : forall s, refuses (Chr "/") (head (rs ++ s)) = true).
  { intros s. unfold rs. rewrite join_concat, <- app_assoc.
    apply plainNumber_head. by inversion Hds. }
  along. apply run_Lit_ok. along.
  rewrite run_Opt_skip by apply Hhead. along.
  destruct b as [|b0 b].
  - change (bodyQuery (Some [])) with (@nil N) in *.
    apply run_recipients; [done|closed|closed|].
    repeat along.
    change (<[0%nat := ?x]> (<[1%nat := ?z]> (replicate 3 None)))
      with [x; z; @None jsstring].
    unfold uri. rewrite app_nil_r.
    f_equal. f_equal. f_equal. apply take_ge. rewrite length_app. unfold rs.
    lia.
  - change (bodyQuery (Some (b0 :: b)))
      with (63 :: js "body=" ++ escape (b0 :: b)) in *.
    apply run_recipients; [done|closed|closed|].
    along. apply run_Opt_take. repeat along.
    change (js "body=" ++ escape (b0 :: b))
      with ((98 :: js "ody") ++ 61 :: escape (b0 :: b)).
    apply run_Plus_run; [by repeat constructor|closed|].
    repeat along.
    rewrite <- (app_nil_r (escape (b0 :: b))) at 1.
    apply run_Star_escape; [done|closed|].
    repeat along.
    rewrite captures3.
    change (length (js "sms:")) with 4%nat.
    change (length (98 :: js "ody")) with 4%nat.
    f_equal. f_equal; [|f_equal]; f_equal.
    + apply take_ge. unfold uri, rs. rewrite !length_app. simpl. lia.
    + f_equal. apply take_ge. rewrite length_app. simpl. lia.
Qed.

Lemma exec_numberRegex_plain (d : jsstring) :
  plainNumber d = true ->
  exec _numberRegex d = Some [Some d; Some d; Some []].
Proof.
  intros Hd. unfold _numberRegex. rewrite exec_anchored.
  repeat along. rewrite <- (app_nil_r d) at 1.
  apply run_lenientDigits_plain; [done|closed|].
  repeat along. rewrite captures3.
  f_equal. f_equal; [|f_equal; [|f_equal]]; f_equal.
  - apply take_ge. lia.
  - apply take_ge. lia.
  - by rewrite Nat.sub_diag.
Qed.

Lemma mapRecipient_plain (d : jsstring) :
  plainNumber d = true -> SmsURI.mapRecipient d = Ok d.
Proof.
  intros Hd. unfold SmsURI.mapRecipient. rewrite exec_numberRegex_plain by done.
  cbn [SmsURI.elem lookup list_lookup mjoin option_join ToString].
  by rewrite unescape_plain by (by apply plainNumber_avoids).
Qed.

Lemma mapM_mapRecipient_plain (ds : list jsstring) :
  Forall (fun d => plainNumber d = true) ds ->
  mapM SmsURI.mapRecipient ds = Ok ds.
Proof.
  induction 1 as [|d ds Hd _ IH]; [done|].
  cbn [mapM]. rewrite mapRecipient_plain by done.
  cbn [mbind Result_bind]. rewrite IH. done.
Qed.

Lemma Decode_enough (s : jsstring) :
  forall fuel, (length s <= fuel)%nat -> Decode fuel s = decodeURIComponent s.
Proof.
  unfold decodeURIComponent. intros fuel Hfuel.
  replace fuel with ((fuel - length s) + length s)%nat by lia.
  induction (fuel - length s)%nat as [|n IH]; [done|].
  simpl. rewrite <- IH. apply Decode_fuel. lia.
Qed.

(** [decodeURIComponent] undoes [escape] on code units below 128. *)
Lemma decode_escape (b : jsstring) :
  Forall (fun a => safeUnit a = true) b ->
  decodeURIComponent (escape b) = Ok b.
Proof.
  induction 1 as [|c b Hc _ IH]; [done|].
  assert (Hacc : acceptedUnit c = true).
  { unfold safeUnit, acceptedUnit in *. apply andb_prop in Hc as [H1 H2].
    rewrite H2, andb_true_r. apply N.ltb_lt in H1. apply N.ltb_lt. lia. }
  assert (H128 : (c <? 128) = true).
  { unfold safeUnit in Hc. by apply andb_prop in Hc as [H1 _]. }
  rewrite escape_cons. unfold decodeURIComponent.
  destruct (escape1_accepted c Hacc)
    as [(He & _ & H37)|(h1 & h2 & He & _ & _ & Hhex)]; rewrite He.
  - cbn [app length]. rewrite Decode_cons.
    rewrite (proj2 (N.eqb_neq c 37)) by done. cbn [negb].
    rewrite Decode_enough, IH by lia. done.
  - cbn [app length]. rewrite Decode_cons. cbn [N.eqb Pos.eqb negb].
    rewrite Hhex, H128. rewrite Decode_enough, IH by lia. done.
Qed.

Lemma escape_avoids (b0 : N) (b : jsstring) :
  escape_unreserved b0 = false -> upperHex b0 = false -> b0 ≠ 37 -> b0 ≠ 117 ->
  Forall (fun a => a ≠ b0) (escape b).
Proof.
  intros H1 H2 H3 H4. induction b as [|c b IH]; [done|].
  rewrite escape_cons. apply Forall_app. split; [|done].
  assert (Hhex : forall v, v < 16 -> upperHex (hexdigit v) = true).
  { intros v Hv. apply (below_forallb (fun v => upperHex (hexdigit v)) 16);
      [vm_compute; reflexivity|done]. }
  unfold escape1. destruct (escape_unreserved c) eqn:Hc.
  - repeat constructor. intros ->. congruence.
  - assert (forall v, v < 16 -> hexdigit v ≠ b0) as Hne.
    { intros v Hv Heq. specialize (Hhex v Hv). congruence. }
    assert (forall v, v mod 16 < 16) as Hmod by (intros; by apply N.mod_lt).
    destruct (c <? 256) eqn:H256.
    + apply N.ltb_lt in H256.
      repeat constructor; try done; apply Hne; [|apply Hmod].
      apply N.Div0.div_lt_upper_bound. lia.
    + repeat constructor; try done; apply Hne; apply Hmod.
Qed.

Lemma escape_no_separator (b : jsstring) :
  Forall (fun a => a ≠ chr "&") (escape b)
  /\ Forall (fun a => a ≠ chr "=") (escape b).
Proof. split; by apply escape_avoids. Qed.

(** Parsing a URI made of plain recipients and the query [toString] writes
    for a body of safe code units. *)
Lemma new_plain (d : jsstring) (ds : list jsstring) (b : jsstring) :
  Forall (fun d => plainNumber d = true) (d :: ds) ->
  Forall (fun a => safeUnit a = true) b ->
  SmsURI.new (js "sms:" ++ join (js ",") (d :: ds) ++ bodyQuery (Some b))
  = Ok {| SmsURI.recipients := Some (d :: ds);
          SmsURI.body := if b is [] then None else Some b |}.
Proof.
  intros Hds Hb. unfold SmsURI.new, SmsURI._init.
  assert (Hacc : Forall (fun a => acceptedUnit a = true) b).
  { eapply Forall_impl; [exact Hb|]. intros c Hc.
    unfold safeUnit, acceptedUnit in *. apply andb_prop in Hc as [H1 H2].
    rewrite H2, andb_true_r. apply N.ltb_lt in H1. apply N.ltb_lt. lia. }
  rewrite exec_smsRegex_plain by done.
  cbn [SmsURI.elem lookup list_lookup mjoin option_join].
  rewrite split_join.
  2:{ eapply Forall_impl; [exact Hds|]. intros d'. by apply plainNumber_avoids. }
  rewrite mapM_mapRecipient_plain by done.
  destruct b as [|b0 b]; [done|].
  change (truthy (Some (js "body=" ++ escape (b0 :: b)))) with true. cbv iota.
  cbn [ToString SmsURI.body SmsURI.recipients SmsURI.empty].
  destruct (escape_no_separator (b0 :: b)) as [Hamp Heq].
  rewrite split_absent by (apply Forall_app; split; [by repeat constructor|done]).
  rewrite queryLoop_body by done.
  assert (Hne : truthy (Some (escape (b0 :: b))) = true).
  { rewrite escape_cons. pose proof (escape1_length b0).
    destruct (escape1 b0); [simpl in *; lia|done]. }
  rewrite Hne, decode_escape by done. done.
Qed.

(** X1: a value with at least one recipient, all of them plain numbers
    (an optional [+] and characters of [[0-9A-F*#().-]]), and with no body
    or a non-empty body of code units below 128 other than [@], [+] and
    [/], is serialized by [toString] to a URI that the constructor parses
    back to the same value: same recipients in the same order, same
    body. *)
Theorem toString_new_roundtrip (x : SmsURI.t) :
  plainValue x = true ->
  exists uri, SmsURI.toString x = Ok uri /\ SmsURI.new uri = Ok x.
Proof.
  destruct x as [[[|d ds]|] b]; try done. unfold plainValue. cbn [SmsURI.recipients SmsURI.body].
  intros H. apply andb_prop in H as [Hds Hb].
  assert (Hds' : Forall (fun d => plainNumber d = true) (d :: ds)).
  { apply Forall_forall. intros y Hy. rewrite forallb_forall in Hds.
    apply Hds. by apply list_elem_of_In. }
  exists (js "sms:" ++ join (js ",") (d :: ds) ++ bodyQuery b).
  destruct b as [[|c b]|]; [done| |].
  - split.
    + unfold SmsURI.toString, bodyQuery. cbn [SmsURI.recipients SmsURI.body truthy].
      by rewrite <- app_assoc.
    + rewrite new_plain; [done|done|].
      apply Forall_forall. intros y Hy. rewrite forallb_forall in Hb.
      apply Hb. by apply list_elem_of_In.
  - split.
    + unfold SmsURI.toString, bodyQuery. cbn [SmsURI.recipients SmsURI.body truthy].
      by rewrite app_nil_r.
    + change (bodyQuery None) with (bodyQuery (Some [])).
      by rewrite new_plain.
Qed.

(** ** Bodies the expression has no place for *)

Lemma app_cons_unique {A} (x : A) (l1 r1 l2 r2 : list A) :
  Forall (fun a => a ≠ x) l1 -> Forall (fun a => a ≠ x) l2 ->
  l1 ++ x :: r1 = l2 ++ x :: r2 -> l1 = l2 /\ r1 = r2.
Proof.
  intros H1. revert l2. induction H1 as [|a l1 Ha _ IH]; intros l2 H2 H.
  - destruct H2 as [|b l2 Hb _]; simpl in H.
    + by injection H.
    + injection H as -> _. done.
  - destruct H2 as [|b l2 Hb H2]; simpl in H.
    + injection H as -> _. done.
    + injection H as -> H. destruct (IH l2 H2 H) as [-> ->]. done.
Qed.

(** What [_smsRegex] matches, keeping the grammar of the query. *)
Lemma exec_smsRegex_query (uri : jsstring) (arr : Captures) :
  exec _smsRegex uri = Some arr ->
  exists front q,
    uri = js "sms:" ++ front ++ q
    /\ Forall (fun a => a ≠ chr "?") front
    /\ (q = [] \/ exists qs, q = chr "?" :: qs /\ Lang queryRegex qs).
Proof.
  unfold _smsRegex. rewrite exec_anchored, run_Seq. intros H.
  apply run_sound in H as (w0 & s0 & -> & Hw0 & H); [|done].
  apply Lang_Lit in Hw0 as ->.
  rewrite run_Seq in H.
  apply run_sound in H as (w1 & s1 & -> & Hw1 & H); [|done].
  apply (Lang_avoids _ (chr "?")) in Hw1; [|closed].
  rewrite run_Seq in H.
  apply run_Group_sound in H as (rs & s2 & -> & Hrs & H); [|done].
  apply (Lang_avoids _ (chr "?")) in Hrs; [|closed].
  exists (w1 ++ rs), s2. rewrite <- app_assoc. split; [done|].
  split; [by apply Forall_app|].
  rewrite run_Seq in H. unfold Opt at 1 in H. rewrite run_Disj in H.
  fold queryRegex in H.
  match type of H with
  | match ?t with _ => _ end = _ => destruct t as [v|] eqn:Hq
  end.
  - injection H as ->. rewrite run_Seq in Hq.
    apply run_sound in Hq as (w3 & s3 & -> & (a & -> & Ha) & Hq); [|done].
    apply N.eqb_eq in Ha as <-.
    apply run_Group_sound in Hq as (qs & s4 & -> & Hqs & Hq); [|done].
    destruct s4; [|done]. right. exists qs. by rewrite app_nil_r.
  - cbn [run] in H. destruct s2; [|done]. by left.
Qed.

Lemma unreserved_accepted (c : N) :
  escape_unreserved c = true -> smsChar c = true -> acceptedUnit c = true.
Proof.
  intros H1 H2.
  assert (Hc : c < N.of_nat 128).
  { unfold escape_unreserved, isUpper, isLower, isDigit, between, oneOf in H1.
    simpl in H1.
    repeat (apply orb_prop in H1 as [H1|H1]); try discriminate;
      try (apply andb_prop in H1 as [_ H1]; apply N.leb_le in H1; lia);
      apply N.eqb_eq in H1; lia. }
  pose (P := fun c => negb (escape_unreserved c && smsChar c) || acceptedUnit c).
  assert (HP : P c = true)
    by (apply (below_forallb P 128); [vm_compute; reflexivity|done]).
  unfold P in HP. by rewrite H1, H2 in HP.
Qed.

Lemma reserved_accepted (c : N) :
  escape_unreserved c = false -> (c <? 256) = true -> acceptedUnit c = true.
Proof.
  intros H1 H2. unfold acceptedUnit. rewrite H2. simpl.
  unfold escape_unreserved in H1.
  repeat (apply orb_false_elim in H1 as [H1 ?]).
  apply negb_true_iff. unfold oneOf in *. simpl in *.
  repeat (apply orb_false_elim in H as [? H]).
  repeat (apply orb_false_intro; [done|]). done.
Qed.

(** A value of a query field that is what [escape] wrote for [b] shows
    that every code unit of [b] is an accepted one. *)
Lemma escape_value (b : jsstring) :
  forall ws,
    List.concat ws = escape b ->
    Forall (Lang (Disj (CharSet smsChar) pctEscape)) ws ->
    Forall (fun a => acceptedUnit a = true) b.
Proof.
  induction b as [|c b IH]; intros ws Hws Hlang; [done|].
  rewrite escape_cons in Hws. pose proof (escape1_length c) as Hlen.
  destruct Hlang as [|w ws Hw Hlang].
  { simpl in Hws. destruct (escape1 c); [simpl in Hlen; lia|done]. }
  simpl in Hws. unfold escape1 in *.
  destruct Hw as [(a & -> & Ha)|(w1 & w2 & -> & (p & -> & Hp)
                                  & (w3 & w4 & -> & (h1 & -> & Hh1)
                                     & (h2 & -> & Hh2)))].
  - destruct (escape_unreserved c) eqn:Hc.
    + injection Hws as -> Hws. constructor; [by apply unreserved_accepted|].
      by apply (IH ws).
    + destruct (c <? 256); injection Hws as -> _; done.
  - apply N.eqb_eq in Hp as <-.
    destruct (escape_unreserved c) eqn:Hc.
    + injection Hws as <- _. done.
    + destruct (c <? 256) eqn:H256.
      * injection Hws as _ _ Hws. constructor; [by apply reserved_accepted|].
        by apply (IH ws).
      * injection Hws as -> _ _. vm_compute in Hh1. done.
Qed.

Lemma join_avoids (x : N) (sep : jsstring) (rs : list jsstring) :
  Forall (fun a => a ≠ x) sep ->
  Forall (Forall (fun a => a ≠ x)) rs ->
  Forall (fun a => a ≠ x) (join sep rs).
Proof.
  intros Hsep. induction 1 as [|r rs Hr Hrs IH]; [done|].
  destruct rs as [|r' rs]; [done|].
  change (join sep (r :: r' :: rs)) with (r ++ sep ++ join sep (r' :: rs)).
  by repeat (apply Forall_app; split).
Qed.

Lemma Lang_more_fields (w : jsstring) :
  Lang (Star (Seq (Chr "&") _smsParam)) w ->
  w = [] \/ exists w', w = chr "&" :: w'.
Proof.
  intros (ws & -> & Hws). destruct Hws as [|w ws Hw _]; [by left|].
  destruct Hw as (w1 & w2 & -> & (a & -> & Ha) & _).
  apply N.eqb_eq in Ha as <-. right. by eexists.
Qed.

(** A URI whose query is [body=] and what [escape] wrote for [b] is only
    matched when every code unit of [b] is an accepted one. *)
Lemma exec_smsRegex_escape (front b : jsstring) (arr : Captures) :
  Forall (fun a => a ≠ chr "?") front ->
  exec _smsRegex (js "sms:" ++ front ++ js "?body=" ++ escape b) = Some arr ->
  Forall (fun a => acceptedUnit a = true) b.
Proof.
  intros Hfront Hexec.
  apply exec_smsRegex_query in Hexec as (front' & q & Huri & Hfront' & Hq).
  apply app_inv_head in Huri.
  destruct Hq as [->|(qs & -> & Hqs)].
  { rewrite app_nil_r in Huri. subst front'.
    apply Forall_app in Hfront' as [_ Hq]. by inversion Hq. }
  change (js "?body=" ++ escape b) with (chr "?" :: js "body=" ++ escape b)
    in Huri.
  apply app_cons_unique in Huri as [_ Hbody]; [|done|done].
  destruct Hqs as (f & w & -> & Hf & Hw).
  destruct Hf as (k & f' & -> & Hk & (w1 & v & -> & (a & -> & Ha) & Hv)).
  apply N.eqb_eq in Ha as <-.
  apply (Lang_avoids _ (chr "=")) in Hk; [|closed].
  change (js "body=" ++ escape b) with (js "body" ++ chr "=" :: escape b)
    in Hbody.
  rewrite <- !app_assoc in Hbody.
  change ([chr "="] ++ v ++ w) with (chr "=" :: (v ++ w)) in Hbody.
  apply app_cons_unique in Hbody as [_ Hbody];
    [|by repeat constructor|done].
  destruct (escape_no_separator b) as [Hamp _].
  apply Lang_more_fields in Hw as [->|(w' & ->)].
  - rewrite app_nil_r in Hbody. destruct Hv as (ws & -> & Hws).
    by apply (escape_value b ws).
  - rewrite Hbody in Hamp. apply Forall_app in Hamp as [_ Hamp].
    by inversion Hamp.
Qed.

(** X2: when the body contains [@], [+] or [/], which [escape] leaves as
    they are, or a code unit from 256 on, which [escape] writes as
    [%uXXXX], the URI that [toString] produces is one the constructor
    refuses as malformed, whatever the recipients are (as long as they
    contain no [?]). *)
Theorem toString_uri_rejected (rs : list jsstring) (b : jsstring) :
  Forall (Forall (fun a => a ≠ chr "?")) rs ->
  Exists (fun c => acceptedUnit c = false) b ->
  exists uri,
    SmsURI.toString {| SmsURI.recipients := Some rs; SmsURI.body := Some b |}
    = Ok uri
    /\ SmsURI.new uri = Err MalformedUri.
Proof.
  intros Hrs Hb.
  exists (js "sms:" ++ join (js ",") rs ++ js "?body=" ++ escape b). split.
  - unfold SmsURI.toString. cbn [SmsURI.recipients SmsURI.body ToString].
    destruct Hb; by rewrite <- app_assoc.
  - unfold SmsURI.new, SmsURI._init.
    destruct (exec _smsRegex _) as [arr|] eqn:Hexec; [|done].
    apply exec_smsRegex_escape in Hexec.
    + apply Exists_exists in Hb as (c & Hin & Hc).
      rewrite Forall_forall in Hexec. specialize (Hexec c Hin). congruence.
    + apply join_avoids; [by repeat constructor|done].
Qed.

(** ** The slashes after the scheme *)

Lemma run_ext (r : RegExp) {A} (k k' : Cont A) i s c :
  (forall i' s' c', k i' s' c' = k' i' s' c') ->
  run r i s c k = run r i s c k'.
Proof. intros H. apply run_positions. intros. apply H. Qed.

Lemma starLoop_shift {A} (r : RegExp) (k : Cont A) (d : nat) :
  (forall i s c (k : Cont A),
      run r (i + d) s c k = run r i s c (fun i' s' c' => k (i' + d)%nat s' c')) ->
  forall fuel i s c,
    starLoop (fun i' s' c' k' => run r i' s' c' k') k fuel (i + d) s c
    = starLoop (fun i' s' c' k' => run r i' s' c' k')
        (fun i' s' c' => k (i' + d)%nat s' c') fuel i s c.
Proof.
  intros Hr. induction fuel as [|fuel IH]; intros i s c; [done|].
  cbn [starLoop]. rewrite Hr.
  match goal with
  | |- match ?x with _ => _ end = match ?y with _ => _ end =>
      replace x with y; [done|]
  end.
  apply run_ext. intros i' s' c'. rewrite <- IH.
  destruct (Nat.ltb_spec i i'), (Nat.ltb_spec (i + d) (i' + d)); done || lia.
Qed.

(** Run [d] code units further on, an expression that does not ask for the
    start of the subject does what it does here. *)
Lemma run_shift (r : RegExp) (d : nat) :
  anywhere r = true ->
  forall A i s c (k : Cont A),
    run r (i + d) s c k = run r i s c (fun i' s' c' => k (i' + d)%nat s' c').
Proof.
  induction r as [|p|r1 IHr1 r2 IHr2|r1 IHr1 r2 IHr2|r IHr|g r IHr|r IHr| |];
    intros Hr A i s c k; simpl in Hr; try discriminate; cbn [run].
  - done.
  - by destruct s as [|x s]; [|destruct (p x)].
  - apply andb_prop in Hr as [H1 H2]. rewrite IHr1 by done.
    apply run_ext. intros. by apply IHr2.
  - apply andb_prop in Hr as [H1 H2]. by rewrite IHr1, IHr2.
  - apply starLoop_shift. intros. by apply IHr.
  - rewrite IHr by done. apply run_ext. intros i' s' c'.
    by replace (i' + d - (i + d))%nat with (i' - i)%nat by lia.
  - by rewrite IHr.
  - by destruct s.
Qed.

Lemma starLoop_rel {A B} (Q : A -> B -> Prop) (r : RegExp)
    (k1 : Cont A) (k2 : Cont B) :
  (forall i s c (k1 : Cont A) (k2 : Cont B),
      (forall i' s' c', option_Forall2 Q (k1 i' s' c') (k2 i' s' c')) ->
      option_Forall2 Q (run r i s c k1) (run r i s c k2)) ->
  (forall i' s' c', option_Forall2 Q (k1 i' s' c') (k2 i' s' c')) ->
  forall fuel i s c,
    option_Forall2 Q
      (starLoop (fun i' s' c' k' => run r i' s' c' k') k1 fuel i s c)
      (starLoop (fun i' s' c' k' => run r i' s' c' k') k2 fuel i s c).
Proof.
  intros Hr Hk. induction fuel as [|fuel IH]; intros i s c; [apply Hk|].
  cbn [starLoop].
  match goal with
  | |- option_Forall2 _ (match ?x with _ => _ end) (match ?y with _ => _ end) =>
      assert (Hstep : option_Forall2 Q x y)
  end.
  { apply Hr. intros i' s' c'. destruct (i <? i')%nat; [apply IH|constructor]. }
  destruct Hstep; [by constructor|apply Hk].
Qed.

(** Two continuations that fail together and otherwise give related
    results make related runs. *)
Lemma run_rel {A B} (Q : A -> B -> Prop) (r : RegExp) :
  forall i s c (k1 : Cont A) (k2 : Cont B),
    (forall i' s' c', option_Forall2 Q (k1 i' s' c') (k2 i' s' c')) ->
    option_Forall2 Q (run r i s c k1) (run r i s c k2).
Proof.
  induction r as [|p|r1 IHr1 r2 IHr2|r1 IHr1 r2 IHr2|r IHr|g r IHr|r IHr| |];
    intros i s c k1 k2 Hk; cbn [run].
  - apply Hk.
  - destruct s as [|x s]; [constructor|]. destruct (p x); [apply Hk|constructor].
  - apply IHr1. intros. by apply IHr2.
  - destruct (IHr1 i s c k1 k2 Hk); [by constructor|by apply IHr2].
  - by apply starLoop_rel.
  - apply IHr. intros. apply Hk.
  - destruct (run r i s c _); [constructor|apply Hk].
  - destruct (i =? 0)%nat; [apply Hk|constructor].
  - destruct s; [apply Hk|constructor].
Qed.

Lemma run_Lit {A} (k : Cont A) :
  forall l i s c, run (Lit l) i (l ++ s) c k = k (i + length l)%nat s c.
Proof.
  induction l as [|a l IH]; intros i s c; simpl.
  - by rewrite Nat.add_0_r.
  - rewrite N.eqb_refl, IH. f_equal. lia.
Qed.

(** No recipient starts with a slash. *)
Lemma afterSlashes_slash {A} (k : Cont A) i s c :
  run afterSlashes i (chr "/" :: s) c k = None.
Proof.
  unfold afterSlashes. rewrite run_Seq, run_Group, run_Seq.
  unfold _lenientNumber at 1. rewrite run_Seq.
  unfold _lenientDigits at 1. rewrite run_Seq.
  rewrite run_Opt_skip by closed. by apply refuses_sound.
Qed.

(** [exec] on a subject that starts with [sms:]. *)
Lemma exec_smsRegex_scheme_ok (s : jsstring) :
  exec _smsRegex (js "sms:" ++ s)
  = run (Opt (Seq (Chr "/") (Seq (Chr "/") (Opt (Chr "/"))))) 4 s
      (replicate 3 None)
      (fun i' s' c' =>
         run afterSlashes i' s' c'
           (fun i' _ c' =>
              Some (<[0%nat := Some (take (i' - 0) (js "sms:" ++ s))]> c'))).
Proof.
  unfold _smsRegex. rewrite exec_anchored, run_Seq, run_Lit. by rewrite run_Seq.
Qed.

Lemma slashes_none {A} (k : Cont A) s c :
  head s ≠ Some (chr "/") ->
  run (Opt (Seq (Chr "/") (Seq (Chr "/") (Opt (Chr "/"))))) 4 s c k = k 4%nat s c.
Proof.
  intros Hs. apply run_Opt_skip. destruct s as [|a s]; [done|].
  change (negb (N.eqb (chr "/") a) = true).
  destruct (N.eqb_spec (chr "/") a) as [<-|]; [by destruct Hs|done].
Qed.

Lemma exec_smsRegex_sameGroups (s1 s2 : jsstring) (d : nat) (s : jsstring) :
  option_Forall2 sameGroups
    (run afterSlashes (4 + d) s (replicate 3 None)
       (fun i' _ c' => Some (<[0%nat := Some (take (i' - 0) s1)]> c')))
    (run afterSlashes 4 s (replicate 3 None)
       (fun i' _ c' => Some (<[0%nat := Some (take (i' - 0) s2)]> c'))).
Proof.
  rewrite run_shift by done. apply run_rel. intros i' s' c'. constructor.
  by destruct c'.
Qed.

Lemma new_sameGroups (uri1 uri2 : jsstring) :
  option_Forall2 sameGroups (exec _smsRegex uri1) (exec _smsRegex uri2) ->
  SmsURI.new uri1 = SmsURI.new uri2.
Proof.
  intros H. unfold SmsURI.new, SmsURI._init. destruct H as [a b Hab|]; [|done].
  assert (He : forall n, SmsURI.elem (S n) a = SmsURI.elem (S n) b).
  { intros n. unfold SmsURI.elem. unfold sameGroups in Hab.
    destruct a, b; simpl in *; by subst. }
  by rewrite !He.
Qed.

Lemma run_Chr_eq {A} (a : ascii) (k : Cont A) i s c :
  run (Chr a) i (chr a :: s) c k = k (S i) s c.
Proof. unfold Chr. cbn [run]. by rewrite N.eqb_refl. Qed.

Lemma run_Chr_ne {A} (a : ascii) (k : Cont A) i s c :
  head s ≠ Some (chr a) -> run (Chr a) i s c k = None.
Proof.
  intros Hs. unfold Chr. cbn [run]. destruct s as [|x s]; [done|].
  destruct (N.eqb_spec (chr a) x) as [<-|]; [by destruct Hs|done].
Qed.

(** [(?:[/]{2,3})?] in front of something that does not start with a
    slash: two or three slashes are passed over, one or four stop the
    match. *)
Lemma slashes_cases {A} (K : Cont A) (s : jsstring) (c : Captures) :
  (forall i s c, K i (chr "/" :: s) c = None) ->
  head s ≠ Some (chr "/") ->
  let slashes := Opt (Seq (Chr "/") (Seq (Chr "/") (Opt (Chr "/")))) in
  run slashes 4 (chr "/" :: s) c K = None
  /\ run slashes 4 (chr "/" :: chr "/" :: s) c K = K 6%nat s c
  /\ run slashes 4 (chr "/" :: chr "/" :: chr "/" :: s) c K = K 7%nat s c
  /\ run slashes 4 (chr "/" :: chr "/" :: chr "/" :: chr "/" :: s) c K = None.
Proof.
  intros HK Hs slashes. unfold slashes, Opt.
  repeat split; rewrite run_Disj, run_Seq, run_Chr_eq, run_Seq.
  - rewrite run_Chr_ne by done. cbn [run]. apply HK.
  - rewrite run_Chr_eq, run_Disj, run_Chr_ne by done. cbn [run].
    rewrite HK. by destruct (K 6%nat s c).
  - rewrite run_Chr_eq, run_Disj, run_Chr_eq. cbn [run]. rewrite !HK.
    by destruct (K 7%nat s c).
  - rewrite run_Chr_eq, run_Disj, run_Chr_eq. cbn [run]. by rewrite !HK.
Qed.

(** X3: in front of anything that does not itself start with a slash,
    two or three slashes after [sms:] change nothing to what the
    constructor returns or raises, while one slash or four make the URI
    malformed. *)
Theorem slashes_after_scheme (s : jsstring) :
  head s ≠ Some (chr "/") ->
  SmsURI.new (js "sms://" ++ s) = SmsURI.new (js "sms:" ++ s)
  /\ SmsURI.new (js "sms:///" ++ s) = SmsURI.new (js "sms:" ++ s)
  /\ SmsURI.new (js "sms:/" ++ s) = Err MalformedUri
  /\ SmsURI.new (js "sms:////" ++ s) = Err MalformedUri.
Proof.
  intros Hs.
  change (js "sms://" ++ s) with (js "sms:" ++ chr "/" :: chr "/" :: s).
  change (js "sms:///" ++ s)
    with (js "sms:" ++ chr "/" :: chr "/" :: chr "/" :: s).
  change (js "sms:/" ++ s) with (js "sms:" ++ chr "/" :: s).
  change (js "sms:////" ++ s)
    with (js "sms:" ++ chr "/" :: chr "/" :: chr "/" :: chr "/" :: s).
  assert (Hcases : forall uri,
    let K : Cont Captures := fun i' s' c' =>
      run afterSlashes i' s' c'
        (fun i' _ c' => Some (<[0%nat := Some (take (i' - 0) uri)]> c')) in
    let slashes := Opt (Seq (Chr "/") (Seq (Chr "/") (Opt (Chr "/")))) in
    run slashes 4 (chr "/" :: s) (replicate 3 None) K = None
    /\ run slashes 4 (chr "/" :: chr "/" :: s) (replicate 3 None) K
       = K 6%nat s (replicate 3 None)
    /\ run slashes 4 (chr "/" :: chr "/" :: chr "/" :: s) (replicate 3 None) K
       = K 7%nat s (replicate 3 None)
    /\ run slashes 4 (chr "/" :: chr "/" :: chr "/" :: chr "/" :: s)
         (replicate 3 None) K = None).
  { intros uri K slashes. apply slashes_cases; [|done].
    intros. apply afterSlashes_slash. }
  split; [|split; [|split]].
  - apply new_sameGroups. rewrite !exec_smsRegex_scheme_ok.
    rewrite (proj1 (proj2 (Hcases _))), slashes_none by done.
    apply (exec_smsRegex_sameGroups _ _ 2).
  - apply new_sameGroups. rewrite !exec_smsRegex_scheme_ok.
    rewrite (proj1 (proj2 (proj2 (Hcases _)))), slashes_none by done.
    apply (exec_smsRegex_sameGroups _ _ 3).
  - unfold SmsURI.new, SmsURI._init. rewrite exec_smsRegex_scheme_ok.
    by rewrite (proj1 (Hcases _)).
  - unfold SmsURI.new, SmsURI._init. rewrite exec_smsRegex_scheme_ok.
    by rewrite (proj2 (proj2 (proj2 (Hcases _)))).
Qed.

(** ** What the constructor leaves in [recipients] *)

Lemma mapM_Ok {A B} (f : A -> Result B) (l : list A) (l' : list B) :
  mapM f l = Ok l' -> Forall2 (fun x y => f x = Ok y) l l'.
Proof.
  revert l'. induction l as [|x l IH]; intros l' H; cbn [mapM] in H.
  - injection H as <-. constructor.
  - destruct (f x) as [y|] eqn:Hx; [|done]. cbn [mbind Result_bind] in H.
    destruct (mapM f l) as [ys|]; [|done]. injection H as <-.
    constructor; [done|by apply IH].
Qed.

Lemma unescape_nonempty (s : jsstring) : s ≠ [] -> unescape s ≠ [].
Proof.
  destruct s as [|c t]; [done|]. intros _. cbn [unescape].
  destruct (negb (c =? 37)); [done|].
  destruct t as [|h1 [|h2 t2]]; try done.
  destruct (hex2 h1 h2), t2 as [|h3 [|h4 [|h5 t5]]]; try done;
    destruct (h1 =? 117); try done; by destruct (hex4 h2 h3 h4 h5).
Qed.

Lemma Lang_lenientDigits_nonempty (w : jsstring) :
  Lang _lenientDigits w -> w ≠ [].
Proof.
  intros (w1 & w2 & -> & _ & (u & v & -> & Hu & _)).
  assert (u ≠ []) as Hne.
  { destruct Hu as [(a & -> & _)|[(x & y & -> & (a & -> & _) & _)|
                                    (x & y & -> & Hx & _)]];
      try done.
    apply Lang_Lit in Hx as ->. done. }
  destruct w1, u; done.
Qed.

(** Whatever the tel parameters are, a recipient is mapped to a string
    that is not empty. *)
Lemma mapRecipient_nonempty (recipient r : jsstring) :
  SmsURI.mapRecipient recipient = Ok r -> r ≠ [].
Proof.
  intros H. destruct (exec _numberRegex recipient) as [arr|] eqn:Hexec.
  2:{ unfold SmsURI.mapRecipient in H. by rewrite Hexec in H. }
  rewrite (mapRecipient_paramsLoop _ _ Hexec) in H.
  apply exec_numberRegex_sound in Hexec
    as (number & params & -> & -> & Hnum & Hpar).
  apply Lang_telParams in Hpar as (kvs & -> & Hkvs).
  change (SmsURI.elem 2 [_; _; ?p]) with p in H.
  change (SmsURI.elem 1 [_; ?n; _]) with n in H.
  rewrite telParams_text, paramsLoop_pairs in H by done.
  apply Lang_lenientDigits_nonempty, unescape_nonempty in Hnum.
  injection H as <-. cbn [ToString].
  destruct (List.find _ _) as [kv|]; [|done].
  intros Heq. by apply app_eq_nil in Heq as [_ Heq].
Qed.

Lemma startsWith_app (s t : jsstring) : startsWith (s ++ t) s = true.
Proof.
  induction s as [|a s IH]; [by destruct t|]. cbn [app startsWith].
  by rewrite N.eqb_refl.
Qed.

(** X4: whenever the constructor returns, [recipients] holds at least one
    recipient and none of them is the empty string, so that [toString]
    does not raise on the value and gives a string that starts with
    [sms:] and the first recipient. *)
Theorem parsed_recipients (uri : jsstring) (o : SmsURI.t) :
  SmsURI.new uri = Ok o ->
  exists r rs,
    SmsURI.recipients o = Some (r :: rs)
    /\ Forall (fun x => x ≠ []) (r :: rs)
    /\ exists s, SmsURI.toString o = Ok s
                 /\ startsWith s (js "sms:" ++ r) = true.
Proof.
  intros H. unfold SmsURI.new, SmsURI._init in H.
  destruct (exec _smsRegex uri) as [arr|]; [|done].
  destruct (SmsURI.elem 1 arr) as [rs0|]; [|done].
  destruct (mapM SmsURI.mapRecipient (split (chr ",") rs0)) as [mapped|] eqn:Hmap;
    [|done].
  assert (Hrec : SmsURI.recipients o = Some mapped).
  { destruct (truthy (SmsURI.elem 2 arr)).
    - destruct (SmsURI.queryLoop _ _) as [b [e|]]; [done|]. by injection H as <-.
    - by injection H as <-. }
  apply mapM_Ok in Hmap.
  destruct (split_cons (chr ",") rs0) as (p & ps & Hsplit). rewrite Hsplit in Hmap.
  inversion Hmap as [|? r ? rs Hr Hrs]; subst.
  exists r, rs. split; [done|]. split.
  - constructor; [by apply (mapRecipient_nonempty p)|].
    clear -Hrs. induction Hrs as [|x y l l' Hxy _ IH]; constructor; [|done].
    by apply (mapRecipient_nonempty x).
  - unfold SmsURI.toString. rewrite Hrec.
    assert (exists t, join (js ",") (r :: rs) = r ++ t) as [t ->].
    { destruct rs as [|r' rs']; [|by eexists].
      exists []. by rewrite app_nil_r. }
    destruct (truthy (SmsURI.body o)); eexists; (split; [reflexivity|]);
      rewrite <- ?app_assoc; rewrite (app_assoc (js "sms:"));
      apply startsWith_app.
Qed.

(** ** When the duplicate-field error is raised *)

Lemma plainPair_split (sep : N) (kv : jsstring * jsstring) :
  SmsURI.plainPair sep kv ->
  Forall (fun a => a ≠ chr "=") kv.1 /\ Forall (fun a => a ≠ chr "=") kv.2.
Proof.
  intros [Hk Hv]. split; (eapply Forall_impl; [eassumption|]); by intros a [? ?].
Qed.

(** With a body stored, the loop raises at the next [body] field and
    otherwise changes nothing. *)
Lemma queryLoop_stored (fields : list (jsstring * jsstring))
    (b : option jsstring) :
  Forall (SmsURI.plainPair (chr "&")) fields ->
  truthy b = true ->
  SmsURI.queryLoop (List.map SmsURI.pairText fields) b
  = (b, if existsb SmsURI.isBody fields then Some DuplicateField else None).
Proof.
  intros Hf Hb. induction Hf as [|[k v] fields Hkv _ IH]; [done|].
  destruct (plainPair_split _ _ Hkv) as [Hk Hv].
  cbn [List.map]. rewrite queryLoop_pair by done.
  cbn [existsb]. unfold SmsURI.isBody at 1. cbn [fst].
  destruct (bool_decide (k = js "body")); [by rewrite Hb|done].
Qed.

Lemma Duplicate_skip (kv : jsstring * jsstring)
    (fields : list (jsstring * jsstring)) :
  SmsURI.isBody kv = false \/ kv.2 = [] ->
  Duplicate (kv :: fields) <-> Duplicate fields.
Proof.
  intros Hkv. split.
  - intros ([|kv0 before] & kv' & after & Heq & Hbody & Hval & Hafter);
      injection Heq as -> ->.
    + destruct Hkv; congruence.
    + by exists before, kv', after.
  - intros (before & kv' & after & -> & Hbody & Hval & Hafter).
    by exists (kv :: before), kv', after.
Qed.

Lemma Duplicate_first (kv : jsstring * jsstring)
    (fields : list (jsstring * jsstring)) :
  SmsURI.isBody kv = true -> kv.2 ≠ [] ->
  Duplicate (kv :: fields) <-> existsb SmsURI.isBody fields = true.
Proof.
  intros Hbody Hval. rewrite existsb_exists. split.
  - intros ([|kv0 before] & kv' & after & Heq & Hbody' & Hval' & Hafter);
      injection Heq as -> ->.
    + apply Exists_exists in Hafter as (x & Hx & Hxb).
      exists x. split; [by apply list_elem_of_In|done].
    + exists kv'. split; [|done]. apply in_or_app. right. by left.
  - intros (x & Hx & Hxb). exists [], kv, fields.
    split; [done|]. split; [done|]. split; [done|].
    apply Exists_exists. exists x. split; [by apply list_elem_of_In|done].
Qed.

(** What the loop over the fields of a query does, from an object without
    a body. *)
Lemma queryLoop_spec (fields : list (jsstring * jsstring)) :
  Forall (SmsURI.plainPair (chr "&")) fields ->
  Decodable fields ->
  ((SmsURI.queryLoop (List.map SmsURI.pairText fields) None).2
   = Some DuplicateField <-> Duplicate fields)
  /\ (~ Duplicate fields ->
      SmsURI.queryLoop (List.map SmsURI.pairText fields) None
      = (SmsURI.bodyOf fields, None)).
Proof.
  intros Hf Hd.
  induction Hf as [|[k v] fields Hkv Hf IH].
  - split; [|done]. split; [done|].
    intros ([|? ?] & ? & ? & ? & _); done.
  - inversion Hd as [|? ? Hv0 Hd']; subst. specialize (IH Hd').
    destruct (plainPair_split _ _ Hkv) as [Hk Hv].
    cbn [List.map]. rewrite queryLoop_pair by done. cbn [truthy].
    unfold SmsURI.bodyOf. cbn [List.filter].
    destruct (SmsURI.isBody (k, v)) eqn:Hbody; unfold SmsURI.isBody in Hbody;
      cbn [fst] in Hbody; rewrite Hbody.
    + assert (Hval : v = [] \/ exists d, decodeURIComponent v = Ok d)
        by (by apply Hv0).
      destruct v as [|a v].
      * rewrite (Duplicate_skip (k, [])) by (by right).
        split; [apply IH|]. intros Hdup. rewrite (proj2 IH Hdup).
        unfold SmsURI.bodyOf. rewrite last_cons.
        by destruct (last (List.filter SmsURI.isBody fields)).
      * destruct Hval as [Hval|(d & Hdec)]; [done|]. rewrite Hdec.
        assert (Htruthy : truthy (Some d) = true).
        { apply Decode_nonempty in Hdec. by destruct d. }
        rewrite queryLoop_stored by done.
        rewrite (Duplicate_first (k, a :: v)) by done. cbn [snd].
        destruct (existsb SmsURI.isBody fields) eqn:Hex.
        -- split; [done|]. by intros [].
        -- split; [done|]. intros _. f_equal.
           assert (Hnone : List.filter SmsURI.isBody fields = []).
           { clear -Hex. induction fields as [|x l IHl]; [done|].
             cbn [existsb] in Hex. apply orb_false_elim in Hex as [Hx Hl].
             cbn [List.filter]. rewrite Hx. by apply IHl. }
           rewrite Hnone. cbn [last mbind option_bind snd].
           unfold SmsURI.fieldBody. by rewrite Hdec.
    + rewrite (Duplicate_skip (k, v)) by (by left). exact IH.
Qed.

(** X5: for a URI that [_smsRegex] matches with the query fields
    [fields], whose recipients are all mapped and whose [body] values can
    be decoded, the constructor raises the duplicate-field [URIError]
    exactly when a [body] field with a non-empty value is followed by
    another [body] field; otherwise it returns the mapped recipients and
    the body of the last [body] field. [body] fields with an empty value
    never count as a first occurrence. *)
Theorem duplicate_field_exactly (uri rs : jsstring)
    (fields : list (jsstring * jsstring)) (mapped : list jsstring) :
  exec _smsRegex uri = Some [Some uri; Some rs; SmsURI.queryText fields] ->
  mapM SmsURI.mapRecipient (split (chr ",") rs) = Ok mapped ->
  Forall (SmsURI.plainPair (chr "&")) fields ->
  Decodable fields ->
  (SmsURI.new uri = Err DuplicateField <-> Duplicate fields)
  /\ (~ Duplicate fields ->
      SmsURI.new uri = Ok {| SmsURI.recipients := Some mapped;
                             SmsURI.body := SmsURI.bodyOf fields |}).
Proof.
  intros Hexec Hmap Hf Hd. unfold SmsURI.new, SmsURI._init. rewrite Hexec.
  change (SmsURI.elem 1 [_; ?x; _]) with x.
  change (SmsURI.elem 2 [_; _; ?x]) with x.
  cbv beta iota. rewrite Hmap.
  destruct fields as [|kv kvs].
  - cbn. split; [|done]. split; [done|].
    intros ([|? ?] & ? & ? & ? & _); done.
  - destruct (split_queryString kv kvs Hf) as [Hsplit Htruthy].
    unfold SmsURI.queryText. rewrite Htruthy. cbn [ToString SmsURI.body].
    rewrite Hsplit.
    destruct (queryLoop_spec (kv :: kvs) Hf Hd) as [Hiff Hnone].
    change (SmsURI.body SmsURI.empty) with (@None jsstring).
    destruct (SmsURI.queryLoop _ None) as [b [e|]] eqn:Hloop; cbn [snd] in *.
    + split.
      * rewrite <- Hiff. split; congruence.
      * intros Hdup. by specialize (Hnone Hdup).
    + split.
      * rewrite <- Hiff. split; congruence.
      * intros Hdup. specialize (Hnone Hdup). by injection Hnone as <-.
Qed.

(** ** The media state for any argument *)

Lemma land_2 (y : Z) : Z.land y 2 = (if Z.testbit y 1 then 2 else 0)%Z.
Proof.
  apply Z.bits_inj'. intros n Hn. rewrite Z.land_spec.
  change 2%Z with (2 ^ 1)%Z. rewrite Z.pow2_bits_eqb by lia.
  destruct (Z.eqb_spec 1 n) as [<-|Hne].
  - destruct (Z.testbit y 1); [by rewrite Z.pow2_bits_eqb|by rewrite Z.bits_0].
  - rewrite andb_false_r.
    destruct (Z.testbit y 1); [|by rewrite Z.bits_0].
    rewrite Z.pow2_bits_eqb by lia. symmetry. by apply Z.eqb_neq.
Qed.

Lemma bitand_comm (a b : Z) : bitand a b = bitand b a.
Proof. unfold bitand. apply Z.land_comm. Qed.

Lemma bitand_2 (state : Z) :
  bitand state 2 = (if truthyNum (bitand state 2) then 2 else 0)%Z.
Proof.
  unfold truthyNum, bitand. change (ToInt32 2) with 2%Z. rewrite land_2.
  by destruct (Z.testbit (ToInt32 state) 1).
Qed.

(** X6: for every integer [state], [_setMediaState(state)] does not raise
    and changes nothing but [_state], in which it leaves 1 when [state] is
    1, else 2 when bit 1 of [state] is set, else 0 when bit 2 is set (as
    for [state = 4]), else 2. *)
Theorem setMediaState_any (state : Z) (this : Plugin) :
  _setMediaState state this
  = (inr tt,
     set_state (if (state =? 1)%Z then 1
                else if truthyNum (bitand state 2) then 2
                else if truthyNum (bitand state 4) then 0
                else 2)%Z this).
Proof.
  unfold _setMediaState. destruct (state =? 1)%Z; [done|].
  unfold mbind, M_bind, modify, get. cbn [set_state _state from_option].
  unfold id.
  pose proof (bitand_2 state) as H2. rewrite (bitand_comm 2 state).
  destruct (truthyNum (bitand state 2)); [by rewrite H2|].
  destruct (truthyNum (bitand state 4)); [by rewrite H2|done].
Qed.

(** ** What no packet changes *)
Import History.

#[local] Instance sameDevice_preorder : PreOrder sameDevice.
Proof.
  split.
  - intros a. by repeat split.
  - intros a b c (H1 & H2 & H3 & H4 & H5 & H6 & H7)
                 (G1 & G2 & G3 & G4 & G5 & G6 & G7).
    repeat split; try congruence; try tauto.
    by etransitivity.
Qed.

Lemma keeps_perform_device (e : Effect) : keeps sameDevice (perform e).
Proof.
  apply keeps_modify. intros this. repeat split; try done.
  by apply prefix_app_r.
Qed.

Lemma keeps_state_device (v : Z) : keeps sameDevice (modify (set_state v)).
Proof. apply keeps_modify. intros this. by repeat split. Qed.

Lemma keeps_setMediaState_device (state : Z) :
  keeps sameDevice (_setMediaState state).
Proof.
  intros this. unfold _setMediaState.
  destruct (state =? 1)%Z; [by repeat split|].
  unfold mbind, M_bind, modify, get.
  destruct (truthyNum (bitand state 2)); [by repeat split|].
  destruct (truthyNum (bitand state 4)); by repeat split.
Qed.

Lemma keeps_notifyDuplicate_device localId tick cancel :
  keeps sameDevice (notifyDuplicate localId tick cancel).
Proof.
  apply keeps_modify. intros this. repeat split; try done;
    cbn [notification set_notification];
    rewrite fmap_is_Some; done.
Qed.

Lemma keeps_logInWindow_device index ev msg :
  keeps sameDevice (logInWindow index ev msg).
Proof.
  apply keeps_modify. intros this. repeat split; try done.
  cbn [windows set_windows]. generalize (windows this). clear.
  intros wins. revert index. induction wins as [|w wins IH]; intros [|index];
    try done.
  cbn. f_equal. apply IH.
Qed.

Ltac device_leaf :=
  idtac; lazymatch goal with
  | |- keeps _ (perform _) => apply keeps_perform_device
  | |- keeps _ (modify (set_state _)) => apply keeps_state_device
  | |- keeps _ (_setMediaState _) => apply keeps_setMediaState_device
  | |- keeps _ (notifyDuplicate _ _ _) => apply keeps_notifyDuplicate_device
  | |- keeps _ (logInWindow _ _ _) => apply keeps_logInWindow_device
  end.

Section Frame.

Variables Allow_SMS Allow_CALLS : Z.
Variable gettext : jsstring -> jsstring.
Variable format : jsstring -> list Value -> jsstring.
Variable getContact : option jsstring -> option jsstring -> Contact.
Variable cacheDir : jsstring.
Variable base64_decode : jsstring -> list N.

Lemma handlePacket_device now uuid packet :
  keeps sameDevice
    (handlePacket Allow_SMS Allow_CALLS gettext format getContact cacheDir
       base64_decode now uuid packet).
Proof.
  unfold handlePacket, _parsePacket, resolve, reject, _onSms, _onMissedCall,
    _onRinging, _onTalking.
  keeps_walk device_leaf.
Qed.

Lemma handleAll_device (arrivals : list Arrival) :
  forall this,
    sameDevice this
      (handleAll Allow_SMS Allow_CALLS gettext format getContact cacheDir
         base64_decode arrivals this).
Proof.
  induction arrivals as [|a arrivals IH]; intros this; [reflexivity|].
  cbn [handleAll foldl]. etransitivity; [apply handlePacket_device|apply IH].
Qed.

Lemma windowLoop_identity (id num : jsstring) (wins wins' : list Window) :
  identity <$> wins' = identity <$> wins ->
  forall k, windowLoop id num wins' k = windowLoop id num wins k.
Proof.
  revert wins'. induction wins as [|w wins IH]; intros [|w' wins'] H k;
    try done.
  injection H as Hd Hn Hwins.
  cbn [windowLoop]. rewrite Hd, Hn, !(IH wins' Hwins). done.
Qed.

(** X7: whatever packets are handled, one after the other, the
    permissions, the device and the D-Bus path stay what they were, the
    same windows stay open for the same devices and numbers, the
    notification plugin stays loaded or not, the calls recorded so far are
    only added to, and [_hasWindow] answers every query as it did
    before. *)
Theorem packets_keep_device (arrivals : list Arrival) (this : Plugin) :
  let this' := handleAll Allow_SMS Allow_CALLS gettext format getContact
                 cacheDir base64_decode arrivals this in
  sameDevice this this'
  /\ forall num, (_hasWindow num this').1 = (_hasWindow num this).1.
Proof.
  intros this'. pose proof (handleAll_device arrivals this) as Hdev.
  fold this' in Hdev. clearbody this'.
  split; [exact Hdev|]. intros [num|]; [|done].
  destruct Hdev as (_ & Hid & _ & _ & _ & Hwins & _).
  unfold _hasWindow, mbind, M_bind, get, mret, M_ret. cbn [fst].
  rewrite Hid. f_equal. by apply windowLoop_identity.
Qed.

Lemma handlePacket_state now uuid packet this :
  _state (handlePacket Allow_SMS Allow_CALLS gettext format getContact cacheDir
            base64_decode now uuid packet this).2
  = mediaState Allow_CALLS (allow this) (_state this)
      {| now := now; uuid := uuid; packet := packet |}.
Proof.
  destruct (parsePacket_spec getContact cacheDir base64_decode
              now uuid packet this)
    as (ev & this1 & Hparse & Hev & _ & _ & Hc & _ & _ & Hst & _ & _ & _
        & Hallow).
  unfold handlePacket, mediaState. cbn [History.packet].
  rewrite (bind_inr _ _ _ _ _ Hparse).
  rewrite Hc. destruct (default false (p_isCancel packet)); [reflexivity|].
  match goal with
  | |- context [perform ?e ≫= fun _ => promise ?m] =>
      change ((perform e ≫= fun _ => promise m) this1)
        with (promise m (record e this1));
      pose proof (dispatch_state Allow_SMS Allow_CALLS gettext format ev
                    (record e this1)) as Hkeep
  end.
  rewrite Hkeep. cbn [allow record _state]. by rewrite Hev, Hallow, Hst.
Qed.

(** X16: the media state after any sequence of packets is that of the
    last packet that is a cancel (1) or a ringing or talking event let
    through by the permission for calls (2), and what it was before when
    there is no such packet; so a media state that is unset, 1 or 2 stays
    unset, 1 or 2 whatever packets arrive. *)
Theorem media_state_after_packets (arrivals : list Arrival) (this : Plugin) :
  let this' := handleAll Allow_SMS Allow_CALLS gettext format getContact
                 cacheDir base64_decode arrivals this in
  _state this'
  = foldl (mediaState Allow_CALLS (allow this)) (_state this) arrivals
  /\ (_state this ∈ [None; Some 1%Z; Some 2%Z] ->
      _state this' ∈ [None; Some 1%Z; Some 2%Z]).
Proof.
  intros this'.
  assert (Hfold : _state this'
                  = foldl (mediaState Allow_CALLS (allow this)) (_state this)
                      arrivals).
  { unfold this'. clear this'. revert this.
    induction arrivals as [|[now uuid packet] arrivals IH]; intros this;
      [done|].
    change (_state
              (handleAll Allow_SMS Allow_CALLS gettext format getContact
                 cacheDir base64_decode arrivals
                 (handlePacket Allow_SMS Allow_CALLS gettext format getContact
                    cacheDir base64_decode now uuid packet this).2)
            = foldl (mediaState Allow_CALLS (allow this))
                (mediaState Allow_CALLS (allow this) (_state this)
                   {| now := now; uuid := uuid; packet := packet |})
                arrivals).
    rewrite IH, handlePacket_state.
    by destruct (handlePacket_device now uuid packet this) as (-> & _). }
  split; [exact Hfold|]. rewrite Hfold. clear.
  generalize (_state this). induction arrivals as [|a arrivals IH];
    intros state Hstate; [done|].
  cbn [foldl]. apply IH. unfold mediaState.
  destruct (default false _); [by repeat constructor|].
  destruct (_ && _); [by repeat constructor|done].
Qed.

End Frame.

(** ** The outcome of [handlePacket] *)

Lemma logged_record (e : Effect) (this : Plugin) :
  logged (record e this)
  = logged this ++ match e with
                   | Log message => [message]
                   | _ => []
                   end.
Proof. unfold logged. simpl. rewrite omap_app. by destruct e. Qed.

Section Outcome.

Variables Allow_SMS Allow_CALLS : Z.
Variable gettext : jsstring -> jsstring.
Variable format : jsstring -> list Value -> jsstring.
Variable getContact : option jsstring -> option jsstring -> Contact.
Variable cacheDir : jsstring.
Variable base64_decode : jsstring -> list N.

Local Abbreviation handlePacket :=
  (handlePacket Allow_SMS Allow_CALLS gettext format getContact cacheDir
                base64_decode).
Local Abbreviation _parsePacket := (_parsePacket getContact cacheDir base64_decode).
Local Abbreviation _onMissedCall := (_onMissedCall gettext format).
Local Abbreviation _onRinging := (_onRinging gettext format).
Local Abbreviation _onTalking := (_onTalking gettext format).
Local Abbreviation route := (route Allow_SMS Allow_CALLS).

(** [_parsePacket] changes nothing but the trace, to which it adds calls
    on the contact store only. *)
Lemma parsePacket_untouched now uuid packet this :
  let this1 := (_parsePacket now uuid packet this).2 in
  untouched this this1 /\ logged this1 = logged this
  /\ device_id this1 = device_id this.
Proof.
  unfold Telephony._parsePacket.
  destruct (truthy (p_phoneThumbnail packet));
    [destruct (truthy (avatar (getContact _ _)))|];
    unfold untouched, sent, withdrawn, logged; simpl;
    rewrite ?omap_app; simpl; rewrite ?app_nil_r; by repeat split.
Qed.

(** Without a phone number [_onSms] and [_onMissedCall] register the
    duplicate and then raise. *)
Lemma onSms_no_number ev this :
  phoneNumber ev = None ->
  _onSms ev this
  = (inl TypeError,
     set_notification
       (markDuplicate (js "sms|" ++ numToString (time ev))
          (name (contact ev) ++ js ": " ++ ToString (messageBody ev)) false
          <$> notification this) this).
Proof. intros H. unfold _onSms. by rewrite H. Qed.

Lemma onMissedCall_no_number ev this :
  phoneNumber ev = None ->
  _onMissedCall ev this
  = (inl TypeError,
     set_notification
       (markDuplicate (js "missedCall|" ++ numToString (time ev))
          (gettext (js "Missed call") ++ js ": " ++ name (contact ev)) false
          <$> notification this) this).
Proof. intros H. unfold Telephony._onMissedCall. by rewrite H. Qed.

Lemma onRinging_run ev this :
  exists notif,
    _onRinging ev this
    = (inr true,
       set_state 2
         (record (SendNotification (event ev ++ js "|" ++ numToString (time ev))
                    notif) this))
    /\ priority notif = URGENT
    /\ action <$> device_button notif = Some (js "muteCall").
Proof. by eexists. Qed.

Lemma onTalking_run ev this :
  exists notif,
    _onTalking ev this
    = (inr true,
       set_state 2
         (record (SendNotification (event ev ++ js "|" ++ numToString (time ev))
                    notif)
            (record (WithdrawNotification (js "ringing|" ++ name (contact ev)))
               this)))
    /\ priority notif = NORMAL.
Proof. by eexists. Qed.

(** [handlePacket] on a packet that is not a cancel, from what
    [_parsePacket] returned. *)
Lemma handlePacket_dispatch now uuid packet this ev this1 :
  _parsePacket now uuid packet this = (inr ev, this1) ->
  default false (isCancel ev) = false ->
  let this2 :=
    record (Emit (js "event") (event ev)
              [orEmpty (Some (name (contact ev))); orEmpty (phoneNumber ev);
               orEmpty (avatar (contact ev)); orEmpty (messageBody ev)])
           this1 in
  handlePacket now uuid packet this
  = match route (allow this2) (event ev) with
    | Some OnSms => promise (resolve (_onSms ev)) this2
    | Some OnMissedCall => promise (resolve (_onMissedCall ev)) this2
    | Some OnRinging => promise (resolve (_onRinging ev)) this2
    | Some OnTalking => promise (resolve (_onTalking ev)) this2
    | None =>
        (inr (Rejected RejectedFalse),
         if truthyNum (bitand (allow this2) Allow_CALLS)
         then record (Log (js "Unknown telephony event")) this2
         else this2)
    end.
Proof.
  intros Hparse Hcancel this2.
  unfold Telephony.handlePacket. rewrite (bind_inr _ _ _ _ _ Hparse), Hcancel.
  match goal with
  | |- context [perform ?e ≫= fun _ => promise ?m] =>
      change ((perform e ≫= fun _ => promise m) this1)
        with (promise m this2)
  end.
  unfold History.route.
  unfold promise at 1. rewrite get_bind.
  destruct (bool_decide (event ev = js "sms")
            && truthyNum (bitand (allow this2) Allow_SMS)); [done|].
  destruct (truthyNum (bitand (allow this2) Allow_CALLS)); [|done].
  repeat (case_bool_decide; [done|]). done.
Qed.

Lemma promise_resolve (m : M bool) (this : Plugin) :
  promise (resolve m) this
  = match m this with
    | (inr v, this') => (inr (Resolved v), this')
    | (inl e, this') => (inr (Rejected (Thrown e)), this')
    end.
Proof.
  unfold promise, resolve, mbind, M_bind. by destruct (m this) as [[e|v] this'].
Qed.

Lemma sent_trace (this this' : Plugin) id notif :
  trace this' = trace this ++ [SendNotification id notif] ->
  sent this' = sent this ++ [(id, notif)].
Proof. intros H. unfold sent. by rewrite H, omap_app. Qed.

(** X8: a packet that is not a cancel makes [handlePacket] return a
    promise that is resolved with [true] when the event is let through to
    a handler and, for [_onSms] and [_onMissedCall], has a phone number;
    rejected with the [TypeError] raised in the handler when that phone
    number is missing; and rejected with [false] when the permissions or
    the kind of the event let it through to no handler. Exactly one
    notification, named by the kind and the time, is sent in the first
    case and none in the others. *)
Theorem handlePacket_outcome now uuid packet this :
  default false (p_isCancel packet) = false ->
  exists this',
    handlePacket now uuid packet this
    = (inr (settled (route (allow this) (p_event packet))
              (p_phoneNumber packet)), this')
    /\ match settled (route (allow this) (p_event packet))
               (p_phoneNumber packet) with
       | Resolved _ =>
           exists notif,
             sent this'
             = sent this
               ++ [(p_event packet ++ js "|" ++ numToString now, notif)]
       | _ => sent this' = sent this
       end.
Proof.
  intros Hcancel.
  destruct (parsePacket_spec getContact cacheDir base64_decode
              now uuid packet this)
    as (ev & this1 & Hparse & Hev & Hnum & _ & Hc & Htime & _ & _ & _ & _ & Hs
        & Hallow).
  rewrite <- Hc in Hcancel.
  rewrite (handlePacket_dispatch _ _ _ _ _ _ Hparse Hcancel).
  cbn [allow record]. rewrite Hallow, Hev.
  set (this2 := record _ this1).
  assert (Hs2 : sent this2 = sent this).
  { unfold this2. by rewrite sent_record, app_nil_r. }
  rewrite <- Hnum, <- Hev, <- Htime.
  destruct (route (allow this) (event ev)) as [[| | |]|]; cbn [settled].
  - rewrite promise_resolve. destruct (phoneNumber ev) as [num|] eqn:Hn.
    + destruct (onSms_outcome ev num this2 Hn) as (this' & notif & -> & Ht & _).
      exists this'. split; [done|]. exists notif.
      rewrite <- Hs2. by apply sent_trace.
    + rewrite onSms_no_number by done. by eexists.
  - rewrite promise_resolve. destruct (phoneNumber ev) as [num|] eqn:Hn.
    + destruct (onMissedCall_outcome gettext format ev num this2 Hn)
        as (this' & notif & -> & Ht & _).
      exists this'. split; [done|]. exists notif.
      rewrite <- Hs2. by apply sent_trace.
    + rewrite onMissedCall_no_number by done. by eexists.
  - rewrite promise_resolve.
    destruct (onRinging_run ev this2) as (notif & -> & _).
    eexists. split; [done|]. exists notif.
    unfold sent in *. cbn [trace set_state record]. by rewrite omap_app, Hs2.
  - rewrite promise_resolve.
    destruct (onTalking_run ev this2) as (notif & -> & _).
    eexists. split; [done|]. exists notif.
    unfold sent in *. cbn [trace set_state record].
    by rewrite !omap_app, Hs2, app_nil_r.
  - eexists. split; [done|].
    destruct (truthyNum _); [|done]. by rewrite sent_record, app_nil_r.
Qed.

(** X9: an event that the permissions or its kind keep from every handler
    (a message without the permission for messages, a kind that is none of
    the four, any event without the permission for calls) is rejected
    with [false] and leaves the media state, the windows and the table of
    duplicates untouched, with no notification sent or withdrawn; with
    the permission for calls, and only then, ["Unknown telephony event"]
    is logged, also for a message. *)
Theorem rejected_event_changes_nothing now uuid packet this :
  default false (p_isCancel packet) = false ->
  route (allow this) (p_event packet) = None ->
  exists this',
    handlePacket now uuid packet this = (inr (Rejected RejectedFalse), this')
    /\ untouched this this'
    /\ logged this'
       = logged this
         ++ (if truthyNum (bitand (allow this) Allow_CALLS)
             then [js "Unknown telephony event"] else []).
Proof.
  intros Hcancel Hroute.
  destruct (parsePacket_spec getContact cacheDir base64_decode
              now uuid packet this)
    as (ev & this1 & Hparse & Hev & _ & _ & Hc & _ & _ & _ & _ & _ & _ & Hallow).
  rewrite <- Hc in Hcancel.
  rewrite (handlePacket_dispatch _ _ _ _ _ _ Hparse Hcancel).
  cbn [allow record]. rewrite Hallow, Hev, Hroute.
  destruct (parsePacket_untouched now uuid packet this)
    as ((H1 & H2 & H3 & H4 & H5) & H6 & _).
  rewrite Hparse in H1, H2, H3, H4, H5, H6. cbn [snd] in *.
  eexists. split; [done|].
  destruct (truthyNum _).
  - split.
    + unfold untouched. rewrite !sent_record, !withdrawn_record.
      cbn [record _state windows notification]. rewrite !app_nil_r.
      by repeat split.
    + rewrite !logged_record. by rewrite app_nil_r, H6.
  - split.
    + unfold untouched. rewrite !sent_record, !withdrawn_record.
      cbn [record _state windows notification]. rewrite !app_nil_r.
      by repeat split.
    + rewrite !logged_record. by rewrite !app_nil_r, H6.
Qed.

(** X10: when a message or a missed call that is let through has no phone
    number, the promise is rejected with a [TypeError], no notification
    is sent and no window changes, yet the duplicate registered under the
    kind and the time before the window was looked up stays in the table
    of the notification plugin, not cancelled. *)
Theorem missing_number_leaves_duplicate now uuid packet this :
  default false (p_isCancel packet) = false ->
  p_phoneNumber packet = None ->
  route (allow this) (p_event packet) = Some OnSms
  \/ route (allow this) (p_event packet) = Some OnMissedCall ->
  exists this',
    handlePacket now uuid packet this
    = (inr (Rejected (Thrown TypeError)), this')
    /\ sent this' = sent this
    /\ windows this' = windows this
    /\ forall table,
         notification this = Some table ->
         exists table' r,
           notification this' = Some table'
           /\ table' !! (p_event packet ++ js "|" ++ numToString now) = Some r
           /\ cancelled r = false.
Proof.
  intros Hcancel Hnone Hroute.
  destruct (parsePacket_spec getContact cacheDir base64_decode
              now uuid packet this)
    as (ev & this1 & Hparse & Hev & Hnum & _ & Hc & Htime & _ & _ & _ & _ & Hs
        & Hallow).
  rewrite <- Hc in Hcancel.
  rewrite (handlePacket_dispatch _ _ _ _ _ _ Hparse Hcancel).
  cbn [allow record]. rewrite Hallow, Hev.
  destruct (parsePacket_untouched now uuid packet this)
    as ((_ & H2 & H3 & _ & _) & _ & _).
  rewrite Hparse in H2, H3. cbn [snd] in *.
  rewrite Hnone in Hnum.
  assert (Hkind : forall h,
             route (allow this) (p_event packet) = Some h ->
             (h = OnSms -> p_event packet = js "sms")
             /\ (h = OnMissedCall -> p_event packet = js "missedCall")).
  { intros h. unfold History.route.
    destruct (bool_decide (p_event packet = js "sms")
              && truthyNum (bitand (allow this) Allow_SMS)) eqn:Hsms.
    - intros [= <-]. apply andb_prop in Hsms as [Hsms _].
      apply bool_decide_eq_true in Hsms. by split.
    - destruct (truthyNum (bitand (allow this) Allow_CALLS)); [|done].
      repeat case_bool_decide; intros [= <-]; by split. }
  destruct Hroute as [Hroute|Hroute]; rewrite Hroute;
    destruct (Hkind _ Hroute) as [Hk1 Hk2];
    rewrite promise_resolve.
  - rewrite onSms_no_number by done. eexists. split; [done|].
    split.
    { unfold sent in *. cbn [trace set_notification record].
      by rewrite omap_app, Hs, app_nil_r. }
    split; [done|].
    intros table Htable. cbn [notification set_notification record].
    rewrite H3, Htable. cbn [fmap option_fmap option_map].
    eexists _, _. split; [done|]. rewrite Hk1 by done. rewrite Htime.
    split; [apply markDuplicate_register|done].
  - rewrite onMissedCall_no_number by done. eexists. split; [done|].
    split.
    { unfold sent in *. cbn [trace set_notification record].
      by rewrite omap_app, Hs, app_nil_r. }
    split; [done|].
    intros table Htable. cbn [notification set_notification record].
    rewrite H3, Htable. cbn [fmap option_fmap option_map].
    eexists _, _. split; [done|]. rewrite Hk2 by done. rewrite Htime.
    split; [apply markDuplicate_register|done].
Qed.

End Outcome.

(** ** The names under which notifications are sent and withdrawn *)

Section Names.

Variables Allow_SMS Allow_CALLS : Z.
Variable gettext : jsstring -> jsstring.
Variable format : jsstring -> list Value -> jsstring.
Variable getContact : option jsstring -> option jsstring -> Contact.
Variable cacheDir : jsstring.
Variable base64_decode : jsstring -> list N.

Local Abbreviation handlePacket :=
  (handlePacket Allow_SMS Allow_CALLS gettext format getContact cacheDir
                base64_decode).
Local Abbreviation handleAll :=
  (handleAll Allow_SMS Allow_CALLS gettext format getContact cacheDir
             base64_decode).
Local Abbreviation _parsePacket := (_parsePacket getContact cacheDir base64_decode).
Local Abbreviation route := (route Allow_SMS Allow_CALLS).

(** What a ringing or talking event that is let through leaves in the
    lists of notifications sent and withdrawn. *)
Lemma handlePacket_call now uuid packet this :
  default false (p_isCancel packet) = false ->
  truthyNum (bitand (allow this) Allow_CALLS) = true ->
  p_event packet = js "ringing" \/ p_event packet = js "talking" ->
  let this' := (handlePacket now uuid packet this).2 in
  (sent this').*1
  = (sent this).*1 ++ [p_event packet ++ js "|" ++ numToString now]
  /\ withdrawn this'
     = withdrawn this
       ++ (if bool_decide (p_event packet = js "talking")
           then [js "ringing|"
                 ++ name (getContact (p_contactName packet)
                                     (p_phoneNumber packet))]
           else [])
  /\ allow this' = allow this.
Proof.
  intros Hcancel Hcalls Hkind.
  destruct (parsePacket_spec getContact cacheDir base64_decode
              now uuid packet this)
    as (ev & this1 & Hparse & Hev & _ & _ & Hc & Htime & Hname & _ & _ & Hw & Hs
        & Hallow).
  rewrite <- Hc in Hcancel.
  rewrite (handlePacket_dispatch _ _ _ _ _ _ _ _ _ _ _ _ _ Hparse Hcancel).
  cbn [allow record]. rewrite Hallow, Hev. unfold History.route. rewrite Hcalls.
  assert (Hne : js "ringing" ≠ js "sms" /\ js "talking" ≠ js "sms"
                /\ js "ringing" ≠ js "missedCall"
                /\ js "talking" ≠ js "missedCall"
                /\ js "talking" ≠ js "ringing")
    by (repeat split; vm_compute; discriminate).
  destruct Hne as (N1 & N2 & N3 & N4 & N5).
  destruct Hkind as [Hk|Hk]; rewrite Hk;
    rewrite !bool_decide_eq_false_2 by done;
    rewrite ?bool_decide_eq_true_2 by done; cbn [andb];
    rewrite promise_resolve.
  - destruct (onRinging_run gettext format ev
                (record (Emit (js "event") (js "ringing")
                           [orEmpty (Some (name (contact ev)));
                            orEmpty (phoneNumber ev);
                            orEmpty (avatar (contact ev));
                            orEmpty (messageBody ev)]) this1))
      as (notif & -> & _).
    cbn [snd]. unfold sent, withdrawn in *. cbn [trace set_state record allow].
    rewrite !omap_app, Hs, Hw, Hev, Hk, Htime. cbn.
    by rewrite !app_nil_r, fmap_app.
  - destruct (onTalking_run gettext format ev
                (record (Emit (js "event") (js "talking")
                           [orEmpty (Some (name (contact ev)));
                            orEmpty (phoneNumber ev);
                            orEmpty (avatar (contact ev));
                            orEmpty (messageBody ev)]) this1))
      as (notif & -> & _).
    cbn [snd]. unfold sent, withdrawn in *. cbn [trace set_state record allow].
    rewrite !omap_app, Hs, Hw, Hev, Hk, Htime, Hname. cbn.
    by rewrite !app_nil_r, fmap_app.
Qed.

(** What a cancel leaves in the same lists. *)
Lemma handlePacket_cancel now uuid packet this :
  p_isCancel packet = Some true ->
  let this' := (handlePacket now uuid packet this).2 in
  (sent this').*1 = (sent this).*1
  /\ withdrawn this'
     = withdrawn this
       ++ [p_event packet ++ js "|"
           ++ name (getContact (p_contactName packet) (p_phoneNumber packet))].
Proof.
  intros Hcancel.
  destruct (parsePacket_spec getContact cacheDir base64_decode
              now uuid packet this)
    as (ev & this1 & Hparse & Hev & _ & _ & Hc & _ & Hname & _ & _ & Hw & Hs & _).
  unfold Telephony.handlePacket. rewrite (bind_inr _ _ _ _ _ Hparse).
  rewrite Hc, Hcancel. simpl.
  unfold sent, withdrawn in *. cbn [trace set_state record].
  rewrite !omap_app, Hs, Hw, Hev, Hname. cbn. by rewrite !app_nil_r.
Qed.

(** X11: after a ringing event that is let through and then either its
    cancel or a talking event, the ringing notification was sent under
    ["ringing|"] and the time of the ringing packet, while the only
    notification withdrawn is ["ringing|"] and the name of the contact of
    the second packet: the two are the same name only if the contact is
    called by the decimal digits of that time. *)
Theorem ringing_withdrawn_by_name (ring next : Arrival) (this : Plugin) :
  p_event (packet ring) = js "ringing" ->
  default false (p_isCancel (packet ring)) = false ->
  truthyNum (bitand (allow this) Allow_CALLS) = true ->
  (p_event (packet next) = js "ringing"
   /\ p_isCancel (packet next) = Some true)
  \/ (p_event (packet next) = js "talking"
      /\ default false (p_isCancel (packet next)) = false) ->
  let this' := handleAll [ring; next] this in
  let caller := name (getContact (p_contactName (packet next))
                                 (p_phoneNumber (packet next))) in
  (sent this').*1
  = (sent this).*1
    ++ [js "ringing|" ++ numToString (now ring)]
    ++ (if bool_decide (p_event (packet next) = js "talking")
        then [js "talking|" ++ numToString (now next)] else [])
  /\ withdrawn this' = withdrawn this ++ [js "ringing|" ++ caller]
  /\ (js "ringing|" ++ caller = js "ringing|" ++ numToString (now ring)
      <-> caller = numToString (now ring)).
Proof.
  intros Hring Hnc Hcalls Hnext this' caller.
  destruct (handlePacket_call (now ring) (uuid ring) (packet ring) this
              Hnc Hcalls (or_introl Hring)) as (Hs1 & Hw1 & Hallow).
  rewrite Hring in Hs1, Hw1.
  rewrite bool_decide_eq_false_2 in Hw1 by (vm_compute; discriminate).
  rewrite app_nil_r in Hw1.
  unfold this', History.handleAll. cbn [foldl].
  set (this1 := (handlePacket (now ring) (uuid ring) (packet ring) this).2) in *.
  rewrite <- Hallow in Hcalls.
  split; [|split].
  - destruct Hnext as [[Hk Hc]|[Hk Hc]].
    + destruct (handlePacket_cancel (now next) (uuid next) (packet next) this1 Hc)
        as [Hs2 _].
      rewrite Hs2, Hs1, Hk.
      by rewrite bool_decide_eq_false_2 by (vm_compute; discriminate).
    + destruct (handlePacket_call (now next) (uuid next) (packet next) this1
                  Hc Hcalls (or_intror Hk)) as (Hs2 & _ & _).
      rewrite Hs2, Hs1, Hk. rewrite bool_decide_eq_true_2 by done.
      by rewrite <- app_assoc.
  - destruct Hnext as [[Hk Hc]|[Hk Hc]].
    + destruct (handlePacket_cancel (now next) (uuid next) (packet next) this1 Hc)
        as [_ Hw2].
      by rewrite Hw2, Hw1, Hk.
    + destruct (handlePacket_call (now next) (uuid next) (packet next) this1
                  Hc Hcalls (or_intror Hk)) as (_ & Hw2 & _).
      rewrite Hw2, Hw1, Hk. by rewrite bool_decide_eq_true_2 by done.
  - split; [|by intros ->]. intros H. by apply app_inv_head in H.
Qed.

End Names.

(** ** The actions *)
Import Actions Reading.

(** X12: [openUri] raises a [TypeError] before it creates or presents
    anything, whether it is called with a string, an [SmsURI], an array, a
    boolean or [undefined]: [!uri instanceof SmsURI] is never true, so the
    string is not parsed, and [_hasWindow] is given [undefined] or an
    array, neither of which has a [replace] method. *)
Theorem openUri_always_raises (query : jsstring -> list Contact)
    (uri : JSValue) (d : Desk) :
  openUri query uri d = (inl (Raised TypeError), d).
Proof.
  destruct d as [this n cs].
  destruct uri as [|b|s|a|[[rs|] body]]; reflexivity.
Qed.

Lemma conversationLoop_spec (this : Plugin) (wins : list Window) :
  conversationLoop (device_id this) wins = true
  <-> exists w, w ∈ wins /\ conversation this w.
Proof.
  induction wins as [|w wins IH]; cbn [conversationLoop].
  - split; [done|]. intros (w & Hw & _). by apply elem_of_nil in Hw.
  - assert (Hskip : ~ conversation this w ->
              ((exists w', w' ∈ w :: wins /\ conversation this w')
               <-> exists w', w' ∈ wins /\ conversation this w')).
    { intros Hw. split; intros (w' & Hin & Hc).
      - apply elem_of_cons in Hin as [->|Hin]; [done|by exists w'].
      - exists w'. split; [by apply elem_of_cons; right|done]. }
    destruct (win_device w) as [dev|] eqn:Hdev.
    + case_bool_decide as Hid.
      * destruct (number w) as [|c t] eqn:Hnum; cbn [truthy].
        -- rewrite IH. symmetry. apply Hskip. intros [_ Hn]. congruence.
        -- split; [|done]. intros _. exists w.
           split; [by apply elem_of_cons; left|]. split; [by subst|].
           by rewrite Hnum.
      * rewrite IH. symmetry. apply Hskip. intros [Hd _]. congruence.
    + rewrite IH. symmetry. apply Hskip. intros [Hd _]. congruence.
Qed.

(** A window [_hasWindow] finds for a number with a digit in it is a
    conversation. *)
Lemma eligible_conversation (this : Plugin) (num : jsstring) (w : Window) :
  stripNonDigits num ≠ [] -> eligible this num w -> conversation this w.
Proof.
  intros Hnum [Hd Hn]. split; [done|]. intros Hw. rewrite Hw in Hn.
  by rewrite <- Hn in Hnum.
Qed.

(** X13: [shareUri] never raises and leaves the plugin as it is; it
    creates exactly one window and presents it: a share window for the
    URL when an open window of this device has a non-empty number, and
    otherwise a conversation window whose message is set to the URL. The
    first is the case whenever [_hasWindow] finds a window for a number
    with a digit in it. *)
Theorem shareUri_window (url : jsstring) (d : Desk) :
  let this := plugin d in
  ((exists w, w ∈ windows this /\ conversation this w) ->
   shareUri url d
   = (inr tt,
      after this 1 [NewShareWindow url; Present (Created (created d))] d))
  /\ ((forall w, w ∈ windows this -> ~ conversation this w) ->
      shareUri url d
      = (inr tt,
         after this 1 [NewConversationWindow;
                       SetMessage (Created (created d)) url;
                       Present (Created (created d))] d))
  /\ (forall num index,
         stripNonDigits num ≠ [] ->
         _hasWindow (Some num) this = (inr (Some index), this) ->
         exists w, w ∈ windows this /\ conversation this w).
Proof.
  intros this. pose proof (conversationLoop_spec this (windows this)) as Hspec.
  assert (Hrun : shareUri url d
    = (inr tt,
       after this 1
         (if conversationLoop (device_id this) (windows this)
          then [NewShareWindow url; Present (Created (created d))]
          else [NewConversationWindow; SetMessage (Created (created d)) url;
                Present (Created (created d))]) d)).
  { unfold this. destruct d as [p n cs].
    cbv beta iota zeta delta
      [shareUri mbind Act_bind lift get newWindow call mret Act_ret plugin
       created calls after].
    destruct (conversationLoop _ _); cbv beta iota; rewrite <- ?app_assoc;
      by rewrite Nat.add_1_r. }
  split; [|split].
  - intros Hex. apply Hspec in Hex. by rewrite Hrun, Hex.
  - intros Hnone. rewrite Hrun.
    destruct (conversationLoop _ _) eqn:Hloop; [|done].
    destruct (proj1 Hspec eq_refl) as (w & Hin & Hw). by destruct (Hnone w).
  - intros num index Hnum Hfound.
    pose proof (windowLoop_spec this num (windows this) 0) as Hloop.
    unfold _hasWindow, mbind, M_bind, get, mret, M_ret in Hfound.
    destruct (windowLoop _ _ _ 0) as [i|]; [|done].
    destruct Hloop as (j & w & _ & Hj & Hw & _).
    exists w. split; [by apply list_elem_of_lookup_2 in Hj|].
    by apply (eligible_conversation this num).
Qed.

Lemma onSms_device ev : keeps sameDevice (_onSms ev).
Proof. unfold _onSms. keeps_walk device_leaf. Qed.

Lemma onMissedCall_device gettext format ev :
  keeps sameDevice (_onMissedCall gettext format ev).
Proof. unfold _onMissedCall. keeps_walk device_leaf. Qed.

(** After anything that keeps the device and its windows, [_hasWindow]
    finds what it would have found before. *)
Lemma hasWindow_sameDevice (this this' : Plugin) (num : jsstring) :
  sameDevice this this' ->
  _hasWindow (Some num) this'
  = (inr (windowLoop (device_id this) (stripNonDigits num) (windows this) 0),
     this').
Proof.
  intros (_ & Hid & _ & _ & _ & Hwins & _).
  unfold _hasWindow, mbind, M_bind, get, mret, M_ret.
  by rewrite Hid, (windowLoop_identity _ _ _ _ Hwins).
Qed.

Lemma lift_run {A} (m : M A) (this this' : Plugin) (a : A) (n : nat)
    (cs : list Call) :
  m this = (inr a, this') ->
  lift m {| plugin := this; created := n; calls := cs |}
  = (inr a, {| plugin := this'; created := n; calls := cs |}).
Proof. intros H. unfold lift. cbn [plugin created calls]. by rewrite H. Qed.

Lemma Act_bind_run {A B} (m : Act A) (f : A -> Act B) (d d' : Desk) (a : A) :
  m d = (inr a, d') -> (m ≫= f) d = f a d'.
Proof. intros H. unfold mbind, Act_bind. by rewrite H. Qed.

Lemma markDuplicate_cancelled (localId t2 : jsstring) (r : NotificationRecord)
    (table : gmap jsstring NotificationRecord) :
  table !! localId = Some r ->
  exists r', markDuplicate localId t2 true table !! localId = Some r'
             /\ cancelled r' = true.
Proof.
  intros H. unfold markDuplicate. rewrite lookup_alter_eq, H. by eexists.
Qed.

(** The notification [_onSms] sends carries, as the parameters of its
    default action, what [replySms] is to be called with. *)
Lemma onSms_notification ev num this :
  phoneNumber ev = Some num ->
  exists notif,
    sent (_onSms ev this).2
    = sent this ++ [(event ev ++ js "|" ++ numToString (time ev), notif)]
    /\ device_action notif
       = Some {| label := None;
                 object_path := dbus_object_path this;
                 action := js "replySms";
                 parameters := [Str num; Str (name (contact ev));
                                ofOption (messageBody ev); Num (time ev)] |}.
Proof.
  intros Hnum. unfold _onSms. rewrite Hnum. destruct this. run_handler.
  destruct (windowLoop _ _ _ 0); eexists; cbn [snd]; unfold sent;
    cbn [trace]; rewrite omap_app; (split; [reflexivity|reflexivity]).
Qed.

(** The notification [_onMissedCall] sends carries, as the parameters of
    its button, what [replyMissedCall] is to be called with. *)
Lemma onMissedCall_notification gettext format ev num this :
  phoneNumber ev = Some num ->
  exists notif,
    sent (_onMissedCall gettext format ev this).2
    = sent this ++ [(event ev ++ js "|" ++ numToString (time ev), notif)]
    /\ device_button notif
       = Some {| label := Some (gettext (js "Message"));
                 object_path := dbus_object_path this;
                 action := js "replyMissedCall";
                 parameters := [Str num; Str (name (contact ev));
                                Num (time ev)] |}.
Proof.
  intros Hnum. unfold _onMissedCall. rewrite Hnum. destruct this. run_handler.
  destruct (windowLoop _ _ _ 0); eexists; cbn [snd]; unfold sent;
    cbn [trace]; rewrite omap_app; (split; [reflexivity|reflexivity]).
Qed.

(** X14: the notification [_onSms] sends for a message with a phone
    number carries the parameters of [replySms] as those of its default
    action; [replySms] called with them afterwards finds the window
    [_hasWindow] found for the message. With a window open it only
    presents that window; with none it creates a window, logs the message
    in it, raises its urgency hint and presents it. It leaves the open
    windows as [_onSms] left them, and in both cases the duplicate
    registered for the message ends up cancelled when the notification
    plugin is loaded. *)
Theorem reply_after_sms
    (getContact : option jsstring -> option jsstring -> Contact)
    (ev : Event) (num : jsstring) (this : Plugin) :
  phoneNumber ev = Some num ->
  let this' := (_onSms ev this).2 in
  exists notif d',
    sent this'
    = sent this ++ [(event ev ++ js "|" ++ numToString (time ev), notif)]
    /\ device_action notif
       = Some {| label := None;
                 object_path := dbus_object_path this;
                 action := js "replySms";
                 parameters := [Str num; Str (name (contact ev));
                                ofOption (messageBody ev); Num (time ev)] |}
    /\ replySms getContact (Some num) (Some (name (contact ev)))
         (messageBody ev) (time ev) (desk this')
       = (inr tt, d')
    /\ windows (plugin d') = windows this'
    /\ (forall table,
           notification this = Some table ->
           exists table' r,
             notification (plugin d') = Some table'
             /\ table' !! (js "sms|" ++ numToString (time ev)) = Some r
             /\ cancelled r = true)
    /\ match windowLoop (device_id this) (stripNonDigits num) (windows this) 0
       with
       | Some index =>
           created d' = 0%nat /\ calls d' = [Present (Found index)]
       | None =>
           created d' = 1%nat
           /\ calls d'
              = [NewConversationWindow;
                 ReceiveMessage 0
                   (getContact (Some (name (contact ev))) (Some num))
                   (Some num) (messageBody ev);
                 SetUrgencyHint 0 true;
                 Present (Created 0)]
       end.
Proof.
  intros Hnum this'.
  destruct (onSms_notification ev num this Hnum) as (notif & Hsent & Haction).
  destruct (onSms_outcome ev num this Hnum) as (this1 & notif' & Hrun & _ & Hout).
  pose proof (onSms_device ev this) as Hdev.
  unfold this' in *. rewrite Hrun in *. cbn [snd] in *. clear this'.
  pose proof (hasWindow_sameDevice this this1 num Hdev) as Hfound.
  exists notif. unfold replySms, desk.
  rewrite (Act_bind_run _ _ _ _ _ (lift_run _ _ _ _ _ _ Hfound)).
  unfold windowOutcome in Hout.
  destruct (windowLoop _ _ _ 0) as [index|].
  - eexists. split; [exact Hsent|]. split; [exact Haction|].
    split; [reflexivity|]. split; [done|]. split; [|done].
    cbn [plugin]. by destruct Hout as [_ Hout].
  - eexists. split; [exact Hsent|]. split; [exact Haction|].
    split; [reflexivity|]. split; [done|]. split; [|done].
    cbn [plugin notification set_notification].
    destruct Hout as (_ & _ & Hout). intros table Htable.
    destruct (Hout table Htable) as (table' & -> & Hreg).
    cbn [fmap option_fmap option_map].
    destruct (markDuplicate_cancelled _
                (name (getContact (Some (name (contact ev))) (Some num))
                 ++ js ": " ++ ToString (messageBody ev)) _ _ Hreg)
      as (r' & Hr' & Hc).
    by eexists _, r'.
Qed.

(** X15: the notification [_onMissedCall] sends carries the parameters of
    [replyMissedCall] as those of its button. [replyMissedCall] starts by
    reading a variable [event] that telephony.js binds nowhere: without
    such a global it raises a [ReferenceError] and does nothing. With
    one, called with those parameters afterwards, it presents the window
    found or a new one and leaves the duplicate cancelled; in an open
    window the missed call is then logged a second time, under the
    contact looked up with number and name in the other order. *)
Theorem reply_after_missed_call
    (gettext : jsstring -> jsstring)
    (format : jsstring -> list Value -> jsstring)
    (getContact : option jsstring -> option jsstring -> Contact)
    (global : jsstring -> bool)
    (ev : Event) (num : jsstring) (this : Plugin) :
  phoneNumber ev = Some num ->
  let this' := (_onMissedCall gettext format ev this).2 in
  let reply :=
    replyMissedCall gettext format getContact global (Some num)
      (Some (name (contact ev))) (time ev) in
  let msg := js "<i>" ++ format (gettext (js "Missed call at %s")) [Num (time ev)]
                      ++ js "</i>" in
  let caller := getContact (Some num) (Some (name (contact ev))) in
  (exists notif,
      sent this'
      = sent this ++ [(event ev ++ js "|" ++ numToString (time ev), notif)]
      /\ device_button notif
         = Some {| label := Some (gettext (js "Message"));
                   object_path := dbus_object_path this;
                   action := js "replyMissedCall";
                   parameters := [Str num; Str (name (contact ev));
                                  Num (time ev)] |})
  /\ (global (js "event") = false ->
      forall d, reply d = (inl (ReferenceError (js "event")), d))
  /\ (global (js "event") = true ->
      exists d',
        reply (desk this') = (inr tt, d')
        /\ (forall table,
               notification this = Some table ->
               exists table' r,
                 notification (plugin d') = Some table'
                 /\ table' !! (js "missedCall|" ++ numToString (time ev))
                    = Some r
                 /\ cancelled r = true)
        /\ match windowLoop (device_id this) (stripNonDigits num)
                            (windows this) 0 with
           | Some index =>
               created d' = 0%nat /\ calls d' = [Present (Found index)]
               /\ exists w w',
                    windows this !! index = Some w
                    /\ windows (plugin d') !! index = Some w'
                    /\ messages w'
                       = messages w ++ [(contact ev, Some num, msg);
                                        (caller, Some num, msg)]
           | None =>
               created d' = 1%nat
               /\ calls d'
                  = [NewConversationWindow;
                     ReceiveMessage 0 caller (Some num) (Some msg);
                     Present (Created 0)]
               /\ windows (plugin d') = windows this
           end).
Proof.
  intros Hnum this' reply msg caller.
  split; [by apply onMissedCall_notification|]. split.
  - intros Hglobal d. unfold reply, replyMissedCall, readGlobal, mbind, Act_bind.
    by rewrite Hglobal.
  - intros Hglobal.
    destruct (onMissedCall_outcome gettext format ev num this Hnum)
      as (this1 & notif & Hrun & _ & Hout).
    pose proof (onMissedCall_device gettext format ev this) as Hdev.
    unfold this' in *. rewrite Hrun in *. cbn [snd] in *. clear this'.
    pose proof (hasWindow_sameDevice this this1 num Hdev) as Hfound.
    unfold reply, replyMissedCall, desk.
    unfold readGlobal at 1. unfold mbind at 1, Act_bind at 1. rewrite Hglobal.
    rewrite (Act_bind_run _ _ _ _ _ (lift_run _ _ _ _ _ _ Hfound)).
    unfold windowOutcome in Hout.
    destruct (windowLoop _ _ _ 0) as [index|].
    + eexists. split; [reflexivity|]. cbn [plugin created calls].
      destruct Hout as [(w & w' & Hw & _ & Hwins & Hmsg & _) Hdup].
      split; [exact Hdup|]. split; [done|]. split; [done|].
      exists w. eexists. split; [done|].
      cbn [windows set_windows]. rewrite Hwins.
      assert (Hlt : (index < length (windows this))%nat)
        by (by apply lookup_lt_Some in Hw).
      rewrite list_lookup_alter_eq, list_lookup_insert_eq by done.
      split; [reflexivity|]. cbn [messages receiveMessage ToString].
      rewrite Hmsg, Hnum. by rewrite <- app_assoc.
    + eexists. split; [reflexivity|]. cbn [plugin created calls].
      destruct Hout as (_ & Hwins & Hout).
      split; [|split; [done|split; [done|done]]].
      cbn [notification set_notification].
      intros table Htable.
      destruct (Hout table Htable) as (table' & -> & Hreg).
      cbn [fmap option_fmap option_map].
      destruct (markDuplicate_cancelled _
                  (gettext (js "Missed call") ++ js ": " ++ name caller)
                  _ _ Hreg) as (r' & Hr' & Hc).
      by eexists _, r'.
Qed.

(** ** Spaces *)

Lemma spaced_nil (rest : jsstring) : spaced [] rest.
Proof. intros [|? ?] r H; discriminate. Qed.

Lemma spaced_app (w1 w2 rest : jsstring) :
  spaced w1 (w2 ++ rest) -> spaced w2 rest -> spaced (w1 ++ w2) rest.
Proof.
  intros H1 H2 l r Heq.
  revert l Heq H1. induction w1 as [|a w1 IH]; intros l Heq H1.
  - by apply (H2 l r).
  - destruct l as [|b l]; cbn [app] in Heq; injection Heq as Hab Heq.
    + subst r. rewrite <- app_assoc. apply (H1 [] w1). by rewrite Hab.
    + apply (IH l Heq). intros l' r' Hw1. apply (H1 (a :: l') r').
      by rewrite Hw1.
Qed.

Lemma single_space (a : N) (l r : jsstring) :
  [a] = l ++ chr " " :: r -> a = chr " " /\ l = [] /\ r = [].
Proof.
  destruct l as [|b l]; cbn [app]; intros H.
  - by injection H as -> <-.
  - injection H as _ H. by destruct l.
Qed.

Lemma guarded_Seq (r1 r2 : RegExp) :
  guarded (Seq r1 r2) = true ->
  guarded r1 && guarded r2 = true
  \/ exists p q, r1 = CharSet p /\ r2 = NotAhead (CharSet q)
                 /\ negb (p (chr " ")) || q (chr " ") = true.
Proof.
  intros H. destruct r1; try (by left).
  destruct r2; try (by left). destruct r2; try (by left).
  right. by eexists _, _.
Qed.

Lemma starLoop_spaces {A} (r : RegExp) (k : Cont A) (x : A) :
  (forall i s c (k' : Cont A),
      run r i s c k' = Some x ->
      exists w s' c', s = w ++ s' /\ spaced w s'
                      /\ k' (i + length w)%nat s' c' = Some x) ->
  forall fuel i s c,
    starLoop (fun i' s' c' k' => run r i' s' c' k') k fuel i s c = Some x ->
    exists w s' c', s = w ++ s' /\ spaced w s'
                    /\ k (i + length w)%nat s' c' = Some x.
Proof.
  intros Hr. induction fuel as [|fuel IH]; intros i s c H; simpl in H.
  - exists [], s, c. rewrite Nat.add_0_r. split; [done|].
    split; [apply spaced_nil|done].
  - destruct (run r i s c _) as [v|] eqn:Hstep.
    + injection H as ->. apply Hr in Hstep as (w & s1 & c1 & -> & Hw & Hk).
      destruct (i <? i + length w)%nat; [|done].
      apply IH in Hk as (w2 & s' & c' & -> & Hw2 & Hk).
      exists (w ++ w2), s', c'. rewrite <- app_assoc. split; [done|].
      split; [by apply spaced_app|]. by rewrite length_app, Nat.add_assoc.
    + exists [], s, c. rewrite Nat.add_0_r. split; [done|].
      split; [apply spaced_nil|done].
Qed.

(** What a guarded expression consumes has no space followed by a space,
    neither inside nor across its end. *)
Lemma run_spaces {A} (r : RegExp) :
  guarded r = true ->
  forall i s c (k : Cont A) x,
    run r i s c k = Some x ->
    exists w s' c', s = w ++ s' /\ spaced w s'
                    /\ k (i + length w)%nat s' c' = Some x.
Proof.
  induction r as [|p|r1 IHr1 r2 IHr2|r1 IHr1 r2 IHr2|r IHr|g r IHr|r IHr| |];
    intros Hg i s c k x H.
  - exists [], s, c. rewrite Nat.add_0_r. split; [done|].
    split; [apply spaced_nil|done].
  - cbn [run] in H. destruct s as [|a s]; [done|].
    destruct (p a) eqn:Hp; [|done].
    exists [a], s, c. rewrite Nat.add_1_r. split; [done|]. split; [|done].
    intros l r Heq. apply single_space in Heq as (-> & -> & ->).
    cbn [guarded] in Hg. by rewrite Hp in Hg.
  - apply guarded_Seq in Hg as [Hg|(p & q & -> & -> & Hg)].
    + apply andb_prop in Hg as [Hg1 Hg2]. rewrite run_Seq in H.
      apply (IHr1 Hg1) in H as (w1 & s1 & c1 & -> & Hw1 & H).
      apply (IHr2 Hg2) in H as (w2 & s2 & c2 & -> & Hw2 & H).
      exists (w1 ++ w2), s2, c2. rewrite <- app_assoc. split; [done|].
      split; [by apply spaced_app|]. by rewrite length_app, Nat.add_assoc.
    + cbn [run] in H. destruct s as [|a s]; [done|].
      destruct (p a) eqn:Hp; [|done].
      exists [a], s, c. rewrite Nat.add_1_r. split; [done|].
      destruct s as [|b s].
      * split; [|done]. intros l r Heq.
        by apply single_space in Heq as (-> & -> & ->).
      * destruct (q b) eqn:Hq; [done|]. split; [|done].
        intros l r Heq. apply single_space in Heq as (-> & -> & ->).
        cbn [app head]. intros Hb.
        assert (b = chr " ") as -> by congruence.
        rewrite Hp, Hq in Hg. done.
  - simpl in Hg. apply andb_prop in Hg as [Hg1 Hg2]. rewrite run_Disj in H.
    destruct (run r1 i s c k) as [v|] eqn:H1.
    + injection H as ->. by apply (IHr1 Hg1) in H1.
    + by apply (IHr2 Hg2) in H.
  - rewrite run_Star in H. apply (starLoop_spaces r k x) in H; [done|].
    intros i0 s0 c0 k0 H0. by apply (IHr Hg) in H0.
  - rewrite run_Group in H. apply (IHr Hg) in H as (w & s' & c' & -> & Hw & H).
    by eexists w, s', _.
  - cbn [run] in H. destruct (run r i s c _); [done|].
    exists [], s, c. rewrite Nat.add_0_r. split; [done|].
    split; [apply spaced_nil|done].
  - cbn [run] in H. destruct (i =? 0)%nat; [|done].
    exists [], s, c. rewrite Nat.add_0_r. split; [done|].
    split; [apply spaced_nil|done].
  - cbn [run] in H. destruct s; [|done].
    exists [], [], c. rewrite Nat.add_0_r. split; [done|].
    split; [apply spaced_nil|done].
Qed.

(** X17: a string with two consecutive spaces anywhere in it is matched
    by no run of [_smsRegex], so that the constructor refuses it as
    malformed; single spaces inside a number are accepted, as in
    [sms:555 1234 ]. *)
Theorem double_space_malformed (p q : jsstring) :
  exec _smsRegex (p ++ js "  " ++ q) = None
  /\ SmsURI.new (p ++ js "  " ++ q) = Err MalformedUri
  /\ SmsURI.new (js "sms:555 1234 ")
     = Ok {| SmsURI.recipients := Some [js "555 1234 "];
             SmsURI.body := None |}.
Proof.
  assert (Hexec : exec _smsRegex (p ++ js "  " ++ q) = None).
  { destruct (exec _smsRegex _) as [arr|] eqn:H; [|done]. exfalso.
    unfold exec, _smsRegex in H.
    change (execFrom {| pattern := ?r; ngroups := ?n |} 0 ?s)
      with (exec {| pattern := r; ngroups := n |} s) in H.
    rewrite exec_anchored in H.
    match type of H with
    | run _ ?i ?s ?c ?k = _ =>
        change (run beforeEnd i s c
                  (fun i' s' c' => run AssertEnd i' s' c' k) = Some arr) in H
    end.
    apply run_spaces in H as (w & s' & c' & Heq & Hw & H); [|closed].
    cbn [run] in H. destruct s'; [|done]. rewrite app_nil_r in Heq.
    by apply (Hw p (chr " " :: q)). }
  split; [done|]. split; [|vm_compute; reflexivity].
  unfold SmsURI.new, SmsURI._init. by rewrite Hexec.
Qed.

(** ** The properties on sample inputs *)

(** The round trip of [Cases.message]. *)
Lemma toString_new_roundtrip_witness :
  plainValue Cases.message = true
  /\ exists uri,
       SmsURI.toString Cases.message = Ok uri
       /\ SmsURI.new uri = Ok Cases.message.
Proof.
  split; [reflexivity|]. apply toString_new_roundtrip. reflexivity.
Defined.

(** A body with an [@] in it. *)
Lemma toString_uri_rejected_witness :
  exists uri,
    SmsURI.toString {| SmsURI.recipients := Some [js "15551234567"];
                       SmsURI.body := Some (js "ann@example.org") |}
    = Ok uri
    /\ SmsURI.new uri = Err MalformedUri.
Proof.
  apply toString_uri_rejected.
  - repeat constructor; by vm_compute.
  - do 3 apply Exists_cons_tl. apply Exists_cons_hd. reflexivity.
Defined.

(** The slashes in front of [15551234567?body=hi]. *)
Lemma slashes_after_scheme_witness :
  SmsURI.new (js "sms://" ++ js "15551234567?body=hi")
  = SmsURI.new (js "sms:" ++ js "15551234567?body=hi")
  /\ SmsURI.new (js "sms:///" ++ js "15551234567?body=hi")
     = SmsURI.new (js "sms:" ++ js "15551234567?body=hi")
  /\ SmsURI.new (js "sms:/" ++ js "15551234567?body=hi") = Err MalformedUri
  /\ SmsURI.new (js "sms:////" ++ js "15551234567?body=hi") = Err MalformedUri.
Proof. apply slashes_after_scheme. by vm_compute. Defined.

(** The recipients of [sms:+15551234567,555-0100;phone-context=+1?body=hi]. *)
Lemma parsed_recipients_witness :
  exists r rs,
    Some [js "+15551234567"; js "+1555-0100"] = Some (r :: rs)
    /\ Forall (fun x => x ≠ []) (r :: rs)
    /\ exists s,
         SmsURI.toString
           {| SmsURI.recipients := Some [js "+15551234567"; js "+1555-0100"];
              SmsURI.body := Some (js "hi") |} = Ok s
         /\ startsWith s (js "sms:" ++ r) = true.
Proof.
  apply (parsed_recipients
           (js "sms:+15551234567,555-0100;phone-context=+1?body=hi")
           {| SmsURI.recipients := Some [js "+15551234567"; js "+1555-0100"];
              SmsURI.body := Some (js "hi") |}).
  vm_compute. reflexivity.
Defined.

(** The query [body=&x=1&body=a&body=b]. *)
Lemma duplicate_field_exactly_witness :
  (SmsURI.new (js "sms:111?body=&x=1&body=a&body=b") = Err DuplicateField
   <-> Duplicate Cases.fields)
  /\ (~ Duplicate Cases.fields ->
      SmsURI.new (js "sms:111?body=&x=1&body=a&body=b")
      = Ok {| SmsURI.recipients := Some [js "111"];
              SmsURI.body := SmsURI.bodyOf Cases.fields |}).
Proof.
  apply (duplicate_field_exactly (js "sms:111?body=&x=1&body=a&body=b")
           (js "111") Cases.fields [js "111"]).
  - vm_compute. reflexivity.
  - vm_compute. reflexivity.
  - repeat constructor; by vm_compute.
  - repeat (constructor 2;
            [intros _;
             first [by left|right; eexists; vm_compute; reflexivity]|]).
    constructor 1.
Defined.

(** A message received with the permission for messages. *)
Lemma handlePacket_outcome_witness :
  default false (p_isCancel Sample.sms) = false
  /\ exists this',
    handlePacket 4 2 Sample.gettext Sample.format Sample.getContact
      (js "/cache") (fun b64 => b64) 1500000000 (js "uuid") Sample.sms
      Sample.plugin
    = (inr (Resolved true), this')
    /\ exists notif, sent this' = [(js "sms|1500000000", notif)].
Proof.
  split; [reflexivity|].
  exact (handlePacket_outcome 4 2 Sample.gettext Sample.format
           Sample.getContact (js "/cache") (fun b64 => b64) 1500000000
           (js "uuid") Sample.sms Sample.plugin eq_refl).
Defined.

(** A message received with the permission for calls only. *)
Lemma rejected_event_changes_nothing_witness :
  route 8 4 (allow Sample.plugin) (p_event Sample.sms) = None
  /\ exists this',
    handlePacket 8 4 Sample.gettext Sample.format Sample.getContact
      (js "/cache") (fun b64 => b64) 1500000000 (js "uuid") Sample.sms
      Sample.plugin
    = (inr (Rejected RejectedFalse), this')
    /\ untouched Sample.plugin this'
    /\ logged this' = [js "Unknown telephony event"].
Proof.
  split; [reflexivity|].
  exact (rejected_event_changes_nothing 8 4 Sample.gettext Sample.format
           Sample.getContact (js "/cache") (fun b64 => b64) 1500000000
           (js "uuid") Sample.sms Sample.plugin eq_refl eq_refl).
Defined.

(** A message without a phone number. *)
Lemma missing_number_leaves_duplicate_witness :
  p_phoneNumber Cases.anonymous = None
  /\ exists this',
    handlePacket 4 2 Sample.gettext Sample.format Sample.getContact
      (js "/cache") (fun b64 => b64) 1500000000 (js "uuid") Cases.anonymous
      Sample.plugin
    = (inr (Rejected (Thrown TypeError)), this')
    /\ sent this' = sent Sample.plugin
    /\ windows this' = windows Sample.plugin
    /\ forall table,
         notification Sample.plugin = Some table ->
         exists table' r,
           notification this' = Some table'
           /\ table' !! (js "sms|1500000000") = Some r
           /\ cancelled r = false.
Proof.
  split; [reflexivity|].
  exact (missing_number_leaves_duplicate 4 2 Sample.gettext Sample.format
           Sample.getContact (js "/cache") (fun b64 => b64) 1500000000
           (js "uuid") Cases.anonymous Sample.plugin eq_refl eq_refl
           (or_introl eq_refl)).
Defined.

(** A call that rings and is then cancelled. *)
Lemma ringing_withdrawn_by_name_witness :
  (sent (handleAll 4 2 Sample.gettext Sample.format Sample.getContact
           (js "/cache") (fun b64 => b64) Cases.ringThenCancel
           Sample.plugin)).*1
  = [js "ringing|1500000000"]
  /\ withdrawn (handleAll 4 2 Sample.gettext Sample.format Sample.getContact
                  (js "/cache") (fun b64 => b64) Cases.ringThenCancel
                  Sample.plugin)
     = [js "ringing|Ann"]
  /\ (js "ringing|Ann" = js "ringing|1500000000"
      <-> js "Ann" = js "1500000000").
Proof.
  exact (ringing_withdrawn_by_name 4 2 Sample.gettext Sample.format
           Sample.getContact (js "/cache") (fun b64 => b64)
           {| now := 1500000000; uuid := js "u1"; packet := Cases.ringing |}
           {| now := 1500000030; uuid := js "u2"; packet := Sample.cancel |}
           Sample.plugin eq_refl eq_refl eq_refl
           (or_introl (conj eq_refl eq_refl))).
Defined.

(** The reply to the sample message, whose window is open. *)
Lemma reply_after_sms_witness :
  phoneNumber Sample.smsEvent = Some (js "15551234567")
  /\ exists notif d',
    sent (_onSms Sample.smsEvent Sample.plugin).2
    = [(js "sms|1500000000", notif)]
    /\ device_action notif
       = Some {| label := None;
                 object_path := dbus_object_path Sample.plugin;
                 action := js "replySms";
                 parameters := [Str (js "15551234567"); Str (js "Ann");
                                Str (js "hi"); Num 1500000000] |}
    /\ replySms Sample.getContact (Some (js "15551234567")) (Some (js "Ann"))
         (Some (js "hi")) 1500000000
         (desk (_onSms Sample.smsEvent Sample.plugin).2)
       = (inr tt, d')
    /\ windows (plugin d') = windows (_onSms Sample.smsEvent Sample.plugin).2
    /\ (forall table,
           notification Sample.plugin = Some table ->
           exists table' r,
             notification (plugin d') = Some table'
             /\ table' !! (js "sms|1500000000") = Some r
             /\ cancelled r = true)
    /\ created d' = 0%nat /\ calls d' = [Present (Found 0)].
Proof.
  split; [reflexivity|].
  exact (reply_after_sms Sample.getContact Sample.smsEvent (js "15551234567")
           Sample.plugin eq_refl).
Defined.

(** The reply to a missed call, with no [event] in the global scope. *)
Lemma reply_after_missed_call_witness :
  phoneNumber Cases.missedCallEvent = Some (js "15551234567")
  /\ forall d,
       replyMissedCall Sample.gettext Sample.format Sample.getContact
         (fun _ => false) (Some (js "15551234567")) (Some (js "Ann"))
         1500000000 d
       = (inl (ReferenceError (js "event")), d).
Proof.
  split; [reflexivity|].
  exact (proj1 (proj2 (reply_after_missed_call Sample.gettext Sample.format
                         Sample.getContact (fun _ => false)
                         Cases.missedCallEvent (js "15551234567")
                         Sample.plugin eq_refl)) eq_refl).
Defined.
